(** * Formulator: the control tree and the registry resolution

    A shallow embedding of [lib/controls.ts] (ItemControl, FieldControl,
    GroupControl, ArrayControl) and of the registry lookups of
    [lib/visitor.ts].

    Controls are JavaScript objects that point at each other (a composite
    holds its children, every child holds a parent back-reference), so the
    embedding keeps them in a store indexed by references and every method
    is a function over that store. A method that can fail to return (a
    TypeError, a call stack exhausted by a cyclic parent chain) returns an
    [option].

    The streams of rxjs are kept by what the engine reads from them: the
    gate [_initialized$] by its current value, a validation subscription by
    the latest value of each of its sources. The flag and message pipelines
    of ItemControl write none of the fields below; they are modelled apart
    from the store, by what [flags$] and [messages$] hold, the object that
    [flags$] folds every emission into being an argument. The trigger and
    disable pipelines are left out. fp-ts's [RAR.range] and the host
    program's validators and item factories are parameters.

    Plain objects are read as JavaScript reads them: a read by a name that
    the object does not own goes on to [Object.prototype], whose members
    are listed, unless the code asks [hasOwnProperty] or walks
    [Object.keys]. *)

From Stdlib Require Import ZArith Lia Ascii.
From stdpp Require Import base option list strings pretty gmap.

Set Warnings "-register-all".

Open Scope Z_scope.
Open Scope nat_scope.

(** ** Values *)

(** The JavaScript values a control can hold. A group's value is a record
    ([VObj], keys in insertion order), an array's value a sequence. *)
Inductive JsVal : Type :=
| VUndefined
| VNull
| VBool (b : bool)
| VNum (z : Z)
| VStr (s : string)
| VArr (items : list JsVal)
| VObj (fields : list (string * JsVal)).

(** [acc[name] = v] on a record. *)
Fixpoint obj_set (fields : list (string * JsVal)) (name : string) (v : JsVal)
  : list (string * JsVal) :=
  match fields with
  | [] => [(name, v)]
  | (k, w) :: rest =>
      if String.eqb k name then (k, v) :: rest else (k, w) :: obj_set rest name v
  end.

(** [fields[name]], [None] when the key is not an own property. *)
Fixpoint obj_get {A : Type} (fields : list (string * A)) (name : string) : option A :=
  match fields with
  | [] => None
  | (k, w) :: rest => if String.eqb k name then Some w else obj_get rest name
  end.

(** *** Inherited properties

    A property read [o[name]] that finds no own key [name] goes on to the
    prototype of [o]. The records of this program (the controls of a group,
    an error map, a flag map, a registry and its categories) are plain
    objects, whose prototype is [Object.prototype]: it holds the methods
    below and, under [__proto__], an accessor that answers with the
    prototype itself. *)
Definition Object_prototype_methods : list string :=
  ["constructor"; "hasOwnProperty"; "isPrototypeOf"; "propertyIsEnumerable";
   "toLocaleString"; "toString"; "valueOf";
   "__defineGetter__"; "__defineSetter__"; "__lookupGetter__"; "__lookupSetter__"]%string.

Inductive Inherited : Type :=
| InheritedMethod (name : string)  (* the function [Object.prototype[name]] *)
| InheritedPrototype.              (* [Object.prototype], read under [__proto__] *)

(** What a plain object inherits under [name]; every such value is truthy. *)
Definition Object_prototype (name : string) : option Inherited :=
  if bool_decide (name ∈ Object_prototype_methods) then Some (InheritedMethod name)
  else if String.eqb name "__proto__" then Some InheritedPrototype
  else None.

(** [x ?? null] *)
Definition nullish_to_null (o : option JsVal) : JsVal :=
  match o with
  | None | Some VUndefined | Some VNull => VNull
  | Some v => v
  end.

(** [this.value[i] ?? null] for the sequence held by an ArrayControl. *)
Definition seed_at (v : JsVal) (i : nat) : JsVal :=
  match v with
  | VArr items => nullish_to_null (items !! i)
  | _ => VNull
  end.

(** ** Messages, status *)

(** [interface Messages { [key]: { message: string; [key]: unknown } }] *)
Record Descriptor : Type := mkDescriptor {
  message : string;
  detail : list (string * JsVal) }.

Abbreviation Messages := (gmap string Descriptor).

(** [interface AbstractStatus] *)
Record AbstractStatus : Type := mkStatus {
  valid : bool;
  pending : bool;
  dirty : bool;
  touched : bool;
  disabled : bool }.

(** [Partial<AbstractStatus>]: the fields a caller of [setStatus] supplies. *)
Record PartialStatus : Type := mkPartial {
  p_valid : option bool;
  p_pending : option bool;
  p_dirty : option bool;
  p_touched : option bool;
  p_disabled : option bool }.

Definition no_change : PartialStatus := mkPartial None None None None None.

(** [{ ...this.status, ...status }] *)
Definition spread_status (s : AbstractStatus) (p : PartialStatus) : AbstractStatus :=
  {| valid := default (valid s) (p_valid p);
     pending := default (pending s) (p_pending p);
     dirty := default (dirty s) (p_dirty p);
     touched := default (touched s) (p_touched p);
     disabled := default (disabled s) (p_disabled p) |}.

(** The status a FieldControl is constructed with. *)
Definition initial_status : AbstractStatus :=
  {| valid := true; disabled := false; pending := false; dirty := false; touched := false |}.

(** The reducer of [FieldControl.update]: [acc.x || c.status.x] field by field. *)
Definition or_status (acc c : AbstractStatus) : AbstractStatus :=
  {| valid := valid acc || valid c;
     disabled := disabled acc || disabled c;
     pending := pending acc || pending c;
     dirty := dirty acc || dirty c;
     touched := touched acc || touched c |}.

(** ** Validation subscriptions *)

(** What a validator hands back when it is called: a plain value (wrapped by
    [of]) or something that delivers its first value later (a promise or an
    observable piped through [first()]). *)
Inductive VResult : Type :=
| Now (m : option Messages)
| Later.

(** One subscription made by [validate()]:
    [combineLatest([initialized$.pipe(filter(Boolean)), sources]).pipe(..., first())].
    [sources] keeps the latest value of every per-validator source ([None]
    while it has not emitted); [closed] is set when [first()] completes the
    subscription or when it is unsubscribed; [delivered] counts the calls of
    the subscriber, the function that writes [errors]. *)
Record Subscription : Type := mkSub {
  sources : list (option (option Messages));
  closed : bool;
  delivered : nat }.

(** [notNullish] of [./utils], used as [AR.filter(notNullish)]. *)
Definition notNullish {A : Type} (x : option A) : bool :=
  match x with Some _ => true | None => false end.

Definition filter_notNullish {A : Type} (l : list (option A)) : list A :=
  omap id l.

(** [results.length ? results.reduce((acc, r) => ({ ...acc, ...r }), {}) : null] *)
Definition merge_results (results : list Messages) : option Messages :=
  match results with
  | [] => None
  | _ => Some (foldl (fun acc r => r ∪ acc) ∅ results)
  end.

(** The value the combined pipeline emits once every source has emitted. *)
Definition combined (srcs : list (option (option Messages))) : option (option Messages) :=
  if forallb notNullish srcs
  then Some (merge_results (filter_notNullish (filter_notNullish srcs)))
  else None.

(** ** The store of controls *)

Abbreviation ref := nat.

(** [!!errors] *)
Definition double_bang {A : Type} (x : option A) : bool :=
  match x with Some _ => true | None => false end.

(** [Object.keys(value)] paired with [value[name]] for each key. [None] is
    the TypeError of [Object.keys(null)]; numbers and booleans have no own
    keys, sequences and strings have their indices. *)
Definition Object_entries (v : JsVal) : option (list (string * JsVal)) :=
  match v with
  | VUndefined | VNull => None
  | VBool _ | VNum _ => Some []
  | VStr s => Some (imap (fun i a => (pretty i, VStr (String a EmptyString)))
                         (String.list_ascii_of_string s))
  | VArr items => Some (imap (fun i w => (pretty i, w)) items)
  | VObj fields => Some fields
  end.

(** Sequencing of a [forEach] whose body can throw. *)
Fixpoint forEachM {S A : Type} (body : S -> A -> option S) (s : S) (l : list A) : option S :=
  match l with
  | [] => Some s
  | a :: rest =>
      match body s a with
      | None => None
      | Some s' => forEachM body s' rest
      end
  end.

(** [Array.prototype.splice]'s normalisation of its start index. *)
Definition splice_start (len : nat) (index : Z) : nat :=
  if (index <? 0)%Z then Z.to_nat (Z.max (Z.of_nat len + index) 0)
  else Nat.min (Z.to_nat index) len.

(** [l.splice(index, 0, item)] and [l.splice(index, 1)] *)
Definition splice_insert {A : Type} (l : list A) (index : Z) (item : A) : list A :=
  let s := splice_start (length l) index in take s l ++ item :: drop s l.
Definition splice_remove {A : Type} (l : list A) (index : Z) : list A :=
  let s := splice_start (length l) index in take s l ++ drop (S s) l.

Section Controls.

(** [V] names the validator functions and [F] the item factories held by
    controls; both are closures of the host program, called through
    [callV] and [callF] below. *)
Variables (V F : Type).

Inductive Kind : Type :=
| KField
| KGroup (controls : list (string * ref))
| KArray (itemFactory : F) (controls : list ref).

(** The fields of a FieldControl. [initialized] is
    [_initialized$.getValue()]; [validationSubs] lists every subscription
    [validate()] has made, oldest first: the last one is
    [this.validationSub], the earlier ones have been unsubscribed. *)
Record Control : Type := mkControl {
  parent : option ref;
  value : JsVal;
  initialValue : JsVal;
  status : AbstractStatus;
  errors : option Messages;
  initialized : bool;
  validators : list V;
  validationSubs : list Subscription;
  kind : Kind }.

(** The store: a reference is a position in it. *)
#[local] Abbreviation Heap := (list Control).

Definition with_parent (p : option ref) (c : Control) : Control :=
  mkControl p (value c) (initialValue c) (status c) (errors c) (initialized c)
            (validators c) (validationSubs c) (kind c).
Definition with_value (v : JsVal) (c : Control) : Control :=
  mkControl (parent c) v (initialValue c) (status c) (errors c) (initialized c)
            (validators c) (validationSubs c) (kind c).
Definition with_status (s : AbstractStatus) (c : Control) : Control :=
  mkControl (parent c) (value c) (initialValue c) s (errors c) (initialized c)
            (validators c) (validationSubs c) (kind c).
Definition with_errors (e : option Messages) (c : Control) : Control :=
  mkControl (parent c) (value c) (initialValue c) (status c) e (initialized c)
            (validators c) (validationSubs c) (kind c).
Definition with_initialized (b : bool) (c : Control) : Control :=
  mkControl (parent c) (value c) (initialValue c) (status c) (errors c) b
            (validators c) (validationSubs c) (kind c).
Definition with_validators (vs : list V) (c : Control) : Control :=
  mkControl (parent c) (value c) (initialValue c) (status c) (errors c) (initialized c)
            vs (validationSubs c) (kind c).
Definition with_validationSubs (subs : list Subscription) (c : Control) : Control :=
  mkControl (parent c) (value c) (initialValue c) (status c) (errors c) (initialized c)
            (validators c) subs (kind c).
Definition with_kind (k : Kind) (c : Control) : Control :=
  mkControl (parent c) (value c) (initialValue c) (status c) (errors c) (initialized c)
            (validators c) (validationSubs c) k.

Definition blank : Control :=
  mkControl None VUndefined VUndefined initial_status None false [] [] KField.

#[export] Instance Control_inhabited : Inhabited Control := populate blank.

(** [get children()]: none for a plain field, [Object.values(this.controls)]
    for a group, [this.controls] for an array. *)
Definition children (c : Control) : list ref :=
  match kind c with
  | KField => []
  | KGroup controls => map snd controls
  | KArray _ controls => controls
  end.

(** [control instanceof FieldControl]. GroupControl and ArrayControl both
    extend FieldControl, so the test holds for every kind of control the
    store holds. *)
Definition instanceof_FieldControl (c : Control) : bool :=
  match kind c with
  | KField => true
  | KGroup _ => true
  | KArray _ _ => true
  end.

(** *** reduceControls *)

(** [forEachChild] visits [Object.keys(controls)] in order. *)
Definition forEachChild {S : Type} (controls : list (string * ref))
    (predicate : S -> ref -> string -> S) (s : S) : S :=
  foldl (fun s kv => predicate s (snd kv) (fst kv)) s controls.

Definition reduceChildren {T : Type} (controls : list (string * ref)) (initValue : T)
    (predicate : T -> ref -> string -> T) : T :=
  forEachChild controls (fun res control name => predicate res control name) initValue.

Definition reduceControls (h : Heap) (controls : list (string * ref)) (disabled_ : bool)
  : JsVal :=
  VObj (reduceChildren controls []
          (fun acc control name =>
             if negb (disabled (status (h !!! control))) || disabled_
             then obj_set acc name (value (h !!! control))
             else acc)).

(** *** update *)

(** The part of [update()] that runs before [super.update()] in the
    composites: GroupControl and ArrayControl recompute [value]. *)
Definition recompute_value (h : Heap) (c : Control) : Control :=
  match kind c with
  | KField => c
  | KGroup controls => with_value (reduceControls h controls (disabled (status c))) c
  | KArray _ controls => with_value (VArr (map (fun r => value (h !!! r)) controls)) c
  end.

(** [this.children.reduce((acc, c) => ({ valid: acc.valid || c.status.valid, ... }), this.status)] *)
Definition aggregate (h : Heap) (c : Control) : AbstractStatus :=
  foldl (fun acc r => or_status acc (status (h !!! r))) (status c) (children c).

(** [update()], dispatched on the class of the receiver. Every class returns
    at once while the control is not initialized; otherwise the composite
    recomputes its value, [FieldControl.update] folds the children's status
    into [this.status], and [ItemControl.update] calls [this.parent?.update()].
    The recursion runs up the parent chain; [fuel] bounds its depth and
    [None] stands for a call stack that is exhausted (or a parent reference
    that leads nowhere). *)
Fixpoint update (fuel : nat) (h : Heap) (r : ref) : option Heap :=
  match fuel with
  | O => None
  | S fuel' =>
      match h !! r with
      | None => None
      | Some c =>
          if negb (initialized c) then Some h
          else
            let c1 := recompute_value h c in
            let c2 := with_status (aggregate h c1) c1 in
            let h' := <[r := c2]> h in
            match parent c2 with
            | None => Some h'
            | Some p => update fuel' h' p
            end
      end
  end.

(** [setStatus(status)] *)
Definition setStatus (fuel : nat) (h : Heap) (r : ref) (p : PartialStatus) : option Heap :=
  match h !! r with
  | None => None
  | Some c => update fuel (<[r := with_status (spread_status (status c) p) c]> h) r
  end.

(** [setParent(parent)] of BaseControl: a plain assignment. *)
Definition setParent (h : Heap) (control parent_ : ref) : Heap :=
  alter (with_parent (Some parent_)) control h.

(** [registerControl(control)] of GroupControl and of ArrayControl. *)
Definition registerControl (h : Heap) (this control : ref) : Heap :=
  setParent h control this.

(** The end of [DefaultVisitor.initItem]:
    [if (!control.parent && parent) { control.setParent(parent); }] *)
Definition initItem_parent (h : Heap) (control : ref) (parent_ : option ref) : Heap :=
  match parent (h !!! control), parent_ with
  | None, Some p => setParent h control p
  | _, _ => h
  end.

(** *** Validation *)

Variable callV : V -> Heap -> ref -> VResult.

(** What the pipeline of a subscription has for its subscriber: nothing
    when the subscription is closed, while the gate has not let [true]
    through, or while a source has not emitted; the merged result
    otherwise. *)
Definition first_combined (c : Control) (sub : Subscription) : option (option Messages) :=
  if closed sub || negb (initialized c) then None else combined (sources sub).

(** [first()] hands the value over and completes the subscription. *)
Definition completed (sub : Subscription) : Subscription :=
  mkSub (sources sub) true (S (delivered sub)).

(** The [k]-th subscription of [r] is looked at after something it listens
    to has changed. When it has a value, the subscriber runs
    [this.errors = errors; this.setStatus({ valid: !!errors })]. *)
Definition deliver (fuel : nat) (h : Heap) (r : ref) (k : nat) : option Heap :=
  match h !! r with
  | None => None
  | Some c =>
      match validationSubs c !! k with
      | None => Some h
      | Some sub =>
          match first_combined c sub with
          | None => Some h
          | Some errs =>
              let c' := with_errors errs
                          (with_validationSubs (<[k := completed sub]> (validationSubs c)) c) in
              setStatus fuel (<[r := c']> h) r
                        (mkPartial (Some (double_bang errs)) None None None None)
          end
      end
  end.

Definition unsubscribe (s : Subscription) : Subscription :=
  mkSub (sources s) true (delivered s).

(** [validate()]: every validator is called on [this]; the previous
    subscription is unsubscribed and a new one is made. *)
Definition validate (fuel : nat) (h : Heap) (r : ref) : option Heap :=
  match h !! r with
  | None => None
  | Some c =>
      let srcs := map (fun v => match callV v h r with
                                | Now m => Some m
                                | Later => None
                                end) (validators c) in
      let olds := alter unsubscribe (pred (length (validationSubs c))) (validationSubs c) in
      let c' := with_validationSubs (olds ++ [mkSub srcs false 0]) c in
      deliver fuel (<[r := c']> h) r (length olds)
  end.

(** [setValidators(validators)] *)
Definition setValidators (fuel : nat) (h : Heap) (r : ref) (vs : list V) : option Heap :=
  match h !! r with
  | None => None
  | Some c => validate fuel (<[r := with_validators vs c]> h) r
  end.

(** A validator's promise or observable hands over its first value [m]:
    source [i] of the [k]-th subscription of [r]. An unsubscribed or
    completed subscription no longer listens, and [first()] has cut a
    source off after its first value. *)
Definition emit (fuel : nat) (h : Heap) (r : ref) (k i : nat) (m : option Messages)
  : option Heap :=
  match h !! r with
  | None => None
  | Some c =>
      match validationSubs c !! k with
      | None => Some h
      | Some sub =>
          if closed sub then Some h
          else
            match sources sub !! i with
            | Some None =>
                let sub' := mkSub (<[i := Some m]> (sources sub)) (closed sub) (delivered sub) in
                let c' := with_validationSubs (<[k := sub']> (validationSubs c)) c in
                deliver fuel (<[r := c']> h) r k
            | _ => Some h
            end
      end
  end.

(** [this._initialized$.next(true)]: the gate opens and the subscription
    that listens to it is looked at again. *)
Definition initialized_next (fuel : nat) (h : Heap) (r : ref) : option Heap :=
  match h !! r with
  | None => None
  | Some c =>
      deliver fuel (<[r := with_initialized true c]> h) r (pred (length (validationSubs c)))
  end.

(** [fieldReady()]: opens the gate in FieldControl, overridden by an empty
    body in GroupControl and ArrayControl. *)
Definition fieldReady (fuel : nat) (h : Heap) (r : ref) : option Heap :=
  match h !! r with
  | None => None
  | Some c =>
      match kind c with
      | KField => initialized_next fuel h r
      | _ => Some h
      end
  end.

Definition groupReady := initialized_next.
Definition arrayReady := initialized_next.

(** *** FieldControl *)

(** The options the constructors read: [opts.validators] and
    [opts.status?.disabled]. *)
Record FieldControlOptions : Type := mkOptions {
  opt_validators : option (list V);
  opt_status : option PartialStatus }.

Definition no_options : FieldControlOptions := mkOptions None None.

(** The body of FieldControl's constructor, run for the class [k] of the
    object under construction: the fields are set, [validate()] subscribes
    and [fieldReady()] is called. *)
Definition FieldControl_construct (fuel : nat) (h : Heap) (k : Kind) (v : JsVal)
    (opts : FieldControlOptions) : option (ref * Heap) :=
  let r := length h in
  let c := mkControl None v v initial_status None false
                     (default [] (opt_validators opts)) [] k in
  match validate fuel (h ++ [c]) r with
  | None => None
  | Some h1 =>
      match fieldReady fuel h1 r with
      | None => None
      | Some h2 => Some (r, h2)
      end
  end.

(** [new FieldControl(value, opts)] *)
Definition new_FieldControl (fuel : nat) (h : Heap) (v : JsVal) (opts : FieldControlOptions)
  : option (ref * Heap) :=
  FieldControl_construct fuel h KField v opts.

Definition FieldControl_setValue (fuel : nat) (h : Heap) (r : ref) (v : JsVal) : option Heap :=
  match h !! r with
  | None => None
  | Some c =>
      setStatus fuel (<[r := with_value v c]> h) r
                (mkPartial None None (Some true) (Some true) None)
  end.

Definition FieldControl_patchValue := FieldControl_setValue.

Definition FieldControl_reset (fuel : nat) (h : Heap) (r : ref) : option Heap :=
  match h !! r with
  | None => None
  | Some c =>
      setStatus fuel (<[r := with_value (initialValue c) c]> h) r
                (mkPartial None None (Some false) (Some false) None)
  end.

(** *** What can happen to the validation of one control *)

(** The calls and deliveries that reach the validation pipeline of a
    control: the gate opening ([fieldReady], [groupReady] or [arrayReady]
    in a constructor), [validate()], [setValidators], a validator's promise
    or observable handing over its first value, and the mutators of the
    field. *)
Inductive Event : Type :=
| EvGate
| EvValidate
| EvSetValidators (vs : list V)
| EvEmit (k i : nat) (m : option Messages)
| EvSetStatus (ps : PartialStatus)
| EvSetValue (v : JsVal)
| EvReset.

Definition step (fuel : nat) (h : Heap) (r : ref) (ev : Event) : option Heap :=
  match ev with
  | EvGate => initialized_next fuel h r
  | EvValidate => validate fuel h r
  | EvSetValidators vs => setValidators fuel h r vs
  | EvEmit k i m => emit fuel h r k i m
  | EvSetStatus ps => setStatus fuel h r ps
  | EvSetValue v => FieldControl_setValue fuel h r v
  | EvReset => FieldControl_reset fuel h r
  end.

Definition run (fuel : nat) (h : Heap) (r : ref) (evs : list Event) : option Heap :=
  forEachM (fun h ev => step fuel h r ev) h evs.

(** *** GroupControl *)

(** [opts.status?.disabled ?? false] *)
Definition opts_disabled (opts : FieldControlOptions) : bool :=
  default false (opt_status opts ≫= p_disabled).

(** [new GroupControl(controls, opts)] *)
Definition new_GroupControl (fuel : nat) (h : Heap) (controls : list (string * ref))
    (opts : FieldControlOptions) : option (ref * Heap) :=
  match FieldControl_construct fuel h (KGroup controls)
          (reduceControls h controls (opts_disabled opts)) opts with
  | None => None
  | Some (r, h1) =>
      let h2 := alter (with_value (reduceControls h1 controls (opts_disabled opts))) r h1 in
      let h3 := foldl (fun h control => registerControl h r control) h2 (map snd controls) in
      match groupReady fuel h3 r with
      | None => None
      | Some h4 => Some (r, h4)
      end
  end.

(** *** ArrayControl, the part that needs no factory *)

Definition array_controls (c : Control) : list ref :=
  match kind c with
  | KArray _ controls => controls
  | _ => []
  end.

Definition set_controls (controls : list ref) (c : Control) : Control :=
  match kind c with
  | KArray f _ => with_kind (KArray f controls) c
  | _ => c
  end.

(** [at(index)] *)
Definition at_ (h : Heap) (r : ref) (index : nat) : option ref :=
  array_controls (h !!! r) !! index.

(** [push(...items)] *)
Definition push (h : Heap) (r : ref) (items : list ref) : Heap :=
  let h1 := alter (fun c => set_controls (array_controls c ++ items) c) r h in
  foldl (fun h control => registerControl h r control) h1 items.

(** [insert(index, item)] *)
Definition insert_ (h : Heap) (r : ref) (index : Z) (item : ref) : Heap :=
  let h1 := alter (fun c => set_controls (splice_insert (array_controls c) index item) c) r h in
  registerControl h1 r item.

(** [removeAt(index)] *)
Definition removeAt (h : Heap) (r : ref) (index : Z) : Heap :=
  alter (fun c => set_controls (splice_remove (array_controls c) index) c) r h.

(** [clear()] *)
Definition clear (fuel : nat) (h : Heap) (r : ref) : option Heap :=
  setStatus fuel (alter (set_controls []) r h) r
            (mkPartial None None (Some true) (Some true) None).

(** *** ArrayControl, the part that calls the item factory *)

(** [callF f seed h] is the call [f(seed)] in store [h]: the reference of
    the control the factory returns and the store it leaves, [None] when
    the call throws. [range] is [RAR.range] of fp-ts. *)
Variable callF : F -> JsVal -> Heap -> option (ref * Heap).
Variable range : Z -> Z -> list Z.

(** [this.itemFactory(seed)] *)
Definition itemFactory_call (h : Heap) (r : ref) (seed : JsVal) : option (ref * Heap) :=
  match h !! r with
  | None => None
  | Some c =>
      match kind c with
      | KArray f _ => callF f seed h
      | _ => None
      end
  end.

(** [indices.map(i => this.itemFactory(this.value[i] ?? null))]; every call
    reads [this.value] as it is when the call is made. *)
Fixpoint fabricate (h : Heap) (r : ref) (indices : list nat) : option (list ref * Heap) :=
  match indices with
  | [] => Some ([], h)
  | i :: rest =>
      match itemFactory_call h r (seed_at (value (h !!! r)) i) with
      | None => None
      | Some (item, h1) =>
          match fabricate h1 r rest with
          | None => None
          | Some (items, h2) => Some (item :: items, h2)
          end
      end
  end.

(** [resize(length)]: [clear()], then one factory call per element of
    [RAR.range(0, length - 1)] (the callback uses the position [i] of the
    element, not the element), then [push]. *)
Definition resize (fuel : nat) (h : Heap) (r : ref) (length_ : Z) : option Heap :=
  match clear fuel h r with
  | None => None
  | Some h1 =>
      match fabricate h1 r (seq 0 (length (range 0 (length_ - 1)))) with
      | None => None
      | Some (controls, h2) => Some (push h2 r controls)
      end
  end.

(** [value.map(v => this.itemFactory(v))] of the constructor. *)
Fixpoint fabricate_from (h : Heap) (r : ref) (seeds : list JsVal) : option (list ref * Heap) :=
  match seeds with
  | [] => Some ([], h)
  | v :: rest =>
      match itemFactory_call h r v with
      | None => None
      | Some (item, h1) =>
          match fabricate_from h1 r rest with
          | None => None
          | Some (items, h2) => Some (item :: items, h2)
          end
      end
  end.

(** [new ArrayControl(itemFactory, value, opts)] *)
Definition new_ArrayControl (fuel : nat) (h : Heap) (f : F) (v : list JsVal)
    (opts : FieldControlOptions) : option (ref * Heap) :=
  match FieldControl_construct fuel h (KArray f []) (VArr v) opts with
  | None => None
  | Some (r, h1) =>
      match fabricate_from h1 r v with
      | None => None
      | Some (controls, h2) =>
          let h3 := alter (set_controls controls) r h2 in
          let h4 := foldl (fun h control => registerControl h r control) h3
                          (children (h3 !!! r)) in
          match arrayReady fuel h4 r with
          | None => None
          | Some h5 => Some (r, h5)
          end
      end
  end.

(** *** setValue, patchValue, reset and getRawValue, by the receiver's class *)

(** [control.setValue(value)]. FieldControl assigns and marks the control
    dirty and touched; GroupControl hands [value[name]] to the child of
    each of its keys that names one; ArrayControl resizes to
    [value.length] and hands each element to the child at its index.
    GroupControl tests [this.controls[name]] for truthiness: a key that
    names no child but a member of [Object.prototype] passes the test, and
    the call of [setValue] on that member is a TypeError. *)
Fixpoint setValue (fuel : nat) (h : Heap) (r : ref) (v : JsVal) : option Heap :=
  match fuel with
  | O => None
  | S fuel' =>
      match h !! r with
      | None => None
      | Some c =>
          match kind c with
          | KField => FieldControl_setValue fuel' h r v
          | KGroup controls =>
              match Object_entries v with
              | None => None
              | Some entries =>
                  forEachM (fun h e =>
                              match obj_get controls (fst e) with
                              | Some control => setValue fuel' h control (snd e)
                              | None =>
                                  match Object_prototype (fst e) with
                                  | Some _ => None
                                  | None => Some h
                                  end
                              end) h entries
              end
          | KArray _ _ =>
              match v with
              | VArr items =>
                  match resize fuel' h r (Z.of_nat (length items)) with
                  | None => None
                  | Some h1 =>
                      forEachM (fun h e =>
                                  match at_ h r (fst e) with
                                  | Some control =>
                                      if instanceof_FieldControl (h !!! control)
                                      then setValue fuel' h control (snd e)
                                      else Some h
                                  | None => Some h
                                  end) h1 (imap (fun i w => (i, w)) items)
                  end
              | _ => None
              end
          end
      end
  end.

(** [control.patchValue(value)] *)
Fixpoint patchValue (fuel : nat) (h : Heap) (r : ref) (v : JsVal) : option Heap :=
  match fuel with
  | O => None
  | S fuel' =>
      match h !! r with
      | None => None
      | Some c =>
          match kind c with
          | KField => FieldControl_patchValue fuel' h r v
          | KGroup controls =>
              match Object_entries v with
              | None => None
              | Some entries =>
                  forEachM (fun h e =>
                              match obj_get controls (fst e) with
                              | Some control => patchValue fuel' h control (snd e)
                              | None =>
                                  match Object_prototype (fst e) with
                                  | Some _ => None
                                  | None => Some h
                                  end
                              end) h entries
              end
          | KArray _ _ =>
              match v with
              | VArr items =>
                  match resize fuel' h r (Z.of_nat (length items)) with
                  | None => None
                  | Some h1 =>
                      forEachM (fun h e =>
                                  match at_ h r (fst e) with
                                  | Some control => patchValue fuel' h control (snd e)
                                  | None => Some h
                                  end) h1 (imap (fun i w => (i, w)) items)
                  end
              | _ => None
              end
          end
      end
  end.

(** [control.reset()] *)
Fixpoint reset (fuel : nat) (h : Heap) (r : ref) : option Heap :=
  match fuel with
  | O => None
  | S fuel' =>
      match h !! r with
      | None => None
      | Some c =>
          match kind c with
          | KField => FieldControl_reset fuel' h r
          | KGroup _ =>
              forEachM (fun h control => reset fuel' h control) h (children c)
          | KArray _ _ =>
              match initialValue c with
              | VArr items =>
                  match resize fuel' h r (Z.of_nat (length items)) with
                  | None => None
                  | Some h1 =>
                      forEachM (fun h control => reset fuel' h control) h1
                               (array_controls (h1 !!! r))
                  end
              | _ => None
              end
          end
      end
  end.

(** [ArrayControl.setValue] as its callers see it. *)
Definition ArrayControl_setValue (fuel : nat) (h : Heap) (r : ref) (items : list JsVal)
  : option Heap :=
  setValue fuel h r (VArr items).

(** [getRawValue()] of GroupControl and ArrayControl; both take
    [control instanceof FieldControl ? control.value : control.getRawValue()]
    for each child. A plain FieldControl has no such method. *)
Fixpoint getRawValue (fuel : nat) (h : Heap) (r : ref) : option JsVal :=
  match fuel with
  | O => None
  | S fuel' =>
      let raw control :=
        if instanceof_FieldControl (h !!! control)
        then Some (value (h !!! control))
        else getRawValue fuel' h control in
      match h !! r with
      | None => None
      | Some c =>
          match kind c with
          | KField => None
          | KGroup controls =>
              VObj <$> reduceChildren controls (Some [])
                         (fun acc control name =>
                            match acc, raw control with
                            | Some fields, Some w => Some (obj_set fields name w)
                            | _, _ => None
                            end)
          | KArray _ controls => VArr <$> mapM raw controls
          end
      end
  end.

End Controls.

Arguments KField {F}.
Arguments KGroup {F} controls.
Arguments KArray {F} itemFactory controls.
Arguments mkControl {V F}.
Arguments parent {V F} c.
Arguments value {V F} c.
Arguments initialValue {V F} c.
Arguments status {V F} c.
Arguments errors {V F} c.
Arguments initialized {V F} c.
Arguments validators {V F} c.
Arguments validationSubs {V F} c.
Arguments kind {V F} c.
Abbreviation Heap V F := (list (Control V F)).

Arguments with_parent {V F} p c.
Arguments with_value {V F} v c.
Arguments with_status {V F} s c.
Arguments with_errors {V F} e c.
Arguments with_initialized {V F} b c.
Arguments with_validators {V F} vs c.
Arguments with_validationSubs {V F} subs c.
Arguments with_kind {V F} k c.
Arguments blank {V F}.
Arguments children {V F} c.
Arguments array_controls {V F} c.
Arguments instanceof_FieldControl {V F} c.
Arguments reduceControls {V F} h controls disabled_.
Arguments recompute_value {V F} h c.
Arguments aggregate {V F} h c.
Arguments update {V F} fuel h r.
Arguments setStatus {V F} fuel h r p.
Arguments setParent {V F} h control parent_.
Arguments registerControl {V F} h this control.
Arguments initItem_parent {V F} h control parent_.
Arguments first_combined {V F} c sub.
Arguments deliver {V F} fuel h r k.
Arguments validate {V F} callV fuel h r.
Arguments setValidators {V F} callV fuel h r vs.
Arguments emit {V F} fuel h r k i m.
Arguments initialized_next {V F} fuel h r.
Arguments fieldReady {V F} fuel h r.
Arguments groupReady {V F} fuel h r.
Arguments arrayReady {V F} fuel h r.
Arguments mkOptions {V}.
Arguments opt_validators {V} f.
Arguments opt_status {V} f.
Arguments no_options {V}.
Arguments opts_disabled {V} opts.
Arguments FieldControl_construct {V F} callV fuel h k v opts.
Arguments new_FieldControl {V F} callV fuel h v opts.
Arguments FieldControl_setValue {V F} fuel h r v.
Arguments FieldControl_patchValue {V F} fuel h r v.
Arguments FieldControl_reset {V F} fuel h r.
Arguments EvGate {V}.
Arguments EvValidate {V}.
Arguments EvSetValidators {V} vs.
Arguments EvEmit {V} k i m.
Arguments EvSetStatus {V} ps.
Arguments EvSetValue {V} v.
Arguments EvReset {V}.
Arguments step {V F} callV fuel h r ev.
Arguments run {V F} callV fuel h r evs.
Arguments new_GroupControl {V F} callV fuel h controls opts.
Arguments set_controls {V F} controls c.
Arguments at_ {V F} h r index.
Arguments push {V F} h r items.
Arguments insert_ {V F} h r index item.
Arguments removeAt {V F} h r index.
Arguments clear {V F} fuel h r.
Arguments itemFactory_call {V F} callF h r seed.
Arguments fabricate {V F} callF h r indices.
Arguments fabricate_from {V F} callF h r seeds.
Arguments resize {V F} callF range fuel h r length_.
Arguments new_ArrayControl {V F} callV callF fuel h f v opts.
Arguments setValue {V F} callF range fuel h r v.
Arguments patchValue {V F} callF range fuel h r v.
Arguments reset {V F} callF range fuel h r.
Arguments ArrayControl_setValue {V F} callF range fuel h r items.
Arguments getRawValue {V F} fuel h r.

(** ** Registry resolution ([lib/visitor.ts]) *)

(** What a property read comes to, kept by what the lookups test of it. *)
Inductive Read (A : Type) : Type :=
| ReadThrows            (* the read throws *)
| ReadFalsy             (* [undefined], [null] or another falsy value *)
| ReadFunction (a : A)  (* a function *)
| ReadOther.            (* a truthy value that is no function and has no [bind] *)

Arguments ReadThrows {A}.
Arguments ReadFalsy {A}.
Arguments ReadFunction {A} a.
Arguments ReadOther {A}.

Section Registry.

(** A registry method takes [(config, control, params)] and returns a
    behavior source. *)
Variables (Config ControlRef Params Source : Type).

Definition Executable := Config -> ControlRef -> Params -> Source.

(** [ExecutableDefinition]: [{ name, params }] *)
Record ExecutableDefinition : Type := mkDef {
  name : string;
  params : Params }.

(** category -> name -> function: the own keys of the registry and of its
    categories. Both are plain objects. *)
Definition Registry := gmap string (gmap string Executable).

(** The built-in functions of the host, as far as a lookup can reach them.
    [builtin_read k name] is the read [f[name]] on the function [f] that
    [Object.prototype] holds under [k]; [builtin_call path config control
    params] is the call of the built-in function read along [path] (from
    [Object.prototype]), [None] when the call throws; [Stray] are the values
    such calls return. *)
Variable Stray : Type.
Variable builtin_read : string -> string -> Read unit.
Variable builtin_call : list string -> Config -> ControlRef -> Params -> option Stray.

(** What [registry[kind]] holds when it is not nullish. *)
Inductive Category : Type :=
| COwn (methods : gmap string Executable)
| CInherited (i : Inherited).

(** A function found under [registry[kind][def.name]]: an entry of the
    registry, or a built-in function by the path that leads to it. *)
Inductive Method : Type :=
| MEntry (e : Executable)
| MBuiltin (path : list string).

(** [registry[kind]], [None] for [undefined] *)
Definition registry_category (registry : Registry) (kind_ : string) : option Category :=
  match registry !! kind_ with
  | Some methods => Some (COwn methods)
  | None => CInherited <$> Object_prototype kind_
  end.

(** [category[name]] *)
Definition category_member (category : Category) (name_ : string) : Read Method :=
  match category with
  | COwn methods =>
      match methods !! name_ with
      | Some e => ReadFunction (MEntry e)
      | None =>
          match Object_prototype name_ with
          | Some (InheritedMethod n) => ReadFunction (MBuiltin [n])
          | Some InheritedPrototype => ReadOther
          | None => ReadFalsy
          end
      end
  | CInherited InheritedPrototype =>
      (* [Object.prototype[name]]; its own [__proto__] is [null] *)
      match Object_prototype name_ with
      | Some (InheritedMethod n) => ReadFunction (MBuiltin [n])
      | _ => ReadFalsy
      end
  | CInherited (InheritedMethod k) =>
      match builtin_read k name_ with
      | ReadThrows => ReadThrows
      | ReadFalsy => ReadFalsy
      | ReadFunction _ => ReadFunction (MBuiltin [k; name_])
      | ReadOther => ReadOther
      end
  end.

(** [getRegistryMethod(registry, kind, def)]:
    [const method = (registry[kind] as any)?.[def.name];
     if (method && registry[kind]) { return method.bind(registry[kind]); }
     return null;]
    The outer [None] is a TypeError: the read throws, or [method] is truthy
    and has no [bind]. [Some None] is [null]. *)
Definition getRegistryMethod (registry : Registry) (kind_ : string)
    (def : ExecutableDefinition) : option (option Method) :=
  match registry_category registry kind_ with
  | None => Some None
  | Some category =>
      match category_member category (name def) with
      | ReadThrows => None
      | ReadFalsy => Some None
      | ReadFunction method => Some (Some method)
      | ReadOther => None
      end
  end.

(** [getRegistryMethods(registry, kind, defs)]:
    [defs.map(def => { const method = getRegistryMethod(...);
                       return method ? { method, def } : null; })
         .filter(notNullish)] *)
Definition getRegistryMethods (registry : Registry) (kind_ : string)
    (defs : list ExecutableDefinition) : option (list (Method * ExecutableDefinition)) :=
  filter_notNullish
    <$> mapM (fun def => fmap (fun method => (method, def))
                           <$> getRegistryMethod registry kind_ def) defs.

(** [method(config, control, def.params)] *)
Definition call_method (method : Method) (config : Config) (control : ControlRef)
    (params_ : Params) : option (Source + Stray) :=
  match method with
  | MEntry e => Some (inl (e config control params_))
  | MBuiltin path => inr <$> builtin_call path config control params_
  end.

(** [getRegistryValues(registry, kind, config, control, defs)] *)
Definition getRegistryValues (registry : Registry) (kind_ : string) (config : Config)
    (control : ControlRef) (defs : list ExecutableDefinition)
  : option (list (Source + Stray)) :=
  getRegistryMethods registry kind_ defs
    ≫= mapM (fun md => call_method (fst md) config control (params (snd md))).

(** [getRegistryValue(registry, kind, config, control, def)]:
    [method ? method(config, control, def.params) : null] *)
Definition getRegistryValue (registry : Registry) (kind_ : string) (config : Config)
    (control : ControlRef) (def : ExecutableDefinition) : option (option (Source + Stray)) :=
  match getRegistryMethod registry kind_ def with
  | None => None
  | Some None => Some None
  | Some (Some method) => Some <$> call_method method config control (params def)
  end.

End Registry.

Arguments mkDef {Params}.
Arguments name {Params} e.
Arguments params {Params} e.
Arguments COwn {Config ControlRef Params Source} methods.
Arguments CInherited {Config ControlRef Params Source} i.
Arguments MEntry {Config ControlRef Params Source} e.
Arguments MBuiltin {Config ControlRef Params Source} path.
Arguments registry_category {Config ControlRef Params Source} registry kind_.
Arguments category_member {Config ControlRef Params Source} builtin_read category name_.
Arguments getRegistryMethod {Config ControlRef Params Source} builtin_read registry kind_ def.
Arguments getRegistryMethods {Config ControlRef Params Source} builtin_read registry kind_ defs.
Arguments call_method {Config ControlRef Params Source Stray} builtin_call method config
  control params_.
Arguments getRegistryValues {Config ControlRef Params Source Stray} builtin_read builtin_call
  registry kind_ config control defs.
Arguments getRegistryValue {Config ControlRef Params Source Stray} builtin_read builtin_call
  registry kind_ config control def.

(** ** A small host program

    Two validators and one item factory, of the kind an application hands
    to the engine; the examples below run the engine on them. *)

Inductive DemoValidator : Type :=
| required      (* (c) => c.value ? null : { required: { message: "required" } } *)
| remoteCheck.  (* (c) => fetch(...).then(...) : a promise *)

Inductive DemoFactory : Type :=
| namedItem.    (* (v) => new GroupControl({ name: new FieldControl(v?.name ?? null) }) *)

Abbreviation DemoHeap := (Heap DemoValidator DemoFactory).

Definition required_error : Messages :=
  {[ "required"%string := mkDescriptor "required" [] ]}.

(** JavaScript truthiness of a value. *)
Definition truthy (v : JsVal) : bool :=
  match v with
  | VUndefined | VNull => false
  | VBool b => b
  | VNum z => negb (z =? 0)%Z
  | VStr s => negb (String.eqb s "")
  | VArr _ | VObj _ => true
  end.

Definition demo_callV (v : DemoValidator) (h : DemoHeap) (r : ref) : VResult :=
  match v with
  | required => if truthy (value (h !!! r)) then Now None else Now (Some required_error)
  | remoteCheck => Later
  end.

(** [v?.name ?? null] *)
Definition name_of (seed : JsVal) : JsVal :=
  match seed with
  | VObj fields => nullish_to_null (obj_get fields "name")
  | _ => VNull
  end.

Definition demo_callF (f : DemoFactory) (seed : JsVal) (h : DemoHeap)
  : option (ref * DemoHeap) :=
  match f with
  | namedItem =>
      match new_FieldControl demo_callV 4 h (name_of seed) no_options with
      | None => None
      | Some (field, h1) => new_GroupControl demo_callV 4 h1 [("name"%string, field)] no_options
      end
  end.

(** [RAR.range] as fp-ts defines it,
    [start <= end ? makeBy(end - start + 1, i => start + i) : [start]]. *)
Definition RAR_range (start end_ : Z) : list Z :=
  if (start <=? end_)%Z
  then map (fun i => (start + Z.of_nat i)%Z) (seq 0 (Z.to_nat (end_ - start + 1)))
  else [start].

(** ** Vocabulary of the statements *)

Section Chains.

Context {V F : Type}.
Implicit Types (h : Heap V F) (c : Control V F) (r p x : ref) (sub : Subscription).

(** [rooted h r d]: following the parent references from [r] reaches a
    control without parent after [d] steps. *)
Inductive rooted h : ref -> nat -> Prop :=
| rooted_top r c :
    h !! r = Some c -> parent c = None -> rooted h r 0
| rooted_up r c p d :
    h !! r = Some c -> parent c = Some p -> rooted h p d -> rooted h r (S d).

(** [on_chain h r x]: [x] is [r] or one of its ancestors. *)
Inductive on_chain h : ref -> ref -> Prop :=
| chain_here r : on_chain h r r
| chain_up r c p x :
    h !! r = Some c -> parent c = Some p -> on_chain h p x -> on_chain h r x.

(** Two stores with the same controls at the same places, up to everything
    but the parent references. *)
Definition same_parents h h' : Prop :=
  length h' = length h /\
  forall x c, h !! x = Some c -> exists c', h' !! x = Some c' /\ parent c' = parent c.

(** [c'] is [c] up to [value] and [status], the two fields [update] writes. *)
Definition differ_vs c c' : Prop :=
  c' = with_status (status c') (with_value (value c') c).

Definition only_vs h h' : Prop :=
  length h' = length h /\
  forall x c, h !! x = Some c -> exists c', h' !! x = Some c' /\ differ_vs c c'.


(** The record [deliver] writes for the [k]-th subscription, before
    [setStatus] runs: unchanged when the subscription has nothing to
    deliver. *)
Definition fire_at c (k : nat) : Control V F :=
  match validationSubs c !! k with
  | None => c
  | Some sub =>
      match first_combined c sub with
      | None => c
      | Some errs =>
          with_errors errs (with_validationSubs (<[k := completed sub]> (validationSubs c)) c)
      end
  end.

(** A subscription has called its subscriber at most once, and if it has,
    [first()] has completed it, the gate was open and every source had
    emitted. *)
Definition sub_ok (gate : bool) sub : Prop :=
  delivered sub <= 1 /\
  (delivered sub = 1 ->
   closed sub = true /\ gate = true /\ is_Some (combined (sources sub))).

(** Only [this.validationSub], the last subscription made, can be open, and
    it is closed only by its delivery. *)
Definition subs_weak c : Prop :=
  Forall (sub_ok (initialized c)) (validationSubs c) /\
  (forall k sub, validationSubs c !! k = Some sub ->
                 S k < length (validationSubs c) -> closed sub = true) /\
  (forall sub, last (validationSubs c) = Some sub -> closed sub = true -> delivered sub = 1).

(** Between two calls, an open subscription is one that still waits for
    the gate or for a source. *)
Definition subs_ok c : Prop :=
  subs_weak c /\
  (forall sub, last (validationSubs c) = Some sub ->
               closed sub = false -> first_combined c sub = None).

(** The subscriptions after [validate()] has unsubscribed the previous
    one and subscribed anew, before the new one is looked at. *)
Definition resubscribed (c : Control V F) (srcs : list (option (option Messages)))
  : Control V F :=
  with_validationSubs
    (alter unsubscribe (pred (length (validationSubs c))) (validationSubs c)
       ++ [mkSub srcs false 0]) c.

(** Every child of [c] is in the store and points back at [r]. *)
Definition children_registered h r c : Prop :=
  forall ch, ch ∈ children c -> exists cc, h !! ch = Some cc /\ parent cc = Some r.

End Chains.

(** The five fields of a status. *)
Inductive Flag : Type := FValid | FDisabled | FPending | FDirty | FTouched.

Definition flag (f : Flag) (s : AbstractStatus) : bool :=
  match f with
  | FValid => valid s
  | FDisabled => disabled s
  | FPending => pending s
  | FDirty => dirty s
  | FTouched => touched s
  end.

Section RegistryVocabulary.

Context {Config ControlRef Params Source : Type}.
Implicit Types (registry : Registry Config ControlRef Params Source).
Implicit Types (def : ExecutableDefinition Params).

(** The entry a registry holds for a definition: the own key [def.name] of
    the own key [kind]. *)
Definition entry registry (kind_ : string) def
  : option (Executable Config ControlRef Params Source) :=
  registry !! kind_ ≫= fun methods => methods !! name def.

End RegistryVocabulary.

(** ** Runs of the engine on the host program *)

(** [new FieldControl("", { validators: [required] })] *)
Definition empty_required_field : option (ref * DemoHeap) :=
  new_FieldControl demo_callV 3 [] (VStr "") (mkOptions (Some [required]) None).

(** [new FieldControl("x")] *)
Definition plain_field : option (ref * DemoHeap) :=
  new_FieldControl demo_callV 3 [] (VStr "x") no_options.

(** [a = new FieldControl("x"); a.setStatus({ disabled: true });
     g = new GroupControl({ a }); root = new GroupControl({ g })] *)
Definition nested_groups : option (ref * ref * ref * DemoHeap) :=
  match new_FieldControl demo_callV 3 [] (VStr "x") no_options with
  | None => None
  | Some (a, h1) =>
      match setStatus 3 h1 a (mkPartial None None None None (Some true)) with
      | None => None
      | Some h2 =>
          match new_GroupControl demo_callV 3 h2 [("a"%string, a)] no_options with
          | None => None
          | Some (g, h3) =>
              match new_GroupControl demo_callV 3 h3 [("g"%string, g)] no_options with
              | None => None
              | Some (root, h4) => Some (a, g, root, h4)
              end
          end
      end
  end.

(** [new ArrayControl(namedItem, [{ name: "a" }, { name: "b" }])] *)
Definition two_items : option (ref * DemoHeap) :=
  new_ArrayControl demo_callV demo_callF 5 [] namedItem
    [VObj [("name"%string, VStr "a")]; VObj [("name"%string, VStr "b")]] no_options.

(** The values of the children of an array, in order. *)
Definition item_values {V F : Type} (h : Heap V F) (r : ref) : list JsVal :=
  map (fun item => value (h !!! item)) (array_controls (h !!! r)).

Definition two_items_heap : DemoHeap :=
  Eval vm_compute in
  match two_items with
  | Some (_, h) => h
  | None => []
  end.

Definition one_item : JsVal := VObj [("name"%string, VStr "a")].

(** [item = namedItem({ name: "a" }); item.controls.name.setValue("b");
     arr = new ArrayControl(namedItem, []); arr.push(item)] *)
Definition dirty_item_pushed : DemoHeap :=
  Eval vm_compute in
  match demo_callF namedItem one_item [] with
  | Some (item, h1) =>
      match FieldControl_setValue 3 h1 0 (VStr "b") with
      | Some h2 =>
          match new_ArrayControl demo_callV demo_callF 5 h2 namedItem [] no_options with
          | Some (arr, h3) => push h3 arr [item]
          | None => []
          end
      | None => []
      end
  | None => []
  end.

(** [...; item.controls.name.setValue("c"); arr.removeAt(0)] *)
Definition dirty_item_removed : DemoHeap :=
  Eval vm_compute in
  match FieldControl_setValue 3 dirty_item_pushed 0 (VStr "c") with
  | Some h => removeAt h 2 0
  | None => []
  end.

(** [a = new FieldControl("x"); g1 = new GroupControl({ a })] *)
Definition one_group : DemoHeap :=
  Eval vm_compute in
  match new_FieldControl demo_callV 3 [] (VStr "x") no_options with
  | Some (a, h1) =>
      match new_GroupControl demo_callV 3 h1 [("a"%string, a)] no_options with
      | Some (_, h2) => h2
      | None => []
      end
  | None => []
  end.

(** A FieldControl inside its constructor, before [validate()] is called. *)
Definition under_construction : DemoHeap :=
  [mkControl None (VStr "") (VStr "") initial_status None false
             [required; remoteCheck] [] KField].

(** ** The rest of the control classes

    The members of [lib/controls.ts] that the statements above do not need:
    the flag and message pipelines of ItemControl, path resolution
    ([findControl], [get], [getError]), [root], [contains] and [length]. *)

(** [!!acc[k]] on the accumulator of [flags$]: without an own key [k] the
    read goes on to [Object.prototype], and what it finds there is truthy. *)
Definition flag_read (acc : gmap string bool) (k : string) : bool :=
  match acc !! k with
  | Some b => b
  | None => double_bang (Object_prototype k)
  end.

(** [acc[k] = b]: the assignment makes or overwrites an own key, except
    under [__proto__], where the inherited setter takes it and ignores a
    boolean. *)
Definition flag_write (acc : gmap string bool) (k : string) (b : bool) : gmap string bool :=
  if String.eqb k "__proto__" then acc else <[k := b]> acc.

(** The reducer of [flags$]:
    [AR.reduce({}, (acc, [k, v]) => { acc[k] = !!acc[k] || v; return acc; })].
    The initial object [{}] is made once, when the control is constructed,
    and the reducer writes into it, so every emission starts from what the
    earlier ones have left there. [acc] is that object. *)
Definition flags_reduce (acc : gmap string bool) (pairs : list (string * bool))
  : gmap string bool :=
  foldl (fun acc kv => flag_write acc (fst kv) (flag_read acc (fst kv) || snd kv)) acc pairs.

(** A flag source by the latest pair it has emitted, [None] before the
    first. [setFlagExecutors(observables)] puts the baseline
    [["hidden", false]] in front. *)
Definition setFlagExecutors (observables : list (option (string * bool)))
  : list (option (string * bool)) :=
  Some ("hidden"%string, false) :: observables.

(** [setFlags(flags)]: one source per key of [flags], holding [[k, !!flags[k]]]. *)
Definition setFlags (flags : gmap string bool) : list (option (string * bool)) :=
  setFlagExecutors (map Some (map_to_list flags)).

(** An emission of [flags$]:
    [switchMap(obs => obs.length ? combineLatest(obs) : of([]))] then the
    reducer, run on the accumulator [acc] as the earlier emissions have left
    it. The result is the accumulator after the emission, which is also the
    object handed to the subscribers; there is no emission until every
    source has emitted. *)
Definition flags_value (acc : gmap string bool) (executors : list (option (string * bool)))
  : option (gmap string bool) :=
  if forallb notNullish executors
  then Some (flags_reduce acc (filter_notNullish executors))
  else None.

(** [setMessages(messages)]: [messages ? [new BehaviorSubject(messages)] : []] *)
Definition setMessages (messages : option Messages) : list (option (option Messages)) :=
  match messages with
  | Some m => [Some (Some m)]
  | None => []
  end.

(** What [messages$] holds: the same pipeline as the validation sources,
    [combineLatest], [AR.filter(notNullish)], the merge or [null]. *)
Definition messages_value (executors : list (option (option Messages)))
  : option (option Messages) :=
  combined executors.

(** A path segment, [string | number]. A number segment is an integer; a
    number that is no integer acts as the string JavaScript prints for it,
    which [SegName] gives. *)
Inductive Segment : Type :=
| SegName (s : string)
| SegIndex (z : Z).

(** [(string | number)[] | string] *)
Inductive Path : Type :=
| PathList (segments : list Segment)
| PathString (s : string).

(** [s.split(d)] for a delimiter of one character. *)
Fixpoint split_on (d : Ascii.ascii) (s : string) : list string :=
  match s with
  | EmptyString => [EmptyString]
  | String a rest =>
      if Ascii.eqb a d then EmptyString :: split_on d rest
      else match split_on d rest with
           | x :: xs => String a x :: xs
           | [] => [String a EmptyString]
           end
  end.

(** [s.includes(d)] for one character. *)
Fixpoint has_char (d : Ascii.ascii) (s : string) : bool :=
  match s with
  | EmptyString => false
  | String a rest => Ascii.eqb a d || has_char d rest
  end.

(** What path resolution holds at a step: a control, a value that is not a
    control (a JavaScript array answers to [length] and to its methods), or
    [null]. *)
Inductive Found : Type :=
| FoundControl (r : ref)
| FoundOther
| FoundNull.

(** [controls[s]] for an index written as a string. *)
Fixpoint index_named (s : string) (i : nat) (controls : list ref) : option ref :=
  match controls with
  | [] => None
  | r :: rest => if String.eqb (pretty i) s then Some r else index_named s (S i) rest
  end.

(** [Number.MAX_SAFE_INTEGER]: up to it JavaScript prints an integer by its
    decimal digits. *)
Definition MAX_SAFE_INTEGER : Z := 9007199254740991.

(** What [getError] returns: a descriptor of the error map, a member of
    [Object.prototype] that the read of a missing code comes to,
    [undefined], or [null]. *)
Inductive ErrorValue : Type :=
| ErrDescriptor (d : Descriptor)
| ErrInherited (i : Inherited)
| ErrUndefined
| ErrNull.

Section Paths.

Context {V F : Type}.
Implicit Types (h : Heap V F) (r : ref).

(** The names, other than indices, that a JavaScript array answers to. *)
Variable array_property : string -> bool.

(** [String(n)] for an integer beyond the safe ones, where JavaScript prints
    the shortest digits that identify the number, in exponent form from
    [1e21] on. *)
Variable number_key : Z -> string.

(** The property key a segment stands for. *)
Definition segment_key (name : Segment) : string :=
  match name with
  | SegName s => s
  | SegIndex z => if (Z.abs z <=? MAX_SAFE_INTEGER)%Z then pretty z else number_key z
  end.

(** [controls[s]] for a key that is a string. *)
Definition array_named (controls : list ref) (s : string) : Found :=
  match index_named s 0 controls with
  | Some r => FoundControl r
  | None => if array_property s then FoundOther else FoundNull
  end.

(** [found.at(<number>name) ?? null] *)
Definition array_at (controls : list ref) (name : Segment) : Found :=
  match name with
  | SegIndex z =>
      if (Z.abs z <=? MAX_SAFE_INTEGER)%Z
      then if (0 <=? z)%Z
           then match controls !! Z.to_nat z with
                | Some r => FoundControl r
                | None => FoundNull
                end
           else FoundNull
      else array_named controls (number_key z)
  | SegName s => array_named controls s
  end.

(** The body of [path.forEach] in [findControl]. *)
Definition findControl_step h (found : Found) (name : Segment) : Found :=
  match found with
  | FoundControl r =>
      match kind (h !!! r) with
      | KGroup controls =>
          match obj_get controls (segment_key name) with
          | Some control => FoundControl control
          | None => FoundNull
          end
      | KArray _ controls => array_at controls name
      | KField => FoundNull
      end
  | _ => FoundNull
  end.

(** [findControl(control, path, delimiter)]; the delimiter is one
    character, as at the one call site. *)
Definition findControl h (control : ref) (path : option Path) (delimiter : Ascii.ascii) : Found :=
  match path with
  | None => FoundNull
  | Some p =>
      let segments := match p with
                      | PathList l => l
                      | PathString s => map SegName (split_on delimiter s)
                      end in
      match segments with
      | [] => FoundNull
      | _ => foldl (findControl_step h) (FoundControl control) segments
      end
  end.

(** [get(path)] *)
Definition FieldControl_get h r (path : Path) : Found :=
  findControl h r (Some path) "."%char.

(** JavaScript truthiness of an optional path: an empty string is falsy, an
    empty array is not. *)
Definition path_truthy (path : option Path) : bool :=
  match path with
  | None => false
  | Some (PathString s) => negb (String.eqb s "")
  | Some (PathList _) => true
  end.

(** [getError(errorCode, path)]:
    [const control = path ? this.get(path) : this;
     return control && control.errors ? control.errors[errorCode] : null;]
    The error map is a plain object: the read of a code it lacks goes on to
    [Object.prototype]. *)
Definition getError h r (errorCode : string) (path : option Path) : ErrorValue :=
  let control := match path with
                 | Some p => if path_truthy path then FieldControl_get h r p else FoundControl r
                 | None => FoundControl r
                 end in
  match control with
  | FoundControl c =>
      match errors (h !!! c) with
      | Some errs =>
          match errs !! errorCode with
          | Some d => ErrDescriptor d
          | None =>
              match Object_prototype errorCode with
              | Some i => ErrInherited i
              | None => ErrUndefined
              end
          end
      | None => ErrNull
      end
  | _ => ErrNull
  end.

(** [get root()]: [while (x._parent) x = x._parent]. *)
Fixpoint root (fuel : nat) h r : option ref :=
  match fuel with
  | O => None
  | S fuel' =>
      match h !! r with
      | None => None
      | Some c =>
          match parent c with
          | None => Some r
          | Some p => root fuel' h p
          end
      end
  end.


(** [get length()] of ArrayControl. *)
Definition ArrayControl_length h r : nat := length (array_controls (h !!! r)).

End Paths.

(** ** Parent chains and update *)

Section ChainFacts.

Context {V F : Type}.
Implicit Types (h : Heap V F) (c : Control V F) (r p x : ref).

Lemma differ_vs_refl c : differ_vs c c.
Proof. by destruct c. Qed.

Lemma differ_vs_trans c1 c2 c3 : differ_vs c1 c2 -> differ_vs c2 c3 -> differ_vs c1 c3.
Proof.
  unfold differ_vs. intros H12 H23. rewrite H23. rewrite H12. by destruct c1.
Qed.

Lemma differ_vs_parent c c' : differ_vs c c' -> parent c' = parent c.
Proof. intros ->. reflexivity. Qed.

Lemma only_vs_refl h : only_vs h h.
Proof. split; [done|]. intros x c Hx. exists c. split; [done | apply differ_vs_refl]. Qed.

Lemma only_vs_trans h1 h2 h3 : only_vs h1 h2 -> only_vs h2 h3 -> only_vs h1 h3.
Proof.
  intros [L12 P12] [L23 P23]. split; [congruence|].
  intros x c Hx. destruct (P12 x c Hx) as (c2 & Hx2 & D12).
  destruct (P23 x c2 Hx2) as (c3 & Hx3 & D23).
  exists c3. split; [done | by eapply differ_vs_trans].
Qed.

Lemma only_vs_same_parents h h' : only_vs h h' -> same_parents h h'.
Proof.
  intros [L P]. split; [done|]. intros x c Hx.
  destruct (P x c Hx) as (c' & Hx' & D). exists c'. split; [done | by apply differ_vs_parent].
Qed.

Lemma only_vs_insert h r c c' :
  h !! r = Some c -> differ_vs c c' -> only_vs h (<[r := c']> h).
Proof.
  intros Hr D. split; [apply length_insert|].
  intros x cx Hx. destruct (decide (r = x)) as [<-|Hne].
  - exists c'. split.
    + apply list_lookup_insert_eq. by eapply lookup_lt_Some.
    + congruence.
  - exists cx. split; [by rewrite list_lookup_insert_ne | apply differ_vs_refl].
Qed.

Lemma same_parents_sym h h' : same_parents h h' -> same_parents h' h.
Proof.
  intros [L P]. split; [done|]. intros x c' Hx'.
  assert (Hlt : x < length h) by (rewrite <- L; by eapply lookup_lt_Some).
  destruct (lookup_lt_is_Some_2 h x Hlt) as [c Hx].
  destruct (P x c Hx) as (c2 & Hx2 & Hp). exists c. split; [done|]. congruence.
Qed.

Lemma rooted_same_parents h h' r d : same_parents h h' -> rooted h r d -> rooted h' r d.
Proof.
  intros [L P] Hr. induction Hr as [r c Hx Hp | r c p d Hx Hp _ IH].
  - destruct (P r c Hx) as (c' & Hx' & Hp'). eapply rooted_top; [done | congruence].
  - destruct (P r c Hx) as (c' & Hx' & Hp'). eapply rooted_up; [exact Hx' | rewrite Hp'; exact Hp | done].
Qed.

Lemma on_chain_same_parents h h' r x : same_parents h h' -> on_chain h r x -> on_chain h' r x.
Proof.
  intros [L P] Hc. induction Hc as [r | r c p x Hx Hp _ IH].
  - constructor.
  - destruct (P r c Hx) as (c' & Hx' & Hp'). eapply chain_up; [exact Hx' | rewrite Hp'; exact Hp | done].
Qed.

Lemma rooted_fun h r d d' : rooted h r d -> rooted h r d' -> d = d'.
Proof.
  intros H. revert d'. induction H as [r c Hx Hp | r c p d Hx Hp _ IH]; intros d' H'.
  - inversion H'; subst; [done | congruence].
  - inversion H' as [|r' c' p' d0 Hx' Hp' Hr']; subst; [congruence|].
    f_equal. apply IH. congruence.
Qed.

Lemma chain_depth h r x d :
  rooted h r d -> on_chain h r x -> exists d', rooted h x d' /\ d' <= d.
Proof.
  intros Hr Hc. revert d Hr. induction Hc as [r | r c p x Hx Hp _ IH]; intros d Hr.
  - exists d. split; [done | lia].
  - inversion Hr as [r' c' Hx' Hp' | r' c' p' d0 Hx' Hp' Hr']; subst; [congruence|].
    assert (p' = p) as -> by congruence.
    destruct (IH _ Hr') as (d' & Hd' & Hle). exists d'. split; [done | lia].
Qed.

Lemma parent_not_on_chain h r c p d :
  rooted h r d -> h !! r = Some c -> parent c = Some p -> ~ on_chain h p r.
Proof.
  intros Hr Hx Hp Hc.
  inversion Hr as [r' c' Hx' Hp' | r' c' p' d0 Hx' Hp' Hr']; subst; [congruence|].
  assert (p' = p) as -> by congruence.
  destruct (chain_depth _ _ _ _ Hr' Hc) as (d' & Hd' & Hle).
  pose proof (rooted_fun _ _ _ _ Hr Hd'). lia.
Qed.

Lemma update_unfold fuel h r :
  update (S fuel) h r =
  match h !! r with
  | None => None
  | Some c =>
      if negb (initialized c) then Some h
      else
        let c2 := with_status (aggregate h (recompute_value h c)) (recompute_value h c) in
        match parent c2 with
        | None => Some (<[r := c2]> h)
        | Some p => update fuel (<[r := c2]> h) p
        end
  end.
Proof. reflexivity. Qed.

Lemma recomputed_differ_vs h c :
  differ_vs c (with_status (aggregate h (recompute_value h c)) (recompute_value h c)).
Proof. unfold recompute_value, differ_vs. by destruct c as [? ? ? ? ? ? ? ? []]. Qed.

(** What [update] leaves behind when the parent chain is sound and the call
    stack is deep enough: it returns, it writes [value] and [status] only,
    it touches nothing off the chain, and the receiver itself holds the
    recomputed value and the folded status. *)
Lemma update_spec fuel : forall h r d c,
  rooted h r d -> d < fuel -> h !! r = Some c ->
  exists h',
    update fuel h r = Some h' /\
    only_vs h h' /\
    (forall x, ~ on_chain h r x -> h' !! x = h !! x) /\
    h' !! r = Some (if initialized c
                    then with_status (aggregate h (recompute_value h c)) (recompute_value h c)
                    else c).
Proof.
  induction fuel as [|fuel IH]; intros h r d c Hr Hd Hx; [lia|].
  rewrite update_unfold, Hx. cbv zeta. destruct (initialized c) eqn:Hi; cbn [negb].
  2:{ exists h. split; [done|]. split; [apply only_vs_refl|]. by split. }
  pose proof (recomputed_differ_vs h c) as D.
  set (c2 := with_status (aggregate h (recompute_value h c)) (recompute_value h c)) in *.
  assert (Hp2 : parent c2 = parent c) by by apply differ_vs_parent.
  pose proof (only_vs_insert h r c c2 Hx D) as O1.
  pose proof (only_vs_same_parents _ _ O1) as SP.
  assert (Hlt : r < length h) by by eapply lookup_lt_Some.
  rewrite Hp2. destruct (parent c) as [p|] eqn:Hp.
  - inversion Hr as [r' c' Hx' Hp' | r' c' p' d0 Hx' Hp' Hr']; subst; [congruence|].
    assert (p' = p) as -> by congruence.
    pose proof (rooted_same_parents _ _ _ _ SP Hr') as Hr1.
    assert (exists cp, <[r := c2]> h !! p = Some cp) as [cp Hxp].
    { inversion Hr1; eauto. }
    destruct (IH _ _ _ cp Hr1 ltac:(lia) Hxp) as (h' & Hu & O2 & Hoff & _).
    exists h'. split; [done|]. split; [by eapply only_vs_trans|]. split.
    + intros x Hnc. assert (x <> r) by (intros ->; apply Hnc; constructor).
      rewrite Hoff; [by rewrite list_lookup_insert_ne|].
      intros Hc. apply Hnc. eapply chain_up; [exact Hx | exact Hp |].
      eapply on_chain_same_parents; [apply same_parents_sym, SP | exact Hc].
    + rewrite Hoff; [by apply list_lookup_insert_eq|].
      intros Hc. eapply (parent_not_on_chain h r c p); [done | done | done |].
      eapply on_chain_same_parents; [apply same_parents_sym, SP | exact Hc].
  - exists (<[r := c2]> h). split; [done|]. split; [done|]. split.
    + intros x Hnc. assert (x <> r) by (intros ->; apply Hnc; constructor).
      by rewrite list_lookup_insert_ne.
    + by apply list_lookup_insert_eq.
Qed.

End ChainFacts.

(** ** FieldControl: setStatus, reset *)

Section FieldFacts.

Context {V F : Type}.
Implicit Types (h : Heap V F) (c : Control V F) (r p x : ref).

Lemma same_parents_insert h r c c' :
  h !! r = Some c -> parent c' = parent c -> same_parents h (<[r := c']> h).
Proof.
  intros Hr D. split; [apply length_insert|].
  intros x cx Hx. destruct (decide (r = x)) as [<-|Hne].
  - exists c'. split; [|congruence].
    apply list_lookup_insert_eq. by eapply lookup_lt_Some.
  - exists cx. split; [by rewrite list_lookup_insert_ne | done].
Qed.

Lemma same_parents_trans h1 h2 h3 :
  same_parents h1 h2 -> same_parents h2 h3 -> same_parents h1 h3.
Proof.
  intros [L12 P12] [L23 P23]. split; [congruence|].
  intros x c Hx. destruct (P12 x c Hx) as (c2 & Hx2 & D12).
  destruct (P23 x c2 Hx2) as (c3 & Hx3 & D23).
  exists c3. split; [done | congruence].
Qed.

(** [setStatus] writes the merged status, then [update] runs on the
    receiver and up its parent chain. *)
Lemma setStatus_spec fuel h r d c (ps : PartialStatus) :
  rooted h r d -> d < fuel -> h !! r = Some c ->
  let c0 := with_status (spread_status (status c) ps) c in
  let h0 := <[r := c0]> h in
  exists h',
    setStatus fuel h r ps = Some h' /\
    only_vs h h' /\
    (forall x, ~ on_chain h r x -> h' !! x = h !! x) /\
    h' !! r = Some (if initialized c
                    then with_status (aggregate h0 (recompute_value h0 c0))
                                     (recompute_value h0 c0)
                    else c0).
Proof.
  intros Hr Hd Hx c0 h0. unfold setStatus. rewrite Hx. fold c0. fold h0.
  assert (D0 : differ_vs c c0) by (unfold c0, differ_vs; by destruct c).
  pose proof (only_vs_insert h r c c0 Hx D0) as O0. fold h0 in O0.
  pose proof (only_vs_same_parents _ _ O0) as SP.
  assert (Hx0 : h0 !! r = Some c0).
  { apply list_lookup_insert_eq. by eapply lookup_lt_Some. }
  destruct (update_spec fuel h0 r d c0 (rooted_same_parents _ _ _ _ SP Hr) Hd Hx0)
    as (h' & Hu & O1 & Hoff & Hself).
  exists h'. split; [done|]. split; [by eapply only_vs_trans|]. split; [|done].
  intros x Hnc. assert (x <> r) by (intros ->; apply Hnc; constructor).
  rewrite Hoff.
  - unfold h0. by rewrite list_lookup_insert_ne.
  - intros Hc. apply Hnc. eapply on_chain_same_parents; [apply same_parents_sym, SP | exact Hc].
Qed.

Lemma aggregate_field h c : kind c = KField -> aggregate h c = status c.
Proof. unfold aggregate, children. by intros ->. Qed.

Lemma recompute_value_field h c : kind c = KField -> recompute_value h c = c.
Proof. unfold recompute_value. by intros ->. Qed.

End FieldFacts.

Section FieldReset.

Context {V F : Type}.
Variable callF : F -> JsVal -> Heap V F -> option (ref * Heap V F).
Variable range : Z -> Z -> list Z.
Implicit Types (h : Heap V F) (c : Control V F) (r : ref).

(** C9. [reset()] on a field control puts [value] back to [initialValue]
    and sets [status.dirty] and [status.touched] to false; [valid],
    [pending] and [disabled] stay as they were. The field is any plain
    FieldControl of the store whose parent chain ends at a root. *)
Theorem reset_restores_initial_and_clears fuel h r d c :
  h !! r = Some c -> kind c = KField -> rooted h r d -> d < fuel ->
  exists h' c',
    FieldControl_reset fuel h r = Some h' /\
    reset callF range (S fuel) h r = Some h' /\
    h' !! r = Some c' /\
    value c' = initialValue c /\
    dirty (status c') = false /\
    touched (status c') = false /\
    valid (status c') = valid (status c) /\
    pending (status c') = pending (status c) /\
    disabled (status c') = disabled (status c).
Proof.
  intros Hx Hk Hr Hd.
  set (c1 := with_value (initialValue c) c).
  assert (Hx1 : <[r := c1]> h !! r = Some c1).
  { apply list_lookup_insert_eq. by eapply lookup_lt_Some. }
  assert (SP : same_parents h (<[r := c1]> h)) by by apply (same_parents_insert h r c c1).
  destruct (setStatus_spec fuel _ r d c1
              (mkPartial None None (Some false) (Some false) None)
              (rooted_same_parents _ _ _ _ SP Hr) Hd Hx1)
    as (h' & Hs & _ & _ & Hself).
  assert (Hreset : FieldControl_reset fuel h r = Some h').
  { unfold FieldControl_reset. by rewrite Hx. }
  eexists h', _. split; [exact Hreset|]. split.
  { cbn [reset]. by rewrite Hx, Hk. }
  split; [exact Hself|].
  assert (Hk1 : kind (with_status
            (spread_status (status c1) (mkPartial None None (Some false) (Some false) None))
            c1) = KField) by exact Hk.
  rewrite (recompute_value_field _ _ Hk1), (aggregate_field _ _ Hk1).
  by destruct (initialized c1).
Qed.

End FieldReset.

(** ** GroupControl: the value reduction *)

Section ReduceFacts.

Context {V F : Type}.
Implicit Types (h : Heap V F) (c : Control V F) (r : ref).





End ReduceFacts.

(** ** Registry resolution *)

Section RegistryFacts.

Context {Config ControlRef Params Source Stray : Type}.
Variable builtin_read : string -> string -> Read unit.
Variable builtin_call : list string -> Config -> ControlRef -> Params -> option Stray.
Implicit Types (registry : Registry Config ControlRef Params Source).
Implicit Types (def : ExecutableDefinition Params) (defs : list (ExecutableDefinition Params)).

(** The lookup on a name that neither the category nor the prototype chain
    holds, in a category that is the registry's own or is nowhere. *)
Lemma getRegistryMethod_missing registry kind_ def :
  entry registry kind_ def = None ->
  Object_prototype (name def) = None ->
  (registry !! kind_ = None -> Object_prototype kind_ = None) ->
  getRegistryMethod builtin_read registry kind_ def = Some None.
Proof.
  unfold entry, getRegistryMethod, registry_category. intros He Hn Hk.
  destruct (registry !! kind_) as [methods|]; simpl in *.
  - by rewrite He, Hn.
  - by rewrite Hk.
Qed.

Lemma getRegistryMethod_own registry kind_ def method :
  entry registry kind_ def = Some method ->
  getRegistryMethod builtin_read registry kind_ def = Some (Some (MEntry method)).
Proof.
  unfold entry, getRegistryMethod, registry_category. intros He.
  destruct (registry !! kind_) as [methods|]; simpl in *; [|done]. by rewrite He.
Qed.

Lemma getRegistryMethods_cons registry kind_ def defs :
  getRegistryMethods builtin_read registry kind_ (def :: defs) =
  match getRegistryMethod builtin_read registry kind_ def with
  | None => None
  | Some found =>
      (fun rest => match found with
                   | Some method => (method, def) :: rest
                   | None => rest
                   end) <$> getRegistryMethods builtin_read registry kind_ defs
  end.
Proof.
  unfold getRegistryMethods. simpl.
  destruct (getRegistryMethod builtin_read registry kind_ def) as [[method|]|]; simpl;
    try done;
    match goal with |- context [mapM ?f defs] => by destruct (mapM f defs) end.
Qed.

Lemma getRegistryMethods_app registry kind_ defs1 defs2 :
  getRegistryMethods builtin_read registry kind_ (defs1 ++ defs2) =
  match getRegistryMethods builtin_read registry kind_ defs1,
        getRegistryMethods builtin_read registry kind_ defs2 with
  | Some l1, Some l2 => Some (l1 ++ l2)
  | _, _ => None
  end.
Proof.
  induction defs1 as [|def defs1 IH]; simpl.
  - change (getRegistryMethods builtin_read registry kind_ []) with
      (Some (@nil (Method Config ControlRef Params Source * ExecutableDefinition Params))).
    by destruct (getRegistryMethods builtin_read registry kind_ defs2).
  - rewrite !getRegistryMethods_cons, IH.
    destruct (getRegistryMethod builtin_read registry kind_ def) as [found|]; [|done].
    destruct (getRegistryMethods builtin_read registry kind_ defs1) as [l1|]; [|done].
    destruct (getRegistryMethods builtin_read registry kind_ defs2) as [l2|]; [|done].
    simpl. by destruct found.
Qed.

Lemma getRegistryValues_cons registry kind_ config control def defs :
  getRegistryValues builtin_read builtin_call registry kind_ config control (def :: defs) =
  match getRegistryMethod builtin_read registry kind_ def,
        getRegistryMethods builtin_read registry kind_ defs with
  | Some (Some method), Some _ =>
      match call_method builtin_call method config control (params def),
            getRegistryValues builtin_read builtin_call registry kind_ config control defs with
      | Some v, Some vs => Some (v :: vs)
      | _, _ => None
      end
  | Some None, Some _ =>
      getRegistryValues builtin_read builtin_call registry kind_ config control defs
  | _, _ => None
  end.
Proof.
  unfold getRegistryValues. rewrite getRegistryMethods_cons.
  destruct (getRegistryMethod builtin_read registry kind_ def) as [[method|]|]; [| |done].
  - destruct (getRegistryMethods builtin_read registry kind_ defs) as [l|]; [|done].
    simpl. destruct (call_method builtin_call method config control (params def)); [|done].
    simpl. match goal with |- context [mapM ?f l] => by destruct (mapM f l) end.
  - by destruct (getRegistryMethods builtin_read registry kind_ defs).
Qed.

Lemma getRegistryMethods_drop registry kind_ def defs1 defs2 :
  getRegistryMethod builtin_read registry kind_ def = Some None ->
  getRegistryMethods builtin_read registry kind_ (defs1 ++ def :: defs2) =
  getRegistryMethods builtin_read registry kind_ (defs1 ++ defs2).
Proof.
  intros Hm. rewrite !getRegistryMethods_app, getRegistryMethods_cons, Hm.
  destruct (getRegistryMethods builtin_read registry kind_ defs1); [|done].
  by destruct (getRegistryMethods builtin_read registry kind_ defs2).
Qed.

Lemma getRegistryMethods_fault registry kind_ def defs1 defs2 :
  getRegistryMethod builtin_read registry kind_ def = None ->
  getRegistryMethods builtin_read registry kind_ (defs1 ++ def :: defs2) = None.
Proof.
  intros Hm. rewrite getRegistryMethods_app, getRegistryMethods_cons, Hm.
  by destruct (getRegistryMethods builtin_read registry kind_ defs1).
Qed.

(** On names that [Object.prototype] does not hold, the resolution is the
    one of the own entries. *)
Lemma getRegistryValues_own registry kind_ config control defs :
  (registry !! kind_ = None -> Object_prototype kind_ = None) ->
  Forall (fun def => Object_prototype (name def) = None) defs ->
  getRegistryMethods builtin_read registry kind_ defs =
    Some (omap (fun def => (fun method => (MEntry method, def))
                             <$> entry registry kind_ def) defs) /\
  getRegistryValues builtin_read builtin_call registry kind_ config control defs =
    Some (omap (fun def => (fun method => inl (method config control (params def)))
                             <$> entry registry kind_ def) defs).
Proof.
  intros Hk. induction 1 as [|def defs Hn _ [IHm IHv]]; [done|].
  rewrite getRegistryValues_cons, getRegistryMethods_cons, IHm, IHv.
  destruct (entry registry kind_ def) as [method|] eqn:He.
  - rewrite (getRegistryMethod_own _ _ _ _ He). simpl. by rewrite He.
  - rewrite (getRegistryMethod_missing _ _ _ He Hn Hk). simpl. by rewrite He.
Qed.

(** C7, on the code. The lookup is the property read
    [registry[kind]?.[def.name]], which goes on to [Object.prototype] when
    the category has no such key. A definition whose name is missing from
    the category and is a method of [Object.prototype] ([toString],
    [constructor], ...) is not dropped: the lookup returns that method,
    [getRegistryMethods] keeps it and [getRegistryValues] calls it; under
    the name [__proto__] the lookup finds the prototype object, which has
    no [bind], and the resolution of the whole list throws. For names and
    categories that [Object.prototype] does not hold the claim is what the
    code does: a missing entry resolves to [null], is filtered out, and the
    other definitions resolve in order to the sources of their entries. *)
Theorem missing_names_on_the_prototype_are_kept registry (kind_ : string)
    (config : Config) (control : ControlRef) :
  (forall methods def n,
     registry !! kind_ = Some methods -> methods !! name def = None ->
     Object_prototype (name def) = Some (InheritedMethod n) ->
     entry registry kind_ def = None /\
     getRegistryMethod builtin_read registry kind_ def = Some (Some (MBuiltin [n])) /\
     getRegistryMethods builtin_read registry kind_ [def] = Some [(MBuiltin [n], def)] /\
     getRegistryValues builtin_read builtin_call registry kind_ config control [def] =
       (fun stray => [inr stray]) <$> builtin_call [n] config control (params def) /\
     getRegistryValue builtin_read builtin_call registry kind_ config control def =
       (fun stray => Some (inr stray)) <$> builtin_call [n] config control (params def)) /\
  (forall methods def,
     registry !! kind_ = Some methods -> methods !! name def = None ->
     name def = "__proto__"%string ->
     getRegistryMethod builtin_read registry kind_ def = None /\
     getRegistryValue builtin_read builtin_call registry kind_ config control def = None /\
     forall defs1 defs2,
       getRegistryMethods builtin_read registry kind_ (defs1 ++ def :: defs2) = None /\
       getRegistryValues builtin_read builtin_call registry kind_ config control
         (defs1 ++ def :: defs2) = None) /\
  (forall params_ : Params,
     getRegistryMethods (Config:=Config) (ControlRef:=ControlRef) (Source:=Source)
       builtin_read {[ "validators"%string := ∅ ]} "validators"
       [mkDef "toString" params_; mkDef "required" params_] =
     Some [(MBuiltin ["toString"%string], mkDef "toString" params_)]) /\
  ((registry !! kind_ = None -> Object_prototype kind_ = None) ->
   (forall def,
      entry registry kind_ def = None -> Object_prototype (name def) = None ->
      getRegistryMethod builtin_read registry kind_ def = Some None /\
      getRegistryValue builtin_read builtin_call registry kind_ config control def
        = Some None /\
      forall defs1 defs2,
        getRegistryMethods builtin_read registry kind_ (defs1 ++ def :: defs2) =
        getRegistryMethods builtin_read registry kind_ (defs1 ++ defs2) /\
        getRegistryValues builtin_read builtin_call registry kind_ config control
          (defs1 ++ def :: defs2) =
        getRegistryValues builtin_read builtin_call registry kind_ config control
          (defs1 ++ defs2)) /\
   (forall defs,
      Forall (fun def => Object_prototype (name def) = None) defs ->
      getRegistryMethods builtin_read registry kind_ defs =
        Some (omap (fun def => (fun method => (MEntry method, def))
                                 <$> entry registry kind_ def) defs) /\
      getRegistryValues builtin_read builtin_call registry kind_ config control defs =
        Some (omap (fun def => (fun method => inl (method config control (params def)))
                                 <$> entry registry kind_ def) defs)) /\
   (registry !! kind_ = None ->
    forall defs,
      Forall (fun def => Object_prototype (name def) = None) defs ->
      getRegistryMethods builtin_read registry kind_ defs = Some [] /\
      getRegistryValues builtin_read builtin_call registry kind_ config control defs
        = Some [])).
Proof.
  split; [|split; [|split]].
  - intros methods def n Hk Hm Hn.
    assert (Hget : getRegistryMethod builtin_read registry kind_ def
                   = Some (Some (MBuiltin [n]))).
    { unfold getRegistryMethod, registry_category. rewrite Hk. simpl. by rewrite Hm, Hn. }
    split; [unfold entry; by rewrite Hk|]. split; [exact Hget|].
    split; [by rewrite getRegistryMethods_cons, Hget|].
    split.
    + rewrite getRegistryValues_cons, Hget. simpl.
      by destruct (builtin_call [n] config control (params def)).
    + unfold getRegistryValue. rewrite Hget. simpl.
      by destruct (builtin_call [n] config control (params def)).
  - intros methods def Hk Hm Hname.
    assert (Hget : getRegistryMethod builtin_read registry kind_ def = None).
    { unfold getRegistryMethod, registry_category. rewrite Hk. simpl. by rewrite Hm, Hname. }
    split; [exact Hget|]. split; [unfold getRegistryValue; by rewrite Hget|].
    intros defs1 defs2.
    pose proof (getRegistryMethods_fault registry kind_ def defs1 defs2 Hget) as Hf.
    split; [exact Hf|]. unfold getRegistryValues. by rewrite Hf.
  - intros params_. by vm_compute.
  - intros Hk. split; [|split].
    + intros def He Hn.
      pose proof (getRegistryMethod_missing registry kind_ def He Hn Hk) as Hget.
      split; [exact Hget|]. split; [unfold getRegistryValue; by rewrite Hget|].
      intros defs1 defs2.
      pose proof (getRegistryMethods_drop registry kind_ def defs1 defs2 Hget) as Hd.
      split; [exact Hd|]. unfold getRegistryValues. by rewrite Hd.
    + intros defs Hdefs. by apply getRegistryValues_own.
    + intros Hnone defs Hdefs.
      destruct (getRegistryValues_own registry kind_ config control defs Hk Hdefs)
        as [Hm Hv].
      assert (Hempty : forall A (g : ExecutableDefinition Params ->
                                     Executable Config ControlRef Params Source -> A),
                omap (fun def => g def <$> entry registry kind_ def) defs = []).
      { intros A g. clear -Hnone. induction defs as [|def defs IH]; [done|].
        simpl. unfold entry at 1. rewrite Hnone. simpl. exact IH. }
      split.
      * rewrite Hm. f_equal. apply (Hempty _ (fun def method => (MEntry method, def))).
      * rewrite Hv. f_equal.
        apply (Hempty _ (fun def method => inl (method config control (params def)))).
Qed.

End RegistryFacts.

(** ** What the runs show *)

(** C1, on the code. A field with a failing required validator comes out
    of its constructor with the error map in [errors] and with
    [status.valid] true, and a field without validators comes out with
    [errors] null and [status.valid] false: the subscriber sets
    [valid: !!errors]. *)
Theorem validate_sets_valid_to_has_errors :
  (exists r h,
      empty_required_field = Some (r, h) /\
      errors (h !!! r) = Some required_error /\
      valid (status (h !!! r)) = true) /\
  (exists r h,
      plain_field = Some (r, h) /\
      errors (h !!! r) = None /\
      valid (status (h !!! r)) = false).
Proof. split; eexists _, _; (split; [vm_compute; reflexivity|]); by vm_compute. Qed.

(** C4, on the code. The root's [getRawValue()] takes the inner group's
    [value], the disabled-aware reduction, and does not call the inner
    group's [getRawValue()]: the disabled grandchild's value is missing from
    the root's raw value although the inner group's own raw value has it. *)
Theorem getRawValue_takes_child_value :
  exists a g root h,
    nested_groups = Some (a, g, root, h) /\
    disabled (status (h !!! a)) = true /\
    getRawValue 3 h g = Some (VObj [("a"%string, VStr "x")]) /\
    value (h !!! g) = VObj [] /\
    getRawValue 3 h root = Some (VObj [("g"%string, VObj [])]).
Proof. eexists _, _, _, _. split; [vm_compute; reflexivity|]. by vm_compute. Qed.

(** C3, on the code. An initialized array over [{name: "a"}, {name: "b"}]
    resized to length 1 keeps one item, and that item is built from [null]:
    [clear()] has run [update()], which left [this.value] empty before the
    factory read [this.value[0]]. The same shows through the public
    methods: [patchValue([{}])] leaves the one item with a null name, and
    [reset()] leaves two items with null names where the initial value had
    "a" and "b". *)
Theorem resize_rebuilds_survivors_from_null :
  item_values two_items_heap 0 =
    [VObj [("name"%string, VStr "a")]; VObj [("name"%string, VStr "b")]] /\
  initialized (two_items_heap !!! 0) = true /\
  (fun h => item_values h 0) <$> resize demo_callF RAR_range 5 two_items_heap 0 1 =
    Some [VObj [("name"%string, VNull)]] /\
  (fun h => item_values h 0)
    <$> patchValue demo_callF RAR_range 6 two_items_heap 0 (VArr [VObj []]) =
    Some [VObj [("name"%string, VNull)]] /\
  (fun h => item_values h 0) <$> reset demo_callF RAR_range 6 two_items_heap 0 =
    Some [VObj [("name"%string, VNull)]; VObj [("name"%string, VNull)]].
Proof. repeat split; by vm_compute. Qed.

(** ** ArrayControl: clear, push, resize *)

Section ArrayFacts.

Context {V F : Type}.
Variable callF : F -> JsVal -> Heap V F -> option (ref * Heap V F).
Variable range : Z -> Z -> list Z.
Implicit Types (h : Heap V F) (c : Control V F) (r p x : ref).

Lemma same_parents_alter h r (f : Control V F -> Control V F) :
  (forall c, parent (f c) = parent c) -> same_parents h (alter f r h).
Proof.
  intros Hf. split; [apply length_alter|].
  intros x cx Hx. destruct (decide (r = x)) as [Heq|Hne].
  - subst x. exists (f cx). split; [by rewrite list_lookup_alter_eq, Hx | apply Hf].
  - exists cx. split; [by rewrite list_lookup_alter_ne | done].
Qed.

Lemma set_controls_parent controls c : parent (set_controls controls c) = parent c.
Proof. unfold set_controls. by destruct (kind c). Qed.

(** After a run of [registerControl] calls, the registered controls point
    at the registering composite; nothing else has changed. *)
Lemma register_all_lookup (items : list ref) : forall h this x,
  foldl (fun h control => registerControl h this control) h items !! x =
  (if decide (x ∈ items) then with_parent (Some this) else id) <$> h !! x.
Proof.
  induction items as [|item items IH]; intros h this x; simpl.
  - destruct (decide (x ∈ [])) as [Hin|_]; [by apply elem_of_nil in Hin|].
    by destruct (h !! x).
  - rewrite IH. unfold registerControl, setParent.
    destruct (decide (item = x)) as [Heq|Hne].
    + subst item. rewrite list_lookup_alter_eq.
      destruct (decide (x ∈ x :: items)) as [_|Hn]; [|by destruct Hn; left].
      destruct (h !! x) as [c|]; [|done]. simpl. by destruct (decide (x ∈ items)).
    + rewrite list_lookup_alter_ne by done.
      destruct (decide (x ∈ items)) as [Hin|Hnin];
        destruct (decide (x ∈ item :: items)) as [Hin'|Hnin']; try done.
      * destruct Hnin'. by right.
      * apply elem_of_cons in Hin' as [?|?]; by subst.
Qed.

(** After [push], the receiver holds its former children followed by the
    pushed ones. *)
Lemma push_controls h r c f controls items :
  h !! r = Some c -> kind c = KArray f controls ->
  array_controls (push h r items !!! r) = controls ++ items.
Proof.
  intros Hx Hk. unfold push.
  pose proof (register_all_lookup items
                (alter (fun c => set_controls (array_controls c ++ items) c) r h) r r) as Hl.
  rewrite list_lookup_alter_eq, Hx in Hl. simpl in Hl.
  rewrite (list_lookup_total_correct _ _ _ Hl).
  assert (Hs : array_controls (set_controls (array_controls c ++ items) c) = controls ++ items).
  { unfold set_controls, array_controls. rewrite Hk. simpl. done. }
  by destruct (decide (r ∈ items)).
Qed.

(** [clear()] on an array whose parent chain is sound: it returns, the
    array has no children left and is dirty and touched, and once the gate
    is open [update()] has replaced [value] by the empty sequence. *)
Lemma clear_spec fuel h r d c f controls :
  rooted h r d -> d < fuel -> h !! r = Some c -> kind c = KArray f controls ->
  exists h1 c1,
    clear fuel h r = Some h1 /\
    h1 !! r = Some c1 /\
    kind c1 = KArray f [] /\
    initialized c1 = initialized c /\
    (initialized c = true -> value c1 = VArr []) /\
    status c1 = spread_status (status c) (mkPartial None None (Some true) (Some true) None) /\
    same_parents h h1.
Proof.
  intros Hr Hd Hx Hk. unfold clear.
  set (ha := alter (set_controls []) r h).
  assert (SPa : same_parents h ha) by apply same_parents_alter, set_controls_parent.
  assert (Hxa : ha !! r = Some (set_controls [] c)).
  { unfold ha. by rewrite list_lookup_alter_eq, Hx. }
  destruct (setStatus_spec fuel ha r d _
              (mkPartial None None (Some true) (Some true) None)
              (rooted_same_parents _ _ _ _ SPa Hr) Hd Hxa)
    as (h1 & Hs & O1 & _ & Hself).
  assert (Hsc : set_controls [] c = with_kind (KArray f []) c).
  { unfold set_controls. by rewrite Hk. }
  rewrite Hsc in Hself.
  eexists h1, _. split; [exact Hs|]. split; [exact Hself|].
  unfold recompute_value, aggregate, children. simpl.
  split; [|split; [|split; [|split]]].
  - by destruct (initialized c).
  - destruct (initialized c) eqn:Hi; simpl; congruence.
  - by intros ->.
  - by destruct (initialized c).
  - eapply same_parents_trans; [exact SPa | by apply only_vs_same_parents].
Qed.

(** C10. On an initialized array, [setValue([])], which is [resize(0)],
    does not leave the array empty. With [RAR.range(0, -1)] holding the one
    index [0] (fp-ts returns [[start]] for an empty interval), [clear()]
    empties the array and its value, the factory is called once, with
    [null], and the array ends up with exactly that one child. The factory
    is assumed to return and to leave the array's own record alone. *)
Theorem resize_to_zero_leaves_one_item fuel h r d c f controls :
  range 0 (-1) = [0%Z] ->
  h !! r = Some c -> kind c = KArray f controls -> initialized c = true ->
  rooted h r d -> d < fuel ->
  (forall h1, clear fuel h r = Some h1 ->
     exists item h2, callF f VNull h1 = Some (item, h2) /\ h2 !! r = h1 !! r) ->
  exists h1 item h2 h',
    clear fuel h r = Some h1 /\
    array_controls (h1 !!! r) = [] /\
    callF f VNull h1 = Some (item, h2) /\
    resize callF range fuel h r 0 = Some h' /\
    ArrayControl_setValue callF range (S fuel) h r [] = Some h' /\
    array_controls (h' !!! r) = [item] /\
    length (array_controls (h' !!! r)) = 1.
Proof.
  intros Hrange Hx Hk Hi Hr Hd Hfac.
  destruct (clear_spec fuel h r d c f controls Hr Hd Hx Hk)
    as (h1 & c1 & Hclear & Hx1 & Hk1 & _ & Hv1 & _ & _).
  destruct (Hfac h1 Hclear) as (item & h2 & Hcall & Hframe).
  assert (Hresize : resize callF range fuel h r 0 = Some (push h2 r [item])).
  { unfold resize. rewrite Hclear.
    change (0 - 1)%Z with (-1)%Z. rewrite Hrange. simpl.
    unfold itemFactory_call. rewrite Hx1, Hk1.
    rewrite (list_lookup_total_correct _ _ _ Hx1), (Hv1 Hi). simpl.
    by rewrite Hcall. }
  exists h1, item, h2, (push h2 r [item]).
  split; [done|]. split.
  { rewrite (list_lookup_total_correct _ _ _ Hx1). unfold array_controls. by rewrite Hk1. }
  split; [done|]. split; [done|]. split.
  { unfold ArrayControl_setValue. cbn [setValue]. rewrite Hx, Hk.
    change (Z.of_nat (length (@nil JsVal))) with 0%Z. by rewrite Hresize. }
  assert (Hc : array_controls (push h2 r [item] !!! r) = [item]).
  { rewrite <- Hframe in Hx1. by rewrite (push_controls h2 r c1 f [] [item] Hx1 Hk1). }
  split; [done|]. by rewrite Hc.
Qed.

End ArrayFacts.

Lemma resize_to_zero_witness :
  exists h1 item h2 h',
    clear 5 two_items_heap 0 = Some h1 /\
    array_controls (h1 !!! 0) = [] /\
    demo_callF namedItem VNull h1 = Some (item, h2) /\
    resize demo_callF RAR_range 5 two_items_heap 0 0 = Some h' /\
    ArrayControl_setValue demo_callF RAR_range 6 two_items_heap 0 [] = Some h' /\
    array_controls (h' !!! 0) = [item] /\
    length (array_controls (h' !!! 0)) = 1.
Proof.
  apply (resize_to_zero_leaves_one_item demo_callF RAR_range 5 two_items_heap 0 0
           (two_items_heap !!! 0) namedItem [2; 4]).
  - reflexivity.
  - vm_compute. reflexivity.
  - vm_compute. reflexivity.
  - vm_compute. reflexivity.
  - apply (rooted_top _ 0 (two_items_heap !!! 0)); vm_compute; reflexivity.
  - lia.
  - intros h1 H1. vm_compute in H1. injection H1 as <-.
    eexists _, _. split; vm_compute; reflexivity.
Defined.

(** ** Validation: what a subscription delivers, and when *)

Section ValidationFacts.

Context {V F : Type}.
Variable callV : V -> Heap V F -> ref -> VResult.
Implicit Types (h : Heap V F) (c : Control V F) (r : ref) (sub : Subscription).

Lemma differ_vs_fields c c' :
  differ_vs c c' ->
  parent c' = parent c /\ initialized c' = initialized c /\
  validationSubs c' = validationSubs c /\ errors c' = errors c /\
  validators c' = validators c /\ kind c' = kind c /\ initialValue c' = initialValue c.
Proof. intros ->. by repeat split. Qed.

Lemma subs_ok_differ_vs c c' : differ_vs c c' -> subs_ok c -> subs_ok c'.
Proof.
  intros D. destruct (differ_vs_fields _ _ D) as (_ & Hi & Hs & _).
  unfold subs_ok, subs_weak, first_combined. by rewrite Hi, Hs.
Qed.

Lemma last_lookup_pred {A} (l : list A) : last l = l !! pred (length l).
Proof. apply last_lookup. Qed.

Lemma open_is_fresh gate sub : sub_ok gate sub -> closed sub = false -> delivered sub = 0.
Proof.
  intros [Hle H1] Ho. destruct (delivered sub) as [|[|n]]; [done| |lia].
  destruct (H1 eq_refl) as [Hc _]. congruence.
Qed.

(** Looking at the last subscription restores the invariant. *)
Lemma fire_last_ok c : subs_weak c -> subs_ok (fire_at c (pred (length (validationSubs c)))).
Proof.
  intros (Hall & Hold & Hlast). unfold fire_at.
  set (k := pred (length (validationSubs c))).
  destruct (validationSubs c !! k) as [sub|] eqn:Hk.
  2:{ split; [done|]. intros sub Hl. rewrite last_lookup_pred in Hl. fold k in Hl. congruence. }
  destruct (first_combined c sub) as [errs|] eqn:Hf.
  2:{ split; [done|]. intros sub' Hl. rewrite last_lookup_pred in Hl. fold k in Hl.
      assert (sub' = sub) as -> by congruence. done. }
  assert (Hklt : k < length (validationSubs c)) by by eapply lookup_lt_Some.
  unfold first_combined in Hf.
  destruct (closed sub) eqn:Hc; [done|]. destruct (initialized c) eqn:Hi; [|done].
  simpl in Hf.
  assert (Hd0 : delivered sub = 0).
  { eapply open_is_fresh; [|done]. eapply Forall_lookup_1; [exact Hall | exact Hk]. }
  assert (Hsubok : sub_ok true (completed sub)).
  { unfold sub_ok, completed. simpl. rewrite Hd0. split; [lia|]. intros _.
    split; [done|]. split; [done|]. rewrite Hf. by eexists. }
  split; [split; [|split]|]; simpl.
  - rewrite Hi. by apply Forall_insert.
  - rewrite length_insert. intros j s Hj Hlt.
    destruct (decide (k = j)) as [Heq|Hne].
    + subst j. unfold k in Hlt. lia.
    + rewrite list_lookup_insert_ne in Hj by done. by eapply Hold.
  - intros s Hl _. rewrite last_lookup_pred, length_insert in Hl. fold k in Hl.
    rewrite list_lookup_insert_eq in Hl by done. injection Hl as <-.
    simpl. by rewrite Hd0.
  - intros s Hl Ho. rewrite last_lookup_pred, length_insert in Hl. fold k in Hl.
    rewrite list_lookup_insert_eq in Hl by done. by injection Hl as <-.
Qed.

Lemma fire_at_init c k : initialized (fire_at c k) = initialized c.
Proof.
  unfold fire_at. destruct (validationSubs c !! k); [|done].
  by destruct (first_combined c s).
Qed.

Lemma fire_at_parent c k : parent (fire_at c k) = parent c.
Proof.
  unfold fire_at. destruct (validationSubs c !! k); [|done].
  by destruct (first_combined c s).
Qed.

Lemma fire_at_gate_closed c k : initialized c = false -> fire_at c k = c.
Proof.
  intros Hi. unfold fire_at, first_combined. rewrite Hi.
  destruct (validationSubs c !! k); [|done]. by rewrite orb_true_r.
Qed.

(** [deliver] on a sound chain: it returns, and the receiver holds the
    fired record up to the [value] and [status] that [update] rewrites. *)
Lemma deliver_spec fuel h r k d c :
  rooted h r d -> d < fuel -> h !! r = Some c ->
  exists h' c',
    deliver fuel h r k = Some h' /\ h' !! r = Some c' /\
    same_parents h h' /\ differ_vs (fire_at c k) c'.
Proof.
  intros Hr Hd Hx. unfold deliver, fire_at. rewrite Hx.
  destruct (validationSubs c !! k) as [sub|] eqn:Hk.
  2:{ exists h, c. split; [done|]. split; [done|].
      split; [apply only_vs_same_parents, only_vs_refl | apply differ_vs_refl]. }
  destruct (first_combined c sub) as [errs|] eqn:Hf.
  2:{ exists h, c. split; [done|]. split; [done|].
      split; [apply only_vs_same_parents, only_vs_refl | apply differ_vs_refl]. }
  set (c0 := with_errors errs
               (with_validationSubs (<[k := completed sub]> (validationSubs c)) c)).
  assert (SP : same_parents h (<[r := c0]> h)) by by apply (same_parents_insert h r c c0).
  assert (Hx0 : <[r := c0]> h !! r = Some c0).
  { apply list_lookup_insert_eq. by eapply lookup_lt_Some. }
  destruct (setStatus_spec fuel _ r d c0
              (mkPartial (Some (double_bang errs)) None None None None)
              (rooted_same_parents _ _ _ _ SP Hr) Hd Hx0)
    as (h' & Hs & O & _ & Hself).
  destruct O as [OL OP]. destruct (OP r c0 Hx0) as (c' & Hx' & D).
  exists h', c'. split; [exact Hs|]. split; [exact Hx'|]. split; [|exact D].
  eapply same_parents_trans; [exact SP|]. by apply only_vs_same_parents.
Qed.

Lemma sub_ok_gate_open gate sub : sub_ok gate sub -> sub_ok true sub.
Proof. intros [Hle H1]. split; [done|]. intros Hd. by destruct (H1 Hd) as (? & _ & ?). Qed.

(** A record is written over the receiver and its last subscription is
    looked at: the invariant holds afterwards. *)
Lemma deliver_last_step fuel h r d c c_pre :
  rooted h r d -> d < fuel -> h !! r = Some c ->
  parent c_pre = parent c -> subs_weak c_pre ->
  exists h' c',
    deliver fuel (<[r := c_pre]> h) r (pred (length (validationSubs c_pre))) = Some h' /\
    h' !! r = Some c' /\ same_parents h h' /\ subs_ok c' /\
    differ_vs (fire_at c_pre (pred (length (validationSubs c_pre)))) c'.
Proof.
  intros Hr Hd Hx Hp Hw.
  assert (SP : same_parents h (<[r := c_pre]> h)) by by apply (same_parents_insert h r c c_pre).
  assert (Hx0 : <[r := c_pre]> h !! r = Some c_pre).
  { apply list_lookup_insert_eq. by eapply lookup_lt_Some. }
  destruct (deliver_spec fuel _ r (pred (length (validationSubs c_pre))) d c_pre
              (rooted_same_parents _ _ _ _ SP Hr) Hd Hx0)
    as (h' & c' & Hdel & Hx' & SP' & D).
  exists h', c'. split; [done|]. split; [done|].
  split; [by eapply same_parents_trans|]. split; [|done].
  eapply subs_ok_differ_vs; [exact D|]. by apply fire_last_ok.
Qed.

Lemma resubscribed_olds_closed c j sub :
  subs_weak c ->
  alter unsubscribe (pred (length (validationSubs c))) (validationSubs c) !! j = Some sub ->
  closed sub = true.
Proof.
  intros (_ & Hold & _) Hj.
  assert (Hlt : j < length (validationSubs c)).
  { apply lookup_lt_Some in Hj. by rewrite length_alter in Hj. }
  destruct (decide (pred (length (validationSubs c)) = j)) as [Heq|Hne].
  - rewrite <- Heq, list_lookup_alter_eq in Hj.
    destruct (validationSubs c !! pred (length (validationSubs c))); [|done].
    by injection Hj as <-.
  - rewrite list_lookup_alter_ne in Hj by done. eapply Hold; [exact Hj | lia].
Qed.

Lemma resubscribed_weak c srcs : subs_weak c -> subs_weak (resubscribed c srcs).
Proof.
  intros Hw. pose proof Hw as (Hall & Hold & Hlast).
  unfold resubscribed, subs_weak. simpl. split; [|split].
  - apply Forall_app_2.
    + apply Forall_alter; [done|]. intros sub _ [Hle H1]. split; [done|].
      intros Hd. simpl in *. destruct (H1 Hd) as (_ & ? & ?). done.
    + apply Forall_singleton. split; simpl; [lia | done].
  - intros j sub Hj Hlt. rewrite length_app in Hlt. simpl in Hlt.
    rewrite lookup_app_l in Hj by lia. by eapply resubscribed_olds_closed.
  - intros sub Hl. rewrite last_snoc in Hl. by injection Hl as <-.
Qed.

Lemma resubscribed_last_index c srcs :
  pred (length (validationSubs (resubscribed c srcs))) =
  length (alter unsubscribe (pred (length (validationSubs c))) (validationSubs c)).
Proof. unfold resubscribed. simpl. rewrite length_app. simpl. lia. Qed.

(** [validate()] on a sound chain. *)
Lemma validate_spec fuel h r d c :
  rooted h r d -> d < fuel -> h !! r = Some c -> subs_weak c ->
  let srcs := map (fun v => match callV v h r with
                            | Now m => Some m
                            | Later => None
                            end) (validators c) in
  let c_pre := resubscribed c srcs in
  exists h' c',
    validate callV fuel h r = Some h' /\ h' !! r = Some c' /\
    same_parents h h' /\ subs_ok c' /\
    differ_vs (fire_at c_pre (length (validationSubs c))) c'.
Proof.
  intros Hr Hd Hx Hw srcs c_pre.
  destruct (deliver_last_step fuel h r d c c_pre Hr Hd Hx eq_refl
              (resubscribed_weak c srcs Hw))
    as (h' & c' & Hdel & Hx' & SP & Hok & D).
  unfold c_pre in Hdel, D. rewrite resubscribed_last_index, length_alter in Hdel, D.
  exists h', c'. split; [|done].
  unfold validate. rewrite Hx. by rewrite length_alter.
Qed.

Lemma step_spec fuel h r d c (ev : Event V) :
  rooted h r d -> d < fuel -> h !! r = Some c -> subs_ok c ->
  exists h' c',
    step callV fuel h r ev = Some h' /\ h' !! r = Some c' /\
    same_parents h h' /\ subs_ok c' /\
    (initialized c = true -> initialized c' = true) /\
    (initialized c' = false -> errors c' = errors c).
Proof.
  intros Hr Hd Hx Hok. pose proof Hok as [Hw Hopen].
  assert (Hlt : r < length h) by by eapply lookup_lt_Some.
  destruct ev as [| |vs|k i m|ps|v|]; simpl.
  - (* the gate opens *)
    set (c_pre := with_initialized true c).
    assert (Hw' : subs_weak c_pre).
    { destruct Hw as (Hall & Hold & Hlast). split; [|done]. simpl.
      eapply Forall_impl; [exact Hall|]. intros sub. apply sub_ok_gate_open. }
    destruct (deliver_last_step fuel h r d c c_pre Hr Hd Hx eq_refl Hw')
      as (h' & c' & Hdel & Hx' & SP & Hok' & D).
    exists h', c'. split; [unfold initialized_next; by rewrite Hx|].
    split; [done|]. split; [done|]. split; [done|].
    destruct (differ_vs_fields _ _ D) as (_ & Hi & _).
    rewrite fire_at_init in Hi. simpl in Hi. split; [done | congruence].
  - (* validate() *)
    destruct (validate_spec fuel h r d c Hr Hd Hx Hw) as (h' & c' & Hv & Hx' & SP & Hok' & D).
    exists h', c'. split; [done|]. split; [done|]. split; [done|]. split; [done|].
    destruct (differ_vs_fields _ _ D) as (_ & Hi & _ & He & _).
    rewrite fire_at_init in Hi. simpl in Hi. split; [congruence|].
    intros Hi'. rewrite He, fire_at_gate_closed; [done | simpl; congruence].
  - (* setValidators *)
    set (c1 := with_validators vs c).
    assert (SP1 : same_parents h (<[r := c1]> h)) by by apply (same_parents_insert h r c c1).
    assert (Hx1 : <[r := c1]> h !! r = Some c1) by by apply list_lookup_insert_eq.
    destruct (validate_spec fuel _ r d c1 (rooted_same_parents _ _ _ _ SP1 Hr) Hd Hx1 Hw)
      as (h' & c' & Hv & Hx' & SP & Hok' & D).
    exists h', c'. split; [unfold setValidators; by rewrite Hx|].
    split; [done|]. split; [by eapply same_parents_trans|]. split; [done|].
    destruct (differ_vs_fields _ _ D) as (_ & Hi & _ & He & _).
    rewrite fire_at_init in Hi. simpl in Hi. split; [congruence|].
    intros Hi'. rewrite He, fire_at_gate_closed; [done | simpl; congruence].
  - (* a source emits *)
    unfold emit. rewrite Hx.
    assert (Hidle : exists h' c', Some h = Some h' /\ h' !! r = Some c' /\
              same_parents h h' /\ subs_ok c' /\
              (initialized c = true -> initialized c' = true) /\
              (initialized c' = false -> errors c' = errors c)).
    { exists h, c. split; [done|]. split; [done|].
      split; [apply only_vs_same_parents, only_vs_refl|]. split; [done|]. by split. }
    destruct (validationSubs c !! k) as [sub|] eqn:Hk; [|exact Hidle].
    destruct (closed sub) eqn:Hc; [exact Hidle|].
    destruct (sources sub !! i) as [[?|]|] eqn:Hsrc; [exact Hidle| |exact Hidle].
    clear Hidle.
    assert (Hklast : k = pred (length (validationSubs c))).
    { destruct Hw as (_ & Hold & _). apply lookup_lt_Some in Hk as Hklt.
      destruct (decide (S k < length (validationSubs c))) as [Hs|Hs]; [|lia].
      rewrite (Hold k sub Hk Hs) in Hc. done. }
    set (sub' := mkSub (<[i := Some m]> (sources sub)) (closed sub) (delivered sub)).
    set (c_pre := with_validationSubs (<[k := sub']> (validationSubs c)) c).
    assert (Hw' : subs_weak c_pre).
    { destruct Hw as (Hall & Hold & Hlast). unfold c_pre. split; [|split]; simpl.
      - apply Forall_insert; [done|].
        pose proof (open_is_fresh _ _ (Forall_lookup_1 _ _ _ _ Hall Hk) Hc) as Hd0.
        split; simpl; [lia | intros; lia].
      - rewrite length_insert. intros j s Hj Hs.
        destruct (decide (k = j)) as [Heq|Hne]; [subst j; lia|].
        rewrite list_lookup_insert_ne in Hj by done. by eapply Hold.
      - intros s Hl Hcs. rewrite last_lookup, length_insert, <- Hklast in Hl.
        rewrite list_lookup_insert_eq in Hl by by eapply lookup_lt_Some.
        injection Hl as <-. simpl in Hcs. congruence. }
    destruct (deliver_last_step fuel h r d c c_pre Hr Hd Hx eq_refl Hw')
      as (h' & c' & Hdel & Hx' & SP & Hok' & D).
    assert (Hidx : pred (length (validationSubs c_pre)) = k).
    { unfold c_pre. simpl. by rewrite length_insert. }
    rewrite Hidx in Hdel, D.
    exists h', c'.
    split; [unfold c_pre, sub' in Hdel; rewrite Hc in Hdel; exact Hdel|].
    split; [done|]. split; [done|]. split; [done|].
    destruct (differ_vs_fields _ _ D) as (_ & Hi & _ & He & _).
    rewrite fire_at_init in Hi. simpl in Hi. split; [congruence|].
    intros Hi'. rewrite He, fire_at_gate_closed; [done | simpl; congruence].
  - (* setStatus *)
    destruct (setStatus_spec fuel h r d c ps Hr Hd Hx) as (h' & Hs & O & _ & _).
    destruct O as [OL OP]. destruct (OP r c Hx) as (c' & Hx' & D).
    exists h', c'. split; [done|]. split; [done|].
    split; [by apply only_vs_same_parents|]. split; [by eapply subs_ok_differ_vs|].
    destruct (differ_vs_fields _ _ D) as (_ & Hi & _ & He & _). split; congruence.
  - (* setValue *)
    set (c1 := with_value v c).
    assert (SP1 : same_parents h (<[r := c1]> h)) by by apply (same_parents_insert h r c c1).
    assert (Hx1 : <[r := c1]> h !! r = Some c1) by by apply list_lookup_insert_eq.
    destruct (setStatus_spec fuel _ r d c1 (mkPartial None None (Some true) (Some true) None)
                (rooted_same_parents _ _ _ _ SP1 Hr) Hd Hx1) as (h' & Hs & O & _ & _).
    destruct O as [OL OP]. destruct (OP r c1 Hx1) as (c' & Hx' & D).
    exists h', c'. split; [unfold FieldControl_setValue; by rewrite Hx|]. split; [done|].
    split; [eapply same_parents_trans; [exact SP1|]; by apply only_vs_same_parents|].
    split; [by eapply (subs_ok_differ_vs c1)|].
    destruct (differ_vs_fields _ _ D) as (_ & Hi & _ & He & _). simpl in *. split; congruence.
  - (* reset *)
    set (c1 := with_value (initialValue c) c).
    assert (SP1 : same_parents h (<[r := c1]> h)) by by apply (same_parents_insert h r c c1).
    assert (Hx1 : <[r := c1]> h !! r = Some c1) by by apply list_lookup_insert_eq.
    destruct (setStatus_spec fuel _ r d c1 (mkPartial None None (Some false) (Some false) None)
                (rooted_same_parents _ _ _ _ SP1 Hr) Hd Hx1) as (h' & Hs & O & _ & _).
    destruct O as [OL OP]. destruct (OP r c1 Hx1) as (c' & Hx' & D).
    exists h', c'. split; [unfold FieldControl_reset; by rewrite Hx|]. split; [done|].
    split; [eapply same_parents_trans; [exact SP1|]; by apply only_vs_same_parents|].
    split; [by eapply (subs_ok_differ_vs c1)|].
    destruct (differ_vs_fields _ _ D) as (_ & Hi & _ & He & _). simpl in *. split; congruence.
Qed.

Lemma run_spec fuel (evs : list (Event V)) : forall h r d c,
  rooted h r d -> d < fuel -> h !! r = Some c -> subs_ok c ->
  exists h' c',
    run callV fuel h r evs = Some h' /\ h' !! r = Some c' /\
    same_parents h h' /\ subs_ok c' /\
    (initialized c = true -> initialized c' = true) /\
    (initialized c' = false -> errors c' = errors c).
Proof.
  induction evs as [|ev evs IH]; intros h r d c Hr Hd Hx Hok.
  - exists h, c. split; [done|]. split; [done|].
    split; [apply only_vs_same_parents, only_vs_refl|]. split; [done|]. by split.
  - destruct (step_spec fuel h r d c ev Hr Hd Hx Hok)
      as (h1 & c1 & Hstep & Hx1 & SP1 & Hok1 & Hmono1 & Herr1).
    destruct (IH h1 r d c1 (rooted_same_parents _ _ _ _ SP1 Hr) Hd Hx1 Hok1)
      as (h' & c' & Hrun & Hx' & SP & Hok' & Hmono & Herr).
    exists h', c'. split; [unfold run in *; simpl; by rewrite Hstep|].
    split; [done|]. split; [by eapply same_parents_trans|]. split; [done|].
    split; [by auto|].
    intros Hi'. rewrite (Herr Hi'). apply Herr1.
    destruct (initialized c1) eqn:Hi1; [|done]. rewrite (Hmono eq_refl) in Hi'. done.
Qed.

Lemma no_delivery_before_gate c :
  subs_ok c -> initialized c = false ->
  Forall (fun sub => delivered sub = 0) (validationSubs c).
Proof.
  intros ((Hall & _) & _) Hi. eapply Forall_impl; [exact Hall|].
  intros sub [Hle H1]. destruct (delivered sub) as [|[|n]]; [done| |lia].
  destruct (H1 eq_refl) as (_ & Hg & _). congruence.
Qed.

Lemma current_delivers_iff_ready c sub :
  subs_ok c -> last (validationSubs c) = Some sub ->
  delivered sub = 1 <-> initialized c = true /\ is_Some (combined (sources sub)).
Proof.
  intros ((Hall & _ & Hlast) & Hopen) Hl. split.
  - intros Hd. rewrite last_lookup in Hl.
    destruct (Forall_lookup_1 _ _ _ _ Hall Hl) as [_ H1]. by destruct (H1 Hd) as (_ & ? & ?).
  - intros [Hi Hs]. destruct (closed sub) eqn:Hc; [by apply Hlast|].
    pose proof (Hopen sub Hl Hc) as Hf. unfold first_combined in Hf.
    rewrite Hc, Hi in Hf. simpl in Hf. rewrite Hf in Hs. by destruct Hs.
Qed.

(** What looking at a subscription that has not delivered writes. *)
Lemma fire_at_effect c k sub :
  validationSubs c !! k = Some sub -> delivered sub = 0 ->
  match first_combined c sub with
  | Some errs =>
      errors (fire_at c k) = errs /\
      validationSubs (fire_at c k) = <[k := mkSub (sources sub) true 1]> (validationSubs c)
  | None =>
      errors (fire_at c k) = errors c /\ validationSubs (fire_at c k) = validationSubs c
  end.
Proof.
  intros Hk Hd. unfold fire_at. rewrite Hk.
  destruct (first_combined c sub); [|done]. simpl. unfold completed. by rewrite Hd.
Qed.

(** [deliver] at a subscription that has not delivered: the subscriber
    runs exactly when the pipeline has a value, and then [errors] is that
    value and the subscription is completed with one delivery. *)
Lemma deliver_effect fuel h r d c c_pre k sub :
  rooted h r d -> d < fuel -> h !! r = Some c -> parent c_pre = parent c ->
  validationSubs c_pre !! k = Some sub -> delivered sub = 0 ->
  exists h' c',
    deliver fuel (<[r := c_pre]> h) r k = Some h' /\ h' !! r = Some c' /\
    initialized c' = initialized c_pre /\
    match first_combined c_pre sub with
    | Some errs =>
        errors c' = errs /\
        validationSubs c' = <[k := mkSub (sources sub) true 1]> (validationSubs c_pre)
    | None => errors c' = errors c_pre /\ validationSubs c' = validationSubs c_pre
    end.
Proof.
  intros Hr Hd Hx Hp Hk Hd0.
  assert (SP : same_parents h (<[r := c_pre]> h)) by by apply (same_parents_insert h r c c_pre).
  assert (Hx0 : <[r := c_pre]> h !! r = Some c_pre).
  { apply list_lookup_insert_eq. by eapply lookup_lt_Some. }
  destruct (deliver_spec fuel _ r k d c_pre (rooted_same_parents _ _ _ _ SP Hr) Hd Hx0)
    as (h' & c' & Hdel & Hx' & _ & D).
  exists h', c'. split; [done|]. split; [done|].
  destruct (differ_vs_fields _ _ D) as (_ & Hi & Hs & He & _).
  rewrite fire_at_init in Hi. split; [done|].
  pose proof (fire_at_effect c_pre k sub Hk Hd0) as Heff.
  destruct (first_combined c_pre sub); destruct Heff as [He' Hs']; split; congruence.
Qed.

Lemma open_sub_fresh c k sub :
  subs_ok c -> validationSubs c !! k = Some sub -> closed sub = false -> delivered sub = 0.
Proof.
  intros ((Hall & _) & _) Hk Hc. eapply open_is_fresh; [|exact Hc].
  eapply Forall_lookup_1; [exact Hall | exact Hk].
Qed.

(** The gate opens: the current subscription publishes if its sources
    have all emitted. *)
Lemma gate_effect fuel h r d c sub :
  rooted h r d -> d < fuel -> h !! r = Some c -> subs_ok c ->
  initialized c = false -> last (validationSubs c) = Some sub ->
  exists h' c',
    initialized_next fuel h r = Some h' /\ h' !! r = Some c' /\
    initialized c' = true /\
    match combined (sources sub) with
    | Some errs =>
        errors c' = errs /\
        validationSubs c' =
          <[pred (length (validationSubs c)) := mkSub (sources sub) true 1]> (validationSubs c)
    | None => errors c' = errors c /\ validationSubs c' = validationSubs c
    end.
Proof.
  intros Hr Hd Hx Hok Hi Hl.
  pose proof (no_delivery_before_gate c Hok Hi) as Hnone.
  rewrite last_lookup in Hl.
  assert (Hd0 : delivered sub = 0) by (eapply Forall_lookup_1 in Hnone; [exact Hnone|exact Hl]).
  assert (Hc : closed sub = false).
  { destruct (closed sub) eqn:Hc; [|done]. destruct Hok as ((_ & _ & Hlast) & _).
    rewrite (Hlast sub) in Hd0; [done| by rewrite last_lookup |done]. }
  destruct (deliver_effect fuel h r d c (with_initialized true c)
              (pred (length (validationSubs c))) sub Hr Hd Hx eq_refl Hl Hd0)
    as (h' & c' & Hdel & Hx' & Hi' & Heff).
  exists h', c'. split; [unfold initialized_next; by rewrite Hx|]. split; [done|].
  split; [done|].
  unfold first_combined in Heff. rewrite Hc in Heff. exact Heff.
Qed.

(** A source hands its first value to an open subscription: the value is
    recorded, and the subscription publishes if that completes its sources
    on an open gate. *)
Lemma emit_effect fuel h r d c k i (m : option Messages) sub :
  rooted h r d -> d < fuel -> h !! r = Some c -> subs_ok c ->
  validationSubs c !! k = Some sub -> closed sub = false -> sources sub !! i = Some None ->
  exists h' c',
    emit fuel h r k i m = Some h' /\ h' !! r = Some c' /\
    match (if initialized c then combined (<[i := Some m]> (sources sub)) else None) with
    | Some errs =>
        errors c' = errs /\
        validationSubs c' =
          <[k := mkSub (<[i := Some m]> (sources sub)) true 1]> (validationSubs c)
    | None =>
        errors c' = errors c /\
        validationSubs c' =
          <[k := mkSub (<[i := Some m]> (sources sub)) false 0]> (validationSubs c)
    end.
Proof.
  intros Hr Hd Hx Hok Hk Hc Hsrc.
  pose proof (open_sub_fresh c k sub Hok Hk Hc) as Hd0.
  assert (Hklt : k < length (validationSubs c)) by by eapply lookup_lt_Some.
  set (sub' := mkSub (<[i := Some m]> (sources sub)) false 0).
  set (c_pre := with_validationSubs (<[k := sub']> (validationSubs c)) c).
  assert (Hk' : validationSubs c_pre !! k = Some sub') by by apply list_lookup_insert_eq.
  destruct (deliver_effect fuel h r d c c_pre k sub' Hr Hd Hx eq_refl Hk' eq_refl)
    as (h' & c' & Hdel & Hx' & _ & Heff).
  exists h', c'. split.
  { unfold emit. rewrite Hx, Hk, Hc, Hsrc. rewrite Hd0. exact Hdel. }
  split; [done|].
  unfold first_combined in Heff. simpl in Heff.
  destruct (initialized c); simpl in Heff; [|exact Heff].
  destruct (combined (<[i := Some m]> (sources sub))); [|exact Heff].
  destruct Heff as [He Hs]. split; [done|]. by rewrite Hs, list_insert_insert_eq.
Qed.

(** [validate()]: the earlier subscription is closed without a delivery,
    one new subscription is made over the validators' answers, and it
    publishes at once exactly when the gate is open and every validator
    has answered. *)
Lemma validate_effect fuel h r d c :
  rooted h r d -> d < fuel -> h !! r = Some c ->
  let olds := alter unsubscribe (pred (length (validationSubs c))) (validationSubs c) in
  let srcs := map (fun v => match callV v h r with
                            | Now m => Some m
                            | Later => None
                            end) (validators c) in
  exists h' c',
    validate callV fuel h r = Some h' /\ h' !! r = Some c' /\
    match (if initialized c then combined srcs else None) with
    | Some errs => errors c' = errs /\ validationSubs c' = olds ++ [mkSub srcs true 1]
    | None => errors c' = errors c /\ validationSubs c' = olds ++ [mkSub srcs false 0]
    end.
Proof.
  intros Hr Hd Hx olds srcs.
  set (c_pre := with_validationSubs (olds ++ [mkSub srcs false 0]) c).
  assert (Hk : validationSubs c_pre !! length olds = Some (mkSub srcs false 0)).
  { by apply list_lookup_middle. }
  destruct (deliver_effect fuel h r d c c_pre (length olds) (mkSub srcs false 0)
              Hr Hd Hx eq_refl Hk eq_refl)
    as (h' & c' & Hdel & Hx' & _ & Heff).
  exists h', c'. split; [unfold validate; by rewrite Hx|]. split; [done|].
  unfold first_combined in Heff. simpl in Heff.
  destruct (initialized c); simpl in Heff; [|exact Heff].
  destruct (combined srcs); [|exact Heff].
  destruct Heff as [He Hs]. split; [done|]. rewrite Hs.
  rewrite <- (Nat.add_0_r (length olds)). by rewrite insert_app_r.
Qed.

(** [setStatus], [setValue] and [reset] publish nothing. *)
Lemma mutators_publish_nothing fuel h r d c (ev : Event V) :
  rooted h r d -> d < fuel -> h !! r = Some c ->
  match ev with EvSetStatus _ | EvSetValue _ | EvReset => True | _ => False end ->
  exists h' c',
    step callV fuel h r ev = Some h' /\ h' !! r = Some c' /\
    errors c' = errors c /\ validationSubs c' = validationSubs c.
Proof.
  intros Hr Hd Hx Hev.
  assert (Hlt : r < length h) by by eapply lookup_lt_Some.
  assert (Hgen : forall c1 ps, parent c1 = parent c ->
            exists h' c', setStatus fuel (<[r := c1]> h) r ps = Some h' /\
                          h' !! r = Some c' /\ differ_vs c1 c').
  { intros c1 ps Hp.
    assert (SP1 : same_parents h (<[r := c1]> h)) by by apply (same_parents_insert h r c c1).
    assert (Hx1 : <[r := c1]> h !! r = Some c1) by by apply list_lookup_insert_eq.
    destruct (setStatus_spec fuel _ r d c1 ps (rooted_same_parents _ _ _ _ SP1 Hr) Hd Hx1)
      as (h' & Hs & [_ OP] & _ & _).
    destruct (OP r c1 Hx1) as (c' & Hx' & D). by exists h', c'. }
  destruct ev as [| |vs|k i m|ps|v|]; try done; simpl.
  - destruct (Hgen c ps eq_refl) as (h' & c' & Hs & Hx' & D).
    rewrite list_insert_id in Hs by done.
    exists h', c'. split; [done|]. split; [done|].
    destruct (differ_vs_fields _ _ D) as (_ & _ & ? & ? & _). by split.
  - destruct (Hgen (with_value v c) (mkPartial None None (Some true) (Some true) None) eq_refl)
      as (h' & c' & Hs & Hx' & D).
    exists h', c'. split; [unfold FieldControl_setValue; by rewrite Hx|]. split; [done|].
    destruct (differ_vs_fields _ _ D) as (_ & _ & ? & ? & _). by split.
  - destruct (Hgen (with_value (initialValue c) c)
                (mkPartial None None (Some false) (Some false) None) eq_refl)
      as (h' & c' & Hs & Hx' & D).
    exists h', c'. split; [unfold FieldControl_reset; by rewrite Hx|]. split; [done|].
    destruct (differ_vs_fields _ _ D) as (_ & _ & ? & ? & _). by split.
Qed.

Lemma run_snoc fuel h r (evs : list (Event V)) (ev : Event V) :
  run callV fuel h r (evs ++ [ev]) =
  match run callV fuel h r evs with
  | Some h' => step callV fuel h' r ev
  | None => None
  end.
Proof.
  unfold run. revert h. induction evs as [|e evs IH]; intros h; simpl.
  - by destruct (step callV fuel h r ev).
  - destruct (step callV fuel h r e); [apply IH | done].
Qed.

(** C6. Whatever calls and deliveries reach the validation of a control,
    in whatever order: the control keeps returning, no subscription hands
    a result to [errors] while the gate is closed ([errors] is what it was
    and every subscription has delivered nothing), every subscription
    delivers at most once, and the current one has delivered exactly once
    as soon as the gate is open and each of its sources has emitted; a
    subscription that has delivered or was unsubscribed ignores later
    emissions; and [setValidators], with any list, closes every earlier
    subscription without a further delivery and starts one subscription,
    which, on an open gate with validators that answer at once, delivers
    exactly once, at once. A delivery is a write to [errors]: from the
    state reached, the gate's opening writes the combined result of the
    current subscription if its sources have all emitted; the first value of
    a source is recorded, and it writes the combined result when it
    completes the sources on an open gate; a second value of a source is
    ignored; [validate()] closes the earlier subscription, calls every
    validator once and writes the combined result at once if the gate is
    open and all of them have answered; in each case the subscription that
    wrote is completed with its one delivery, and in every other case
    [errors] is left as it was. [setStatus], [setValue] and [reset] write
    nothing. *)
Theorem validation_publishes_once_after_gate fuel (evs : list (Event V)) h r d c :
  h !! r = Some c -> subs_ok c -> rooted h r d -> d < fuel ->
  exists h' c',
    run callV fuel h r evs = Some h' /\ h' !! r = Some c' /\
    (initialized c' = false ->
       errors c' = errors c /\
       Forall (fun sub => delivered sub = 0) (validationSubs c')) /\
    Forall (fun sub => delivered sub <= 1) (validationSubs c') /\
    (forall sub, last (validationSubs c') = Some sub ->
       delivered sub = 1 <-> initialized c' = true /\ is_Some (combined (sources sub))) /\
    (forall k i m sub, validationSubs c' !! k = Some sub -> closed sub = true ->
       emit fuel h' r k i m = Some h') /\
    (forall vs, exists h'' c'' new,
       setValidators callV fuel h' r vs = Some h'' /\ h'' !! r = Some c'' /\
       let olds := alter unsubscribe (pred (length (validationSubs c'))) (validationSubs c') in
       let srcs := map (fun v => match callV v (<[r := with_validators vs c']> h') r with
                                 | Now m => Some m
                                 | Later => None
                                 end) vs in
       validationSubs c'' = olds ++ [new] /\
       Forall (fun sub => closed sub = true) olds /\
       map delivered olds = map delivered (validationSubs c') /\
       sources new = srcs /\
       delivered new <= 1 /\
       (initialized c' = true -> forallb notNullish srcs = true ->
          delivered new = 1 /\ closed new = true /\
          errors c'' = merge_results (filter_notNullish (filter_notNullish srcs)))) /\
    (forall ev, run callV fuel h r (evs ++ [ev]) = step callV fuel h' r ev) /\
    (initialized c' = false ->
     forall sub, last (validationSubs c') = Some sub ->
     exists h'' c'',
       initialized_next fuel h' r = Some h'' /\ h'' !! r = Some c'' /\
       initialized c'' = true /\
       match combined (sources sub) with
       | Some errs =>
           errors c'' = errs /\
           validationSubs c'' =
             <[pred (length (validationSubs c')) := mkSub (sources sub) true 1]>
               (validationSubs c')
       | None => errors c'' = errors c' /\ validationSubs c'' = validationSubs c'
       end) /\
    (forall k i m sub,
       validationSubs c' !! k = Some sub -> closed sub = false ->
       sources sub !! i = Some None ->
       exists h'' c'',
         emit fuel h' r k i m = Some h'' /\ h'' !! r = Some c'' /\
         match (if initialized c' then combined (<[i := Some m]> (sources sub)) else None) with
         | Some errs =>
             errors c'' = errs /\
             validationSubs c'' =
               <[k := mkSub (<[i := Some m]> (sources sub)) true 1]> (validationSubs c')
         | None =>
             errors c'' = errors c' /\
             validationSubs c'' =
               <[k := mkSub (<[i := Some m]> (sources sub)) false 0]> (validationSubs c')
         end) /\
    (forall k i m m0 sub,
       validationSubs c' !! k = Some sub -> sources sub !! i = Some (Some m0) ->
       emit fuel h' r k i m = Some h') /\
    (exists h'' c'',
       validate callV fuel h' r = Some h'' /\ h'' !! r = Some c'' /\
       let olds := alter unsubscribe (pred (length (validationSubs c'))) (validationSubs c') in
       let srcs := map (fun v => match callV v h' r with
                                 | Now m => Some m
                                 | Later => None
                                 end) (validators c') in
       match (if initialized c' then combined srcs else None) with
       | Some errs => errors c'' = errs /\ validationSubs c'' = olds ++ [mkSub srcs true 1]
       | None => errors c'' = errors c' /\ validationSubs c'' = olds ++ [mkSub srcs false 0]
       end) /\
    (forall ev,
       match ev with EvSetStatus _ | EvSetValue _ | EvReset => True | _ => False end ->
       exists h'' c'',
         step callV fuel h' r ev = Some h'' /\ h'' !! r = Some c'' /\
         errors c'' = errors c' /\ validationSubs c'' = validationSubs c').
Proof.
  intros Hx Hok Hr Hd.
  destruct (run_spec fuel evs h r d c Hr Hd Hx Hok)
    as (h' & c' & Hrun & Hx' & SP & Hok' & Hmono & Herr).
  exists h', c'. split; [done|]. split; [done|].
  pose proof (rooted_same_parents _ _ _ _ SP Hr) as Hr'.
  split; [|split; [|split; [|split; [|split; [|split; [|split; [|split; [|split; [|split]]]]]]]]].
  11:{ intros ev Hev. exact (mutators_publish_nothing fuel h' r d c' ev Hr' Hd Hx' Hev). }
  10:{ exact (validate_effect fuel h' r d c' Hr' Hd Hx'). }
  9:{ intros k i m m0 sub Hk Hsrc. unfold emit. rewrite Hx', Hk, Hsrc.
      by destruct (closed sub). }
  8:{ intros k i m sub Hk Hc Hsrc.
      exact (emit_effect fuel h' r d c' k i m sub Hr' Hd Hx' Hok' Hk Hc Hsrc). }
  7:{ intros Hi sub Hl. exact (gate_effect fuel h' r d c' sub Hr' Hd Hx' Hok' Hi Hl). }
  6:{ intros ev. by rewrite run_snoc, Hrun. }
  - intros Hi. split; [by apply Herr | by apply no_delivery_before_gate].
  - destruct Hok' as ((Hall & _) & _). eapply Forall_impl; [exact Hall|]. by intros sub [? _].
  - intros sub. by apply current_delivers_iff_ready.
  - intros k i m sub Hk Hc. unfold emit. by rewrite Hx', Hk, Hc.
  - intros vs.
    set (c1 := with_validators vs c').
    assert (SP1 : same_parents h' (<[r := c1]> h')) by by apply (same_parents_insert h' r c' c1).
    assert (Hx1 : <[r := c1]> h' !! r = Some c1).
    { apply list_lookup_insert_eq. by eapply lookup_lt_Some. }
    pose proof Hok' as [Hw' _].
    destruct (validate_spec fuel _ r d c1 (rooted_same_parents _ _ _ _ SP1 Hr') Hd Hx1 Hw')
      as (h'' & c'' & Hv & Hx'' & _ & Hok'' & D).
    simpl in D.
    destruct (differ_vs_fields _ _ D) as (_ & Hi & Hs & He & _).
    rewrite fire_at_init in Hi. simpl in Hi.
    set (olds := alter unsubscribe (pred (length (validationSubs c'))) (validationSubs c')) in *.
    set (srcs := map (fun v => match callV v (<[r := c1]> h') r with
                               | Now m => Some m
                               | Later => None
                               end) vs) in *.
    assert (Holds : Forall (fun sub => closed sub = true) olds).
    { apply Forall_lookup. intros j sub Hj. by eapply (resubscribed_olds_closed c'). }
    assert (Hdel : map delivered olds = map delivered (validationSubs c')).
    { unfold olds. apply list_eq. intros j. rewrite !list_lookup_fmap.
      destruct (decide (pred (length (validationSubs c')) = j)) as [Heq|Hne].
      - rewrite <- Heq, list_lookup_alter_eq.
        by destruct (validationSubs c' !! pred (length (validationSubs c'))).
      - by rewrite list_lookup_alter_ne. }
    assert (Hnew : resubscribed c1 srcs = with_validationSubs (olds ++ [mkSub srcs false 0]) c1)
      by reflexivity.
    assert (Hlen : length (validationSubs c') = length olds) by (unfold olds; by rewrite length_alter).
    unfold fire_at in Hs, He. rewrite Hnew in Hs, He. simpl in Hs, He.
    change (validationSubs c1) with (validationSubs c') in Hs, He.
    rewrite Hlen in Hs, He.
    rewrite lookup_app_r in Hs, He by lia. rewrite Nat.sub_diag in Hs, He. simpl in Hs, He.
    unfold first_combined in Hs, He. simpl in Hs, He.
    change (initialized c1) with (initialized c') in Hs, He.
    destruct (initialized c') eqn:Hi'; simpl in Hs, He.
    + destruct (combined srcs) as [errs|] eqn:Hcomb; simpl in Hs, He.
      * exists h'', c'', (completed (mkSub srcs false 0)).
        split; [unfold setValidators; by rewrite Hx'|]. split; [done|].
        split.
        { rewrite Hs. rewrite <- (Nat.add_0_r (length olds)).
          by rewrite insert_app_r. }
        split; [done|]. split; [done|]. split; [done|]. split; [simpl; lia|].
        intros _ Hall. split; [done|]. split; [done|]. rewrite He.
        unfold combined in Hcomb. rewrite Hall in Hcomb. congruence.
      * exists h'', c'', (mkSub srcs false 0).
        split; [unfold setValidators; by rewrite Hx'|]. split; [done|].
        split; [done|]. split; [done|]. split; [done|]. split; [done|]. split; [simpl; lia|].
        intros _ Hall. unfold combined in Hcomb. by rewrite Hall in Hcomb.
    + exists h'', c'', (mkSub srcs false 0).
      split; [unfold setValidators; by rewrite Hx'|]. split; [done|].
      split; [done|]. split; [done|]. split; [done|]. split; [done|]. split; [simpl; lia|].
      done.
Qed.

End ValidationFacts.

(** ** Parent back-references *)

Section ParentFacts.

Context {V F : Type}.
Variable callV : V -> Heap V F -> ref -> VResult.
Implicit Types (h : Heap V F) (c : Control V F) (r p x : ref).

Lemma register_all_parent (items : list ref) h this x c :
  h !! x = Some c -> x ∈ items ->
  parent (foldl (fun h control => registerControl h this control) h items !!! x) = Some this.
Proof.
  intros Hx Hin. pose proof (register_all_lookup items h this x) as Hl.
  rewrite Hx, decide_True in Hl by done. simpl in Hl.
  by rewrite (list_lookup_total_correct _ _ _ Hl).
Qed.

Lemma push_parent h this items x c :
  h !! x = Some c -> x ∈ items -> parent (push h this items !!! x) = Some this.
Proof.
  intros Hx Hin. unfold push.
  destruct (decide (this = x)) as [Heq|Hne].
  - subst x. eapply register_all_parent; [|done]. by rewrite list_lookup_alter_eq, Hx.
  - eapply register_all_parent; [|done]. by rewrite list_lookup_alter_ne.
Qed.

Lemma same_parents_lookup_total h h' x c :
  same_parents h h' -> h !! x = Some c -> parent (h' !!! x) = parent c.
Proof.
  intros [_ P] Hx. destruct (P x c Hx) as (c' & Hx' & Hp).
  by rewrite (list_lookup_total_correct _ _ _ Hx').
Qed.

Lemma subs_weak_fresh c : validationSubs c = [] -> subs_weak c.
Proof.
  intros Hs. unfold subs_weak. rewrite Hs.
  split; [by apply Forall_nil|]. split; [by intros ? ? ?|by intros ? ?].
Qed.

(** [new GroupControl(controls, opts)] over controls that exist: it
    returns, and every child points at the new group. *)
Lemma new_GroupControl_spec fuel h (controls : list (string * ref)) opts :
  0 < fuel -> Forall (fun control => control < length h) (map snd controls) ->
  exists h',
    new_GroupControl callV fuel h controls opts = Some (length h, h') /\
    forall control, control ∈ map snd controls -> parent (h' !!! control) = Some (length h).
Proof.
  intros Hfuel Hexist.
  set (r := length h).
  set (v0 := reduceControls h controls (opts_disabled opts)).
  set (c0 := mkControl (F:=F) None v0 v0 initial_status None false
               (default [] (opt_validators opts)) [] (KGroup controls)).
  assert (Hx0 : (h ++ [c0]) !! r = Some c0) by apply list_lookup_middle, eq_refl.
  assert (Hr0 : rooted (h ++ [c0]) r 0) by by eapply rooted_top.
  destruct (validate_spec callV fuel _ r 0 c0 Hr0 Hfuel Hx0 (subs_weak_fresh c0 eq_refl))
    as (h1 & c1 & Hv & Hx1 & SP1 & Hok1 & D1).
  rewrite fire_at_gate_closed in D1 by done.
  destruct (differ_vs_fields _ _ D1) as (Hp1 & Hi1 & _ & _ & _ & Hk1 & _).
  simpl in Hp1, Hi1, Hk1.
  assert (Hcons : FieldControl_construct callV fuel h (KGroup controls) v0 opts = Some (r, h1)).
  { unfold FieldControl_construct. fold r. fold c0. rewrite Hv.
    unfold fieldReady. by rewrite Hx1, Hk1. }
  set (v2 := reduceControls h1 controls (opts_disabled opts)).
  set (c2 := with_value v2 c1).
  assert (Hx2 : alter (with_value v2) r h1 !! r = Some c2).
  { by rewrite list_lookup_alter_eq, Hx1. }
  assert (Hok2 : subs_ok c2).
  { eapply subs_ok_differ_vs; [|exact Hok1]. unfold c2, differ_vs. by destruct c1. }
  assert (Hnotin : r ∉ map snd controls).
  { intros Hin. eapply Forall_forall in Hexist; [|exact Hin]. unfold r in Hexist. lia. }
  set (h3 := foldl (fun h0 control => registerControl h0 r control)
                   (alter (with_value v2) r h1) (map snd controls)).
  assert (Hx3 : h3 !! r = Some c2).
  { unfold h3. rewrite register_all_lookup, Hx2, decide_False by done. done. }
  assert (Hr3 : rooted h3 r 0) by by eapply rooted_top.
  assert (Hw3 : subs_weak (with_initialized true c2)).
  { destruct Hok2 as ((Hall & Hold & Hlast) & _). split; [|done]. simpl.
    eapply Forall_impl; [exact Hall|]. intros sub. apply sub_ok_gate_open. }
  destruct (deliver_last_step fuel h3 r 0 c2 (with_initialized true c2) Hr3 Hfuel Hx3
              eq_refl Hw3)
    as (h4 & c4 & Hdel & Hx4 & SP4 & _ & _).
  assert (Hready : groupReady fuel h3 r = Some h4).
  { unfold groupReady, initialized_next. by rewrite Hx3. }
  exists h4. split.
  { unfold new_GroupControl. fold v0. rewrite Hcons. fold v2. fold h3. by rewrite Hready. }
  intros control Hin.
  assert (Hlt : control < length (alter (with_value v2) r h1)).
  { rewrite length_alter. destruct SP1 as [-> _]. rewrite length_app. simpl.
    eapply Forall_forall in Hexist; [|exact Hin]. simpl in Hexist. lia. }
  destruct (lookup_lt_is_Some_2 _ _ Hlt) as [cc Hcc].
  assert (Hc3 : h3 !! control = Some (with_parent (Some r) cc)).
  { unfold h3. by rewrite register_all_lookup, Hcc, decide_True. }
  by rewrite (same_parents_lookup_total _ _ _ _ SP4 Hc3).
Qed.

(** C8, as the code has it. [setParent] is a plain assignment:
    [registerControl], [push], [insert] and the construction of a group set
    the parent of every control they register to the registering composite,
    whatever parent the control had; the control points at the composite
    that registered it last. The visitor's second pass alone tests the
    reference: it leaves a control that has a parent as it is, and attaches
    the parent it was given to a control that has none. *)
Theorem registering_assigns_parent_unguarded h (this : ref) :
  (forall control c, h !! control = Some c ->
     parent (registerControl h this control !!! control) = Some this) /\
  (forall items control c, h !! control = Some c -> control ∈ items ->
     parent (push h this items !!! control) = Some this) /\
  (forall index item c, h !! item = Some c ->
     parent (insert_ h this index item !!! item) = Some this) /\
  (forall fuel controls opts,
     0 < fuel -> Forall (fun control => control < length h) (map snd controls) ->
     exists h', new_GroupControl callV fuel h controls opts = Some (length h, h') /\
                forall control, control ∈ map snd controls ->
                                parent (h' !!! control) = Some (length h)) /\
  (forall control c p q, h !! control = Some c -> parent c = Some p ->
     initItem_parent h control q = h) /\
  (forall control c p, h !! control = Some c -> parent c = None ->
     parent (initItem_parent h control (Some p) !!! control) = Some p).
Proof.
  split; [|split; [|split; [|split; [|split]]]].
  - intros control c Hx. apply (register_all_parent [control] h this control c Hx).
    by apply list_elem_of_singleton.
  - intros items control c Hx Hin. by eapply push_parent.
  - intros index item c Hx. unfold insert_.
    set (h1 := alter _ this h).
    assert (exists c1, h1 !! item = Some c1) as [c1 Hx1].
    { apply lookup_lt_is_Some_2. unfold h1. rewrite length_alter. by eapply lookup_lt_Some. }
    apply (register_all_parent [item] h1 this item c1 Hx1). by apply list_elem_of_singleton.
  - intros fuel controls opts. apply new_GroupControl_spec.
  - intros control c p q Hx Hp. unfold initItem_parent.
    by rewrite (list_lookup_total_correct _ _ _ Hx), Hp.
  - intros control c p Hx Hp. unfold initItem_parent.
    rewrite (list_lookup_total_correct _ _ _ Hx), Hp.
    apply (register_all_parent [control] h p control c Hx). by apply list_elem_of_singleton.
Qed.

End ParentFacts.

(** ** Composite status *)

Section StatusFacts.

Context {V F : Type}.
Implicit Types (h : Heap V F) (c : Control V F) (r p x : ref).

Lemma flag_or_status f a b : flag f (or_status a b) = flag f a || flag f b.
Proof. by destruct f. Qed.

Lemma flag_aggregate f h c :
  flag f (aggregate h c) =
  flag f (status c) || existsb (fun ch => flag f (status (h !!! ch))) (children c).
Proof.
  unfold aggregate. generalize (status c). induction (children c) as [|ch l IH]; intros s; simpl.
  - by rewrite orb_false_r.
  - by rewrite IH, flag_or_status, orb_assoc.
Qed.

Lemma existsb_ext_in {A} (f g : A -> bool) (l : list A) :
  (forall a, a ∈ l -> f a = g a) -> existsb f l = existsb g l.
Proof.
  induction l as [|a l IH]; intros Hfg; simpl; [done|].
  rewrite (Hfg a) by by left. rewrite IH; [done|]. intros b Hb. apply Hfg. by right.
Qed.

Lemma children_recompute h c : children (recompute_value h c) = children c.
Proof. unfold recompute_value, children. by destruct c as [? ? ? ? ? ? ? ? []]. Qed.

Lemma status_recompute h c : status (recompute_value h c) = status c.
Proof. unfold recompute_value. by destruct c as [? ? ? ? ? ? ? ? []]. Qed.

(** A registered child is not on the parent chain of its composite. *)
Lemma registered_child_off_chain h r d c ch :
  rooted h r d -> h !! r = Some c -> children_registered h r c -> ch ∈ children c ->
  ~ on_chain h r ch.
Proof.
  intros Hr Hx Hreg Hin Hc. destruct (Hreg ch Hin) as (cc & Hcc & Hp).
  destruct (chain_depth _ _ _ _ Hr Hc) as (d' & Hd' & Hle).
  pose proof (rooted_up h ch cc r d Hcc Hp Hr) as Hch.
  pose proof (rooted_fun _ _ _ _ Hd' Hch). lia.
Qed.

Lemma registered_child_ne h r d c ch :
  rooted h r d -> h !! r = Some c -> children_registered h r c -> ch ∈ children c -> ch <> r.
Proof.
  intros Hr Hx Hreg Hin ->. eapply registered_child_off_chain; [done..|]. constructor.
Qed.

(** [update] run on an initialized composite with registered children:
    every flag of the composite becomes its former value or-ed over the
    children's, read in the store [update] leaves. *)
Lemma update_aggregates fuel h r d c :
  rooted h r d -> d < fuel -> h !! r = Some c -> initialized c = true ->
  children_registered h r c ->
  exists h' c',
    update fuel h r = Some h' /\ h' !! r = Some c' /\ children c' = children c /\
    only_vs h h' /\
    forall f, flag f (status c') =
              flag f (status c) ||
              existsb (fun ch => flag f (status (h' !!! ch))) (children c').
Proof.
  intros Hr Hd Hx Hi Hreg.
  destruct (update_spec fuel h r d c Hr Hd Hx) as (h' & Hu & O & Hoff & Hself).
  rewrite Hi in Hself.
  set (c' := with_status (aggregate h (recompute_value h c)) (recompute_value h c)) in *.
  assert (Hch : children c' = children c) by apply children_recompute.
  exists h', c'. split; [done|]. split; [exact Hself|]. split; [done|]. split; [done|].
  intros f. rewrite Hch.
  change (status c') with (aggregate h (recompute_value h c)).
  rewrite flag_aggregate, status_recompute, children_recompute.
  f_equal. apply existsb_ext_in. intros ch Hin.
  rewrite !list_lookup_total_alt, Hoff; [done|].
  by eapply registered_child_off_chain.
Qed.

Lemma status_after_fmap h h' x (g : Control V F -> Control V F) :
  h' !! x = g <$> h !! x -> (forall c, status (g c) = status c) ->
  status (h' !!! x) = status (h !!! x).
Proof.
  intros Hl Hg. rewrite !list_lookup_total_alt, Hl.
  destruct (h !! x) as [c|]; simpl; [apply Hg | done].
Qed.

Lemma status_after_alter h r x (g : Control V F -> Control V F) :
  (forall c, status (g c) = status c) -> status (alter g r h !!! x) = status (h !!! x).
Proof.
  intros Hg. destruct (decide (r = x)) as [Heq|Hne].
  - subst x. by apply (status_after_fmap h _ r g); [apply list_lookup_alter_eq|].
  - apply (status_after_fmap h _ x id); [|done].
    rewrite list_lookup_alter_ne by done. by destruct (h !! x).
Qed.

Lemma status_set_controls controls c : status (set_controls controls c) = status c.
Proof. unfold set_controls. by destruct (kind c). Qed.

Lemma status_after_register_all items h this x :
  status (foldl (fun h control => registerControl h this control) h items !!! x) =
  status (h !!! x).
Proof.
  apply (status_after_fmap h _ x
           (if decide (x ∈ items) then with_parent (Some this) else id)).
  - apply register_all_lookup.
  - intros c. by destruct (decide (x ∈ items)).
Qed.

Lemma self_parent_not_rooted h r d c : rooted h r d -> h !! r = Some c -> parent c <> Some r.
Proof.
  intros Hr Hx Hp. pose proof (rooted_up h r c r d Hx Hp Hr) as Hr'.
  pose proof (rooted_fun _ _ _ _ Hr Hr'). lia.
Qed.

(** [push], [insert] and [removeAt] do not run [update()]: they leave
    every status in the store as it was. *)
Lemma structural_edits_keep_status h r x :
  (forall items, status (push h r items !!! x) = status (h !!! x)) /\
  (forall index item, status (insert_ h r index item !!! x) = status (h !!! x)) /\
  (forall index, status (removeAt h r index !!! x) = status (h !!! x)).
Proof.
  split; [|split].
  - intros items. unfold push. rewrite status_after_register_all.
    apply status_after_alter. intros c0. apply status_set_controls.
  - intros index item. unfold insert_, registerControl, setParent.
    rewrite status_after_alter by done.
    apply status_after_alter. intros c0. apply status_set_controls.
  - intros index. unfold removeAt.
    apply status_after_alter. intros c0. apply status_set_controls.
Qed.

(** C2, as the code has it. On an initialized composite whose children
    point at it, after [setStatus] on the composite, after [setStatus] on
    one of its children, and after [clear()] on an array, each of the five
    status fields of the composite is the value the field had on the
    composite before [update()] ran (with the patch of [setStatus]
    applied), or-ed over the field of every current child. A child whose
    field is true makes the composite's field true; the composite's former
    status is the accumulator, so a field that is true stays true, also
    when [clear()] leaves the array without children. *)
Theorem update_ors_children_into_status fuel h r d c :
  h !! r = Some c -> initialized c = true -> rooted h r d -> S d < fuel ->
  children_registered h r c ->
  (forall ps, exists h' c',
      setStatus fuel h r ps = Some h' /\ h' !! r = Some c' /\
      children c' = children c /\
      forall f, flag f (status c') =
                flag f (spread_status (status c) ps) ||
                existsb (fun ch => flag f (status (h' !!! ch))) (children c')) /\
  (forall ch cc ps,
      h !! ch = Some cc -> parent cc = Some r -> initialized cc = true ->
      exists h' c',
        setStatus fuel h ch ps = Some h' /\ h' !! r = Some c' /\
        children c' = children c /\
        forall f, flag f (status c') =
                  flag f (status c) ||
                  existsb (fun x => flag f (status (h' !!! x))) (children c')) /\
  (forall f0 controls,
      kind c = KArray f0 controls ->
      exists h' c',
        clear fuel h r = Some h' /\ h' !! r = Some c' /\ children c' = [] /\
        forall f, flag f (status c') =
                  flag f (spread_status (status c)
                            (mkPartial None None (Some true) (Some true) None))).
Proof.
  intros Hx Hi Hr Hd Hreg. split; [|split].
  - intros ps. unfold setStatus. rewrite Hx.
    set (c0 := with_status (spread_status (status c) ps) c).
    assert (SP : same_parents h (<[r := c0]> h)) by by apply (same_parents_insert h r c c0).
    assert (Hx0 : <[r := c0]> h !! r = Some c0).
    { apply list_lookup_insert_eq. by eapply lookup_lt_Some. }
    assert (Hreg0 : children_registered (<[r := c0]> h) r c0).
    { intros ch Hin. destruct (Hreg ch Hin) as (cc & Hcc & Hp). exists cc. split; [|done].
      rewrite list_lookup_insert_ne; [done|].
      intros Heq. by apply (registered_child_ne h r d c ch Hr Hx Hreg Hin). }
    destruct (update_aggregates fuel _ r d c0 (rooted_same_parents _ _ _ _ SP Hr)
                ltac:(lia) Hx0 Hi Hreg0) as (h' & c' & Hu & Hx' & Hch & _ & Hfl).
    exists h', c'. split; [done|]. split; [done|]. split; [done|]. exact Hfl.
  - intros ch cc ps Hcc Hp Hic. unfold setStatus. rewrite Hcc.
    destruct fuel as [|fuel']; [lia|].
    set (cc0 := with_status (spread_status (status cc) ps) cc).
    set (h0 := <[ch := cc0]> h).
    assert (Hne : ch <> r).
    { intros Heq. subst ch. assert (cc = c) as -> by congruence.
      by eapply (self_parent_not_rooted h r d c). }
    assert (Hlt : ch < length h) by by eapply lookup_lt_Some.
    assert (Hcc0 : h0 !! ch = Some cc0) by by apply list_lookup_insert_eq.
    rewrite update_unfold, Hcc0. cbv zeta.
    change (initialized cc0) with (initialized cc). rewrite Hic. cbn [negb].
    pose proof (recomputed_differ_vs h0 cc0) as D.
    set (cc2 := with_status (aggregate h0 (recompute_value h0 cc0)) (recompute_value h0 cc0)) in *.
    assert (Hp2 : parent cc2 = Some r).
    { rewrite (differ_vs_parent _ _ D). exact Hp. }
    rewrite Hp2.
    set (h1 := <[ch := cc2]> h0).
    assert (SP : same_parents h h1).
    { eapply same_parents_trans.
      - by apply (same_parents_insert h ch cc cc0).
      - apply (same_parents_insert h0 ch cc0 cc2 Hcc0). by apply differ_vs_parent. }
    assert (Hx1 : h1 !! r = Some c).
    { unfold h1, h0. by rewrite !list_lookup_insert_ne. }
    assert (Hreg1 : children_registered h1 r c).
    { intros x Hin. destruct (Hreg x Hin) as (cx & Hcx & Hpx).
      destruct (decide (ch = x)) as [Heq|Hnx].
      - subst x. exists cc2. split; [|done]. unfold h1. apply list_lookup_insert_eq.
        unfold h0. by rewrite length_insert.
      - exists cx. split; [|done]. unfold h1, h0. by rewrite !list_lookup_insert_ne. }
    destruct (update_aggregates fuel' h1 r d c (rooted_same_parents _ _ _ _ SP Hr)
                ltac:(lia) Hx1 Hi Hreg1) as (h' & c' & Hu & Hx' & Hch & _ & Hfl).
    exists h', c'. split; [done|]. split; [done|]. split; [done|]. exact Hfl.
  - intros f0 controls Hk.
    destruct (clear_spec fuel h r d c f0 controls Hr ltac:(lia) Hx Hk)
      as (h1 & c1 & Hclear & Hx1 & Hk1 & _ & _ & Hs1 & _).
    exists h1, c1. split; [done|]. split; [done|].
    split; [unfold children; by rewrite Hk1|]. intros f. by rewrite Hs1.
Qed.

End StatusFacts.

(** ** What the runs show: refuted statements and instances *)

(** C2 does not hold as stated. After [push] of a dirty item the
    array's [status.dirty] is false: no local flag or-ed with the child's
    [true] gives that. After the item has been set again (the array is
    dirty through it) and removed, the array has no child and is still
    dirty. *)
Lemma push_leaves_array_status_stale :
  children (dirty_item_pushed !!! 2) = [1] /\
  dirty (status (dirty_item_pushed !!! 1)) = true /\
  dirty (status (dirty_item_pushed !!! 2)) = false /\
  ~ (exists local : bool,
        dirty (status (dirty_item_pushed !!! 2)) =
        local || existsb (fun ch => dirty (status (dirty_item_pushed !!! ch)))
                         (children (dirty_item_pushed !!! 2))) /\
  children (dirty_item_removed !!! 2) = [] /\
  dirty (status (dirty_item_removed !!! 2)) = true.
Proof.
  split; [reflexivity|]. split; [reflexivity|]. split; [reflexivity|].
  split; [|split; reflexivity].
  intros [local H]. vm_compute in H. by destruct local.
Qed.

(** C8 does not hold as stated. The field of [one_group] points at
    its group; a second group constructed over the same field makes it
    point at the second group. An item of one array pushed onto another
    array points at the other array. *)
Lemma parent_is_reassigned :
  parent (one_group !!! 0) = Some 1 /\
  (fun gh => (fst gh, parent (snd gh !!! 0)))
    <$> new_GroupControl demo_callV 3 one_group [("a"%string, 0)] no_options
  = Some (2, Some 2) /\
  parent (two_items_heap !!! 2) = Some 0 /\
  (fun bh => (fst bh, parent (push (snd bh) (fst bh) [2] !!! 2)))
    <$> new_ArrayControl demo_callV demo_callF 5 two_items_heap namedItem [] no_options
  = Some (5, Some 5).
Proof. repeat split; by vm_compute. Qed.

(** The statements above, at stores the host program builds. *)
Lemma reset_witness :
  exists h' c',
    FieldControl_reset 3 two_items_heap 1 = Some h' /\
    reset demo_callF RAR_range 4 two_items_heap 1 = Some h' /\
    h' !! 1 = Some c' /\
    value c' = initialValue (two_items_heap !!! 1) /\
    dirty (status c') = false /\
    touched (status c') = false /\
    valid (status c') = valid (status (two_items_heap !!! 1)) /\
    pending (status c') = pending (status (two_items_heap !!! 1)) /\
    disabled (status c') = disabled (status (two_items_heap !!! 1)).
Proof.
  apply (reset_restores_initial_and_clears demo_callF RAR_range 3 two_items_heap 1 2
           (two_items_heap !!! 1)).
  - vm_compute. reflexivity.
  - reflexivity.
  - apply (rooted_up _ 1 (two_items_heap !!! 1) 2 1); [by vm_compute | by vm_compute |].
    apply (rooted_up _ 2 (two_items_heap !!! 2) 0 0); [by vm_compute | by vm_compute |].
    apply (rooted_top _ 0 (two_items_heap !!! 0)); by vm_compute.
  - lia.
Defined.


Lemma validation_witness :
  exists h' c' h'' c'',
    run demo_callV 1 under_construction 0 [EvValidate; EvGate] = Some h' /\
    h' !! 0 = Some c' /\
    initialized c' = true /\ errors c' = None /\
    Forall (fun sub => delivered sub = 0) (validationSubs c') /\
    emit 1 h' 0 0 1 None = Some h'' /\
    h'' !! 0 = Some c'' /\
    errors c'' = Some required_error /\
    Forall (fun sub => delivered sub = 1) (validationSubs c'').
Proof.
  destruct (validation_publishes_once_after_gate demo_callV 1 [EvValidate; EvGate]
              under_construction 0 0 (under_construction !!! 0))
    as (h' & c' & Hrun & Hx & _ & _ & _ & _ & _ & _ & _ & Hemit & _).
  - reflexivity.
  - split; [apply subs_weak_fresh; reflexivity|]. intros sub Hl. discriminate Hl.
  - apply (rooted_top _ 0 (under_construction !!! 0)); reflexivity.
  - lia.
  - vm_compute in Hrun. injection Hrun as <-.
    vm_compute in Hx. injection Hx as <-.
    destruct (Hemit 0 1 None (mkSub [Some (Some required_error); None] false 0)
                eq_refl eq_refl eq_refl) as (h'' & c'' & He & Hx'' & Hm).
    cbv iota beta in He, Hx'', Hm.
    eexists _, _, h'', c''. split; [vm_compute; reflexivity|]. split; [reflexivity|].
    split; [reflexivity|]. split; [reflexivity|].
    split; [by repeat constructor|]. split; [exact He|]. split; [exact Hx''|].
    destruct Hm as [Herr Hsubs]. split; [exact Herr|].
    rewrite Hsubs. by repeat constructor.
Defined.

Lemma update_status_witness :
  exists h' c',
    setStatus 2 two_items_heap 0 no_change = Some h' /\
    h' !! 0 = Some c' /\
    children c' = children (two_items_heap !!! 0) /\
    forall f, flag f (status c') =
              flag f (spread_status (status (two_items_heap !!! 0)) no_change) ||
              existsb (fun ch => flag f (status (h' !!! ch))) (children c').
Proof.
  apply (update_ors_children_into_status 2 two_items_heap 0 0 (two_items_heap !!! 0)).
  - by vm_compute.
  - reflexivity.
  - apply (rooted_top _ 0 (two_items_heap !!! 0)); by vm_compute.
  - lia.
  - intros ch Hin. vm_compute in Hin.
    apply elem_of_cons in Hin as [->|Hin]; [eexists; split; by vm_compute|].
    apply elem_of_cons in Hin as [->|Hin]; [eexists; split; by vm_compute|].
    by apply elem_of_nil in Hin.
Defined.

(** * Further properties of the control classes *)

(** ** Merging message maps *)

Lemma merge_fold_lookup (results : list Messages) k d :
  foldl (fun acc r => r ∪ acc) (∅ : Messages) results !! k = Some d <->
  exists i r, results !! i = Some r /\ r !! k = Some d /\
              forall j r', i < j -> results !! j = Some r' -> r' !! k = None.
Proof.
  induction results as [|x l IH] using rev_ind.
  - simpl. rewrite lookup_empty. split; [done|]. by intros (i & r & Hl & _).
  - rewrite foldl_app. simpl. rewrite lookup_union_Some_raw. split.
    + intros [Hx | [Hx HM]].
      * exists (length l), x. split; [by apply list_lookup_middle|]. split; [done|].
        intros j r' Hj Hl. apply lookup_lt_Some in Hl. rewrite length_app in Hl. simpl in Hl. lia.
      * apply IH in HM as (i & r & Hi & Hr & Hlater).
        exists i, r. split; [by apply lookup_app_l_Some|]. split; [done|].
        intros j r' Hj Hl. apply lookup_app_Some in Hl as [Hl | [Hge Hl]].
        -- by eapply Hlater.
        -- apply list_lookup_singleton_Some in Hl as [_ <-]. done.
    + intros (i & r & Hi & Hr & Hlater).
      apply lookup_app_Some in Hi as [Hi | [Hge Hi]].
      * right. split.
        -- apply (Hlater (length l) x); [by eapply lookup_lt_Some | by apply list_lookup_middle].
        -- apply IH. exists i, r. split; [done|]. split; [done|].
           intros j r' Hj Hl. eapply Hlater; [done | by apply lookup_app_l_Some].
      * apply list_lookup_singleton_Some in Hi as [_ <-]. by left.
Qed.

(** X1. The merge that [validate()] and [messages$] apply to the results
    of their sources gives [null] exactly when no result is left after the
    nulls are dropped, and otherwise a map that holds a code exactly when
    some result holds it, with the descriptor of the last result that
    does: a later source wins. *)
Theorem merge_results_later_source_wins (results : list Messages) :
  (merge_results results = None <-> results = []) /\
  (forall m, merge_results results = Some m ->
     forall k d,
       m !! k = Some d <->
       exists i r, results !! i = Some r /\ r !! k = Some d /\
                   forall j r', i < j -> results !! j = Some r' -> r' !! k = None).
Proof.
  split.
  - by destruct results.
  - intros m Hm k d. destruct results as [|x l]; [done|].
    injection Hm as <-. exact (merge_fold_lookup (x :: l) k d).
Qed.

(** ** The flag and message pipelines of ItemControl *)

Lemma flag_or_absent (k : string) (pairs : list (string * bool)) :
  k ∉ map fst pairs ->
  existsb (fun kv => bool_decide (fst kv = k) && snd kv) pairs = false.
Proof.
  induction pairs as [|[k' v] l IH]; simpl; [done|].
  intros Hn. apply not_elem_of_cons in Hn as [Hne Hn].
  rewrite bool_decide_eq_false_2 by done. simpl. by apply IH.
Qed.

Lemma flags_reduce_lookup (acc : gmap string bool) (pairs : list (string * bool))
    (k : string) :
  flags_reduce acc pairs !! k =
  if String.eqb k "__proto__" then acc !! k
  else if bool_decide (k ∈ map fst pairs)
       then Some (flag_read acc k ||
                  existsb (fun kv => bool_decide (fst kv = k) && snd kv) pairs)
       else acc !! k.
Proof.
  unfold flags_reduce. induction pairs as [|[k' v] l IH] using rev_ind.
  - change (foldl _ acc []) with acc. destruct (String.eqb k "__proto__"); [done|].
    destruct (bool_decide (k ∈ map fst [])) eqn:Hin; [|done].
    apply bool_decide_eq_true in Hin. by apply elem_of_nil in Hin.
  - rewrite foldl_app, map_app, existsb_app. simpl.
    set (M := foldl _ acc l) in *. rewrite orb_false_r.
    unfold flag_write.
    destruct (String.eqb k "__proto__") eqn:Hk.
    { destruct (String.eqb k' "__proto__") eqn:Hk'; [exact IH|].
      rewrite lookup_insert_ne; [exact IH|].
      intros ->. congruence. }
    assert (Hread : flag_read M k =
                    flag_read acc k ||
                    existsb (fun kv => bool_decide (fst kv = k) && snd kv) l).
    { unfold flag_read at 1. rewrite IH.
      destruct (bool_decide (k ∈ map fst l)) eqn:Hin; [done|].
      apply bool_decide_eq_false in Hin. rewrite (flag_or_absent k l Hin), orb_false_r.
      reflexivity. }
    destruct (decide (k' = k)) as [->|Hne].
    + rewrite Hk, lookup_insert_eq.
      rewrite bool_decide_eq_true_2 by (apply elem_of_app; right; by left).
      rewrite (bool_decide_eq_true_2 (k = k)) by done. simpl.
      by rewrite Hread, orb_assoc.
    + rewrite (bool_decide_eq_false_2 (k' = k)) by done. simpl. rewrite orb_false_r.
      assert (HM : (if String.eqb k' "__proto__" then M
                    else <[k' := flag_read M k' || v]> M) !! k = M !! k).
      { destruct (String.eqb k' "__proto__"); [done|]. by rewrite lookup_insert_ne. }
      rewrite HM, IH.
      destruct (bool_decide (k ∈ map fst l)) eqn:Hin.
      * apply bool_decide_eq_true in Hin.
        by rewrite bool_decide_eq_true_2 by (apply elem_of_app; by left).
      * apply bool_decide_eq_false in Hin. rewrite bool_decide_eq_false_2; [done|].
        intros [?|Hin']%elem_of_app; [done|].
        apply list_elem_of_singleton in Hin'. by subst.
Qed.

Lemma all_emitted_map_Some {A} (l : list A) :
  forallb notNullish (map Some l) = true /\ filter_notNullish (map Some l) = l.
Proof.
  unfold filter_notNullish. induction l as [|a l [IH1 IH2]]; [done|].
  split; [exact IH1|]. cbn. f_equal. exact IH2.
Qed.

(** X2. [flags$] accumulates. An emission, which needs every source to
    have emitted, leaves for each name that a source (or the baseline
    [hidden]) gives the OR of what the accumulator read under that name
    before and of the values the sources give; the other names of the
    accumulator stay as they were. So a flag that was true at an earlier
    emission stays true and a name once given stays, whatever the sources
    say later. On the first emission the accumulator is empty and a flag is
    the OR over its sources. Running the reducer again over the same
    sources changes nothing, so the number of subscribers does not matter.
    Nothing is written under [__proto__]. *)
Theorem flags_accumulate_across_emissions (acc : gmap string bool)
    (pairs : list (string * bool)) :
  (exists m,
      flags_value acc (setFlagExecutors (map Some pairs)) = Some m /\
      (forall k, k <> "__proto__"%string ->
         m !! k = if bool_decide (k ∈ "hidden"%string :: map fst pairs)
                  then Some (flag_read acc k ||
                             existsb (fun kv => bool_decide (fst kv = k) && snd kv) pairs)
                  else acc !! k) /\
      m !! "__proto__"%string = acc !! "__proto__"%string /\
      (forall k, acc !! k = Some true -> m !! k = Some true) /\
      (forall k, is_Some (acc !! k) -> is_Some (m !! k)) /\
      flags_value m (setFlagExecutors (map Some pairs)) = Some m) /\
  (exists m,
      flags_value ∅ (setFlagExecutors (map Some pairs)) = Some m /\
      forall k, Object_prototype k = None -> k <> "__proto__"%string ->
        m !! k = if bool_decide (k ∈ "hidden"%string :: map fst pairs)
                 then Some (existsb (fun kv => bool_decide (fst kv = k) && snd kv) pairs)
                 else None) /\
  (forall before after,
      flags_value acc (setFlagExecutors (map Some before ++ None :: after)) = None).
Proof.
  assert (Hval : forall a, flags_value a (setFlagExecutors (map Some pairs)) =
                           Some (flags_reduce a (("hidden"%string, false) :: pairs))).
  { intros a.
    destruct (all_emitted_map_Some (("hidden"%string, false) :: pairs)) as [Hall Hfil].
    unfold flags_value, setFlagExecutors.
    change (Some ("hidden"%string, false) :: map Some pairs)
      with (map Some (("hidden"%string, false) :: pairs)).
    by rewrite Hall, Hfil. }
  assert (Hlook : forall a k, k <> "__proto__"%string ->
            flags_reduce a (("hidden"%string, false) :: pairs) !! k =
            if bool_decide (k ∈ "hidden"%string :: map fst pairs)
            then Some (flag_read a k ||
                       existsb (fun kv => bool_decide (fst kv = k) && snd kv) pairs)
            else a !! k).
  { intros a k Hk. rewrite flags_reduce_lookup.
    rewrite (proj2 (String.eqb_neq k "__proto__") Hk).
    change (map fst (("hidden"%string, false) :: pairs))
      with ("hidden"%string :: map fst pairs).
    destruct (bool_decide (k ∈ "hidden"%string :: map fst pairs)); [|done].
    simpl. by rewrite andb_false_r. }
  assert (Hproto : forall a, flags_reduce a (("hidden"%string, false) :: pairs)
                               !! "__proto__"%string = a !! "__proto__"%string).
  { intros a. by rewrite flags_reduce_lookup. }
  split; [|split].
  - exists (flags_reduce acc (("hidden"%string, false) :: pairs)).
    split; [apply Hval|]. split; [apply Hlook|]. split; [apply Hproto|].
    assert (Hkeep : forall k b, acc !! k = Some b ->
              exists b', flags_reduce acc (("hidden"%string, false) :: pairs) !! k = Some b' /\
                         (b = true -> b' = true)).
    { intros k b Hb. destruct (decide (k = "__proto__"%string)) as [->|Hk].
      - exists b. by rewrite Hproto.
      - rewrite (Hlook acc k Hk).
        destruct (bool_decide (k ∈ "hidden"%string :: map fst pairs)); [|by exists b].
        eexists. split; [done|]. intros ->. unfold flag_read. by rewrite Hb. }
    split; [|split].
    + intros k Hb. destruct (Hkeep k true Hb) as (b' & -> & Hb'). by rewrite Hb'.
    + intros k [b Hb]. destruct (Hkeep k b Hb) as (b' & -> & _). by eexists.
    + rewrite Hval. f_equal. apply map_eq. intros k.
      destruct (decide (k = "__proto__"%string)) as [->|Hk]; [by rewrite Hproto|].
      rewrite (Hlook _ k Hk), (Hlook acc k Hk).
      destruct (bool_decide (k ∈ "hidden"%string :: map fst pairs)) eqn:Hin; [|done].
      f_equal. unfold flag_read at 1. rewrite (Hlook acc k Hk), Hin.
      by rewrite <- orb_assoc, orb_diag.
  - exists (flags_reduce ∅ (("hidden"%string, false) :: pairs)).
    split; [apply Hval|]. intros k Hproto' Hk. rewrite (Hlook ∅ k Hk).
    unfold flag_read. rewrite !lookup_empty, Hproto'. done.
  - intros before after. unfold flags_value, setFlagExecutors. simpl.
    rewrite forallb_app. simpl. by rewrite andb_false_r.
Qed.

Lemma flag_or_unique (k : string) (v : bool) (pairs : list (string * bool)) :
  NoDup (map fst pairs) -> (k, v) ∈ pairs ->
  existsb (fun kv => bool_decide (fst kv = k) && snd kv) pairs = v.
Proof.
  induction pairs as [|[k' v'] l IH]; simpl; intros Hnd Hin; [by apply elem_of_nil in Hin|].
  apply NoDup_cons in Hnd as [Hk Hnd]. apply elem_of_cons in Hin as [[= <- <-]|Hin].
  - rewrite bool_decide_eq_true_2 by done. simpl. rewrite flag_or_absent by done.
    by rewrite orb_false_r.
  - rewrite bool_decide_eq_false_2.
    + simpl. by apply IH.
    + intros ->. apply Hk. apply list_elem_of_fmap. by exists (k, v).
Qed.

Lemma setFlags_lookup (acc flags : gmap string bool) (k : string) :
  k <> "__proto__"%string ->
  flags_reduce acc (("hidden"%string, false) :: map_to_list flags) !! k =
  match flags !! k with
  | Some v => Some (flag_read acc k || v)
  | None => if String.eqb k "hidden" then Some (flag_read acc k) else acc !! k
  end.
Proof.
  intros Hk. rewrite flags_reduce_lookup, (proj2 (String.eqb_neq k "__proto__") Hk).
  change (map fst (("hidden"%string, false) :: map_to_list flags))
    with ("hidden"%string :: map fst (map_to_list flags)).
  pose proof (NoDup_fst_map_to_list flags) as Hnd.
  cbn [existsb fst snd]. rewrite andb_false_r. cbn [orb].
  destruct (flags !! k) as [v|] eqn:Hv.
  - rewrite bool_decide_eq_true_2.
    + do 2 f_equal. apply flag_or_unique; [done|]. by apply elem_of_map_to_list.
    + right. apply list_elem_of_fmap. exists (k, v). split; [done|].
      by apply elem_of_map_to_list.
  - assert (Hnotin : k ∉ map fst (map_to_list flags)).
    { intros Hin. apply list_elem_of_fmap in Hin as ([k' v] & Hk' & Hin).
      simpl in Hk'. subst k'. apply elem_of_map_to_list in Hin. congruence. }
    rewrite (flag_or_absent k _ Hnotin), orb_false_r.
    destruct (String.eqb k "hidden") eqn:Hh.
    + apply String.eqb_eq in Hh. subst k. by rewrite bool_decide_eq_true_2 by by left.
    + apply String.eqb_neq in Hh. rewrite bool_decide_eq_false_2; [done|].
      intros [?|?]%elem_of_cons; by auto.
Qed.

(** X3. What [setFlags] puts in and what [flags$] then holds. On a control
    whose [flags$] has not emitted before, [setFlags(flags)] makes it hold
    [flags] with [hidden] added as false when [flags] does not set it (for
    flags that are not named like a member of [Object.prototype]). On a
    control whose [flags$] has emitted, each flag of [flags] is or-ed with
    what the accumulator read under its name, and the names [flags] leaves
    out stay: a later [setFlags] does not take back a flag that an earlier
    one set. [setMessages(m)] makes [messages$] hold [m], [null] for [null],
    every time. *)
Theorem setters_round_trip :
  (forall acc flags : gmap string bool,
      exists m,
        flags_value acc (setFlags flags) = Some m /\
        forall k, k <> "__proto__"%string ->
          m !! k = match flags !! k with
                   | Some v => Some (flag_read acc k || v)
                   | None => if String.eqb k "hidden" then Some (flag_read acc k)
                             else acc !! k
                   end) /\
  (forall flags : gmap string bool,
      (forall k, is_Some (flags !! k) -> Object_prototype k = None) ->
      flags_value ∅ (setFlags flags) =
      Some (<["hidden"%string := default false (flags !! "hidden"%string)]> flags)) /\
  (forall (flags1 flags2 : gmap string bool) m1,
      flags_value ∅ (setFlags flags1) = Some m1 ->
      exists m2,
        flags_value m1 (setFlags flags2) = Some m2 /\
        forall k, k <> "__proto__"%string -> flags1 !! k = Some true -> m2 !! k = Some true) /\
  (forall m : option Messages, messages_value (setMessages m) = Some m).
Proof.
  assert (Hval : forall acc flags,
            flags_value acc (setFlags flags) =
            Some (flags_reduce acc (("hidden"%string, false) :: map_to_list flags))).
  { intros acc flags. unfold setFlags, flags_value, setFlagExecutors.
    destruct (all_emitted_map_Some (("hidden"%string, false) :: map_to_list flags))
      as [Hall Hfil].
    change (Some ("hidden"%string, false) :: map Some (map_to_list flags))
      with (map Some (("hidden"%string, false) :: map_to_list flags)).
    by rewrite Hall, Hfil. }
  split; [|split; [|split]].
  - intros acc flags. eexists. split; [apply Hval|]. intros k Hk. by apply setFlags_lookup.
  - intros flags Hnames. rewrite Hval. f_equal. apply map_eq. intros k.
    destruct (decide (k = "__proto__"%string)) as [->|Hk].
    + rewrite flags_reduce_lookup. simpl. rewrite lookup_empty, lookup_insert_ne by done.
      destruct (flags !! "__proto__"%string) eqn:Hp; [|done].
      by specialize (Hnames "__proto__"%string (ltac:(by eexists))).
    + rewrite (setFlags_lookup ∅ flags k Hk). unfold flag_read. rewrite lookup_empty.
      destruct (decide (k = "hidden"%string)) as [->|Hh].
      * rewrite lookup_insert_eq. by destruct (flags !! "hidden"%string).
      * rewrite lookup_insert_ne by done.
        rewrite (proj2 (String.eqb_neq k "hidden") Hh).
        destruct (flags !! k) as [v|] eqn:Hv; [|done].
        by rewrite (Hnames k (ltac:(by eexists))).
  - intros flags1 flags2 m1 H1. rewrite Hval in H1.
    assert (Hm : m1 = flags_reduce ∅ (("hidden"%string, false) :: map_to_list flags1))
      by congruence.
    subst m1. clear H1.
    eexists. split; [apply Hval|]. intros k Hk Ht.
    rewrite (setFlags_lookup _ flags2 k Hk).
    assert (Hm1 : flags_reduce ∅ (("hidden"%string, false) :: map_to_list flags1) !! k
                  = Some true).
    { rewrite (setFlags_lookup ∅ flags1 k Hk), Ht. by rewrite orb_true_r. }
    assert (Hread : flag_read (flags_reduce ∅ (("hidden"%string, false)
                                                 :: map_to_list flags1)) k = true).
    { unfold flag_read. by rewrite Hm1. }
    rewrite Hread, Hm1.
    destruct (flags2 !! k); [done|]. by destruct (String.eqb k "hidden").
  - intros [m|]; [|reflexivity].
    unfold messages_value, setMessages, combined, filter_notNullish. simpl.
    by rewrite (right_id_L ∅ (∪)).
Qed.

(** ** Path resolution *)

Section PathFacts.

Context {V F : Type}.
Variable array_property : string -> bool.
Variable number_key : Z -> string.
Implicit Types (h : Heap V F) (r : ref).

Lemma findControl_step_null h (l : list Segment) :
  foldl (findControl_step array_property number_key h) FoundNull l = FoundNull.
Proof. by induction l. Qed.

Lemma findControl_step_other h (t : Segment) (l : list Segment) :
  foldl (findControl_step array_property number_key h) FoundOther (t :: l) = FoundNull.
Proof. simpl. apply findControl_step_null. Qed.

(** X4. Path resolution composes: resolving a path made of two non-empty
    parts is resolving the first part and, from the control it reaches,
    the second; when the first part does not reach a control the whole
    path resolves to [null]. A missing path and an empty sequence resolve
    to [null], and so does every non-empty path from a plain field. *)
Theorem path_resolution_composes h r (d : Ascii.ascii) (s t : Segment) (p q : list Segment) :
  findControl array_property number_key h r (Some (PathList ((s :: p) ++ t :: q))) d =
    match findControl array_property number_key h r (Some (PathList (s :: p))) d with
    | FoundControl r' => findControl array_property number_key h r' (Some (PathList (t :: q))) d
    | _ => FoundNull
    end /\
  findControl array_property number_key h r None d = FoundNull /\
  findControl array_property number_key h r (Some (PathList [])) d = FoundNull /\
  (kind (h !!! r) = KField ->
   findControl array_property number_key h r (Some (PathList (s :: p))) d = FoundNull).
Proof.
  split; [|split; [done|split; [done|]]].
  - unfold findControl. cbn [app]. rewrite (foldl_app _ (s :: p) (t :: q)).
    destruct (foldl (findControl_step array_property number_key h) (FoundControl r) (s :: p)).
    + done.
    + apply findControl_step_other.
    + apply findControl_step_null.
  - intros Hk. unfold findControl. simpl. rewrite Hk. apply findControl_step_null.
Qed.

Lemma split_on_no_delimiter (d : Ascii.ascii) (s : string) :
  has_char d s = false -> split_on d s = [s].
Proof.
  induction s as [|a s IH]; simpl; [done|].
  intros [Ha Hs]%orb_false_elim. rewrite Ha, (IH Hs). done.
Qed.

Lemma split_on_append (d : Ascii.ascii) (s t : string) :
  has_char d s = false ->
  split_on d (s ++ String d t)%string = s :: split_on d t.
Proof.
  induction s as [|a s IH]; simpl.
  - intros _. by rewrite Ascii.eqb_refl.
  - intros [Ha Hs]%orb_false_elim. by rewrite Ha, (IH Hs).
Qed.

Lemma split_on_concat (segs : list string) :
  segs <> [] -> Forall (fun s => has_char "."%char s = false) segs ->
  split_on "."%char (String.concat "." segs) = segs.
Proof.
  induction segs as [|s [|s' l] IH]; intros Hne Hall; [done| |].
  - simpl. apply split_on_no_delimiter. by apply Forall_inv in Hall.
  - apply Forall_cons in Hall as [Hs Hall].
    change (String.concat "." (s :: s' :: l))
      with (s ++ String "."%char (String.concat "." (s' :: l)))%string.
    rewrite split_on_append by done. by rewrite IH.
Qed.

(** X5. A string path is split at the dots: [get] of names joined by "."
    resolves like [get] of the sequence of the names, when there is at
    least one name and no name holds a dot. The empty string is the one
    name [""], not the empty path. *)
Theorem get_string_path_is_split_at_dots h r (segs : list string) :
  segs <> [] -> Forall (fun s => has_char "."%char s = false) segs ->
  FieldControl_get array_property number_key h r (PathString (String.concat "." segs)) =
    FieldControl_get array_property number_key h r (PathList (map SegName segs)) /\
  FieldControl_get array_property number_key h r (PathString "") =
    FieldControl_get array_property number_key h r (PathList [SegName ""]).
Proof.
  intros Hne Hall. split; [|done].
  unfold FieldControl_get, findControl. by rewrite split_on_concat.
Qed.

Lemma root_more_fuel (n m : nat) h r t : n <= m -> root n h r = Some t -> root m h r = Some t.
Proof.
  revert m r. induction n as [|n IH]; intros m r Hle; [done|].
  destruct m as [|m]; [lia|]. simpl.
  destruct (h !! r) as [c|]; [|done]. destruct (parent c) as [p|]; [|done].
  apply IH. lia.
Qed.

(** X7. [root] follows the parent references to the end of a sound
    chain: it returns a control that has no parent and lies on the chain,
    and every control on the chain has the same root. *)
Theorem root_is_top_of_chain (fuel : nat) h r (d : nat) :
  rooted h r d -> d < fuel ->
  exists t,
    root fuel h r = Some t /\ rooted h t 0 /\ on_chain h r t /\
    forall x, on_chain h r x -> root fuel h x = Some t.
Proof.
  intros Hr. revert fuel. induction Hr as [r c Hx Hp | r c p d Hx Hp Hrp IH]; intros fuel Hd.
  - destruct fuel as [|fuel]; [lia|]. exists r. simpl. rewrite Hx, Hp.
    split; [done|]. split; [by eapply rooted_top|]. split; [constructor|].
    intros x Hc. inversion Hc as [|? c' p' ? Hx' Hp']; subst; simpl.
    + by rewrite Hx, Hp.
    + congruence.
  - destruct fuel as [|fuel]; [lia|]. destruct (IH fuel ltac:(lia)) as (t & Hroot & Ht & Hc & Hall).
    exists t. split; [simpl; by rewrite Hx, Hp|]. split; [done|].
    split; [by eapply chain_up|].
    intros x Hcx. inversion Hcx as [|? c' p' ? Hx' Hp' Hc']; subst.
    + simpl. by rewrite Hx, Hp.
    + assert (p' = p) as -> by congruence.
      apply (root_more_fuel fuel); [lia | by apply Hall].
Qed.

End PathFacts.

(** ** Values and flags on the way up *)

Section UpwardFacts.

Context {V F : Type}.
Implicit Types (h : Heap V F) (c : Control V F) (r p x : ref).


(** X9. [setValue] on a plain field writes the value and marks the field
    dirty and touched; it leaves [valid], [pending] and [disabled], the
    initial value, the errors and the validation subscriptions as they
    were: no validator runs again. *)
Theorem setValue_writes_and_marks_without_validating fuel h r d c (v : JsVal) :
  h !! r = Some c -> kind c = KField -> rooted h r d -> d < fuel ->
  exists h' c',
    FieldControl_setValue fuel h r v = Some h' /\
    h' !! r = Some c' /\
    value c' = v /\
    dirty (status c') = true /\ touched (status c') = true /\
    valid (status c') = valid (status c) /\
    pending (status c') = pending (status c) /\
    disabled (status c') = disabled (status c) /\
    initialValue c' = initialValue c /\
    errors c' = errors c /\
    validators c' = validators c /\
    validationSubs c' = validationSubs c.
Proof.
  intros Hx Hk Hr Hd.
  set (c1 := with_value v c).
  assert (Hx1 : <[r := c1]> h !! r = Some c1).
  { apply list_lookup_insert_eq. by eapply lookup_lt_Some. }
  assert (SP : same_parents h (<[r := c1]> h)) by by apply (same_parents_insert h r c c1).
  destruct (setStatus_spec fuel _ r d c1
              (mkPartial None None (Some true) (Some true) None)
              (rooted_same_parents _ _ _ _ SP Hr) Hd Hx1)
    as (h' & Hs & _ & _ & Hself).
  eexists h', _. split; [unfold FieldControl_setValue; by rewrite Hx|].
  split; [exact Hself|].
  assert (Hk1 : kind (with_status
            (spread_status (status c1) (mkPartial None None (Some true) (Some true) None))
            c1) = KField) by exact Hk.
  rewrite (recompute_value_field _ _ Hk1), (aggregate_field _ _ Hk1).
  by destruct (initialized c1).
Qed.

(** A child with parent [r] calls [setStatus]: the child holds its own
    recomputed record, the parent the record [update] computes from the
    store the child has left, and nothing off the parent's chain other
    than the child has changed since. *)
Lemma child_setStatus_spec fuel h ch cc r c d (ps : PartialStatus) :
  h !! ch = Some cc -> parent cc = Some r -> initialized cc = true ->
  h !! r = Some c -> initialized c = true -> rooted h r d -> S d < fuel ->
  let cc0 := with_status (spread_status (status cc) ps) cc in
  let h0 := <[ch := cc0]> h in
  let cc2 := with_status (aggregate h0 (recompute_value h0 cc0)) (recompute_value h0 cc0) in
  let h1 := <[ch := cc2]> h0 in
  exists h',
    setStatus fuel h ch ps = Some h' /\
    only_vs h h' /\
    h' !! r = Some (with_status (aggregate h1 (recompute_value h1 c)) (recompute_value h1 c)) /\
    (forall x, ~ on_chain h r x -> h' !! x = h1 !! x).
Proof.
  intros Hcc Hp Hic Hx Hi Hr Hd cc0 h0 cc2 h1.
  assert (Hne : ch <> r).
  { intros Heq. subst ch. assert (cc = c) as -> by congruence.
    by eapply (self_parent_not_rooted h r d c). }
  assert (Hlt : ch < length h) by by eapply lookup_lt_Some.
  assert (Hcc0 : h0 !! ch = Some cc0) by by apply list_lookup_insert_eq.
  pose proof (recomputed_differ_vs h0 cc0) as D. fold cc2 in D.
  assert (D0 : differ_vs cc cc0) by (unfold cc0, differ_vs; by destruct cc).
  assert (O0 : only_vs h h0) by by apply (only_vs_insert h ch cc cc0).
  assert (O1 : only_vs h0 h1) by by apply (only_vs_insert h0 ch cc0 cc2).
  pose proof (only_vs_trans _ _ _ O0 O1) as O01.
  pose proof (only_vs_same_parents _ _ O01) as SP.
  assert (Hx1 : h1 !! r = Some c).
  { unfold h1, h0. by rewrite !list_lookup_insert_ne. }
  destruct fuel as [|fuel']; [lia|].
  destruct (update_spec fuel' h1 r d c (rooted_same_parents _ _ _ _ SP Hr) ltac:(lia) Hx1)
    as (h' & Hu & O2 & Hoff & Hself).
  rewrite Hi in Hself.
  exists h'. split; [|split; [by eapply only_vs_trans|split; [exact Hself|]]].
  - unfold setStatus. rewrite Hcc. fold cc0. fold h0.
    rewrite update_unfold, Hcc0. cbv zeta.
    change (initialized cc0) with (initialized cc). rewrite Hic. cbn [negb].
    fold cc2. rewrite (differ_vs_parent _ _ D). change (parent cc0) with (parent cc).
    rewrite Hp. fold h1. exact Hu.
  - intros x Hnc. apply Hoff. intros Hc. apply Hnc.
    eapply on_chain_same_parents; [apply same_parents_sym, SP | exact Hc].
Qed.

Lemma obj_get_Some_elem {A} (l : list (string * A)) name a :
  obj_get l name = Some a -> a ∈ map snd l.
Proof.
  induction l as [|[k w] rest IH]; simpl; [done|].
  destruct (String.eqb k name).
  - intros [= ->]. by left.
  - intros Hr. right. by apply IH.
Qed.


Lemma reduceControls_ext h h' (controls : list (string * ref)) (b : bool) :
  (forall x, x ∈ map snd controls -> h' !!! x = h !!! x) ->
  reduceControls h' controls b = reduceControls h controls b.
Proof.
  unfold reduceControls, reduceChildren, forEachChild. intros Hext. f_equal.
  generalize (@nil (string * JsVal)).
  induction controls as [|[k x] l IH]; intros acc; simpl; [done|].
  rewrite (Hext x) by by left. apply IH. intros y Hy. apply Hext. by right.
Qed.

(** X11. After a child's [setStatus] has run up to its parent, the
    parent's value is the reduction of the children as they are now: for
    an array the sequence of the items' values, for a group the record of
    [reduceControls] taken at the [disabled] flag the group had before
    this run folded the children's flags in. *)
Theorem parent_value_follows_children fuel h ch cc r c d (ps : PartialStatus) :
  h !! ch = Some cc -> parent cc = Some r -> initialized cc = true ->
  h !! r = Some c -> initialized c = true -> rooted h r d -> S d < fuel ->
  children_registered h r c ->
  exists h' c',
    setStatus fuel h ch ps = Some h' /\ h' !! r = Some c' /\
    (forall f controls, kind c = KArray f controls ->
       value c' = VArr (map (fun x => value (h' !!! x)) controls)) /\
    (forall controls, kind c = KGroup controls ->
       value c' = reduceControls h' controls (disabled (status c))).
Proof.
  intros Hcc Hp Hic Hx Hi Hr Hd Hreg.
  destruct (child_setStatus_spec fuel h ch cc r c d ps Hcc Hp Hic Hx Hi Hr Hd)
    as (h' & Hs & _ & Hg & Hoff).
  cbv zeta in Hg, Hoff.
  set (h1 := <[ch := _]> (<[ch := _]> h)) in *.
  assert (Hsame : forall x, x ∈ children c -> h' !!! x = h1 !!! x).
  { intros x Hin. rewrite !list_lookup_total_alt, Hoff; [done|].
    by eapply registered_child_off_chain. }
  eexists h', _. split; [exact Hs|]. split; [exact Hg|]. split.
  - intros f controls Hk. unfold recompute_value. rewrite Hk. simpl. f_equal.
    apply map_ext_in. intros x Hin. rewrite Hsame; [done|].
    unfold children. rewrite Hk. by apply list_elem_of_In.
  - intros controls Hk. unfold recompute_value. rewrite Hk. simpl.
    symmetry. apply reduceControls_ext. intros x Hin. apply Hsame.
    unfold children. by rewrite Hk.
Qed.

End UpwardFacts.

(** ** The sequence of an array *)

Section SequenceFacts.

Context {V F : Type}.
Implicit Types (h : Heap V F) (c : Control V F) (r p x : ref).

Lemma insert_lookup h r c f controls (index : Z) (item : ref) :
  h !! r = Some c -> kind c = KArray f controls ->
  exists c', insert_ h r index item !! r = Some c' /\
             kind c' = KArray f (splice_insert controls index item).
Proof.
  intros Hx Hk. unfold insert_, registerControl, setParent.
  set (g := fun c0 : Control V F =>
              set_controls (splice_insert (array_controls c0) index item) c0).
  assert (Hg : kind (g c) = KArray f (splice_insert controls index item)).
  { unfold g, set_controls, array_controls. by rewrite Hk. }
  destruct (decide (item = r)) as [->|Hne].
  - exists (with_parent (Some r) (g c)). split; [|exact Hg].
    by rewrite list_lookup_alter_eq, list_lookup_alter_eq, Hx.
  - exists (g c). split; [|exact Hg].
    by rewrite list_lookup_alter_ne, list_lookup_alter_eq, Hx.
Qed.

Lemma removeAt_lookup h r c f controls (index : Z) :
  h !! r = Some c -> kind c = KArray f controls ->
  exists c', removeAt h r index !! r = Some c' /\
             kind c' = KArray f (splice_remove controls index).
Proof.
  intros Hx Hk. unfold removeAt. eexists. split.
  - by rewrite list_lookup_alter_eq, Hx.
  - unfold set_controls, array_controls. by rewrite Hk.
Qed.

Lemma array_controls_of_kind h r c f controls :
  h !! r = Some c -> kind c = KArray f controls -> array_controls (h !!! r) = controls.
Proof.
  intros Hx Hk. rewrite (list_lookup_total_correct _ _ _ Hx). unfold array_controls.
  by rewrite Hk.
Qed.

(** X12. [push] appends: the array holds its former children followed by
    the pushed items in order, its length grows by their number, [at]
    answers as before on the former indices and gives the pushed items on
    the new ones. *)
Theorem push_appends_in_order h r c f (controls items : list ref) :
  h !! r = Some c -> kind c = KArray f controls ->
  array_controls (push h r items !!! r) = controls ++ items /\
  ArrayControl_length (push h r items) r = length controls + length items /\
  (forall i, i < length controls -> at_ (push h r items) r i = controls !! i) /\
  (forall i, at_ (push h r items) r (length controls + i) = items !! i).
Proof.
  intros Hx Hk. pose proof (push_controls h r c f controls items Hx Hk) as Hc.
  split; [done|]. unfold ArrayControl_length, at_. rewrite Hc.
  split; [by rewrite length_app|]. split.
  - intros i Hi. by rewrite lookup_app_l.
  - intros i. rewrite lookup_app_r by lia. f_equal. lia.
Qed.

Lemma splice_start_in_range (len : nat) (index : Z) :
  (0 <= index <= Z.of_nat len)%Z -> splice_start len index = Z.to_nat index.
Proof.
  intros Hi. unfold splice_start.
  destruct (index <? 0)%Z eqn:Hlt; [apply Z.ltb_lt in Hlt; lia|]. lia.
Qed.

Lemma splice_start_beyond (len : nat) (index : Z) :
  (Z.of_nat len <= index)%Z -> splice_start len index = len.
Proof.
  intros Hi. unfold splice_start.
  destruct (index <? 0)%Z eqn:Hlt; [apply Z.ltb_lt in Hlt; lia|]. lia.
Qed.

Lemma splice_remove_insert {A} (l : list A) (index : Z) (item : A) :
  (0 <= index <= Z.of_nat (length l))%Z ->
  splice_remove (splice_insert l index item) index = l.
Proof.
  intros Hi. unfold splice_remove, splice_insert.
  rewrite (splice_start_in_range (length l)) by done.
  set (n := Z.to_nat index).
  assert (Hn : length (take n l) = n) by (rewrite length_take; lia).
  rewrite splice_start_in_range.
  2:{ rewrite length_app, Hn. simpl. rewrite length_drop. lia. }
  fold n. rewrite take_app_length' by done.
  replace (S n) with (n + 1) by lia. rewrite drop_app_add' by done.
  change (drop 1 (item :: drop n l)) with (drop n l). apply take_drop.
Qed.

(** X13. [insert(index, item)] with [0 <= index <= length] puts the item
    at [index], before the child that was there, and [removeAt(index)]
    right after it gives the former sequence back. An index at or beyond
    the end makes [insert] append and [removeAt] do nothing; a negative
    index counts from the end, so [removeAt(-1)] drops the last child. *)
Theorem insert_then_removeAt_round_trip h r c f (controls : list ref) (index : Z)
    (item : ref) :
  h !! r = Some c -> kind c = KArray f controls ->
  (0 <= index <= Z.of_nat (length controls))%Z ->
  array_controls (insert_ h r index item !!! r) =
    take (Z.to_nat index) controls ++ item :: drop (Z.to_nat index) controls /\
  at_ (insert_ h r index item) r (Z.to_nat index) = Some item /\
  array_controls (removeAt (insert_ h r index item) r index !!! r) = controls /\
  (forall beyond, (Z.of_nat (length controls) <= beyond)%Z ->
     array_controls (insert_ h r beyond item !!! r) = controls ++ [item] /\
     array_controls (removeAt h r beyond !!! r) = controls) /\
  array_controls (removeAt h r (-1) !!! r) = take (length controls - 1) controls.
Proof.
  intros Hx Hk Hi.
  destruct (insert_lookup h r c f controls index item Hx Hk) as (c1 & Hx1 & Hk1).
  pose proof (array_controls_of_kind _ _ _ _ _ Hx1 Hk1) as Hc1.
  assert (Hs : splice_insert controls index item =
               take (Z.to_nat index) controls ++ item :: drop (Z.to_nat index) controls).
  { unfold splice_insert. by rewrite splice_start_in_range. }
  split; [by rewrite Hc1|]. split.
  { unfold at_. rewrite Hc1, Hs. apply list_lookup_middle. rewrite length_take. lia. }
  split.
  { destruct (removeAt_lookup _ r c1 f _ index Hx1 Hk1) as (c2 & Hx2 & Hk2).
    rewrite (array_controls_of_kind _ _ _ _ _ Hx2 Hk2). by apply splice_remove_insert. }
  split.
  - intros beyond Hb. split.
    + destruct (insert_lookup h r c f controls beyond item Hx Hk) as (c3 & Hx3 & Hk3).
      rewrite (array_controls_of_kind _ _ _ _ _ Hx3 Hk3).
      unfold splice_insert. rewrite splice_start_beyond by done.
      by rewrite take_ge, drop_ge by lia.
    + destruct (removeAt_lookup h r c f controls beyond Hx Hk) as (c3 & Hx3 & Hk3).
      rewrite (array_controls_of_kind _ _ _ _ _ Hx3 Hk3).
      unfold splice_remove. rewrite splice_start_beyond by done.
      rewrite take_ge, drop_ge by lia. apply app_nil_r.
  - destruct (removeAt_lookup h r c f controls (-1) Hx Hk) as (c3 & Hx3 & Hk3).
    rewrite (array_controls_of_kind _ _ _ _ _ Hx3 Hk3).
    unfold splice_remove, splice_start. simpl.
    replace (Z.to_nat (Z.max (Z.of_nat (length controls) + -1) 0)) with (length controls - 1)
      by lia.
    destruct controls as [|x l] using rev_ind; [done|].
    rewrite length_app. simpl.
    replace (length l + 1 - 1) with (length l) by lia.
    rewrite drop_ge by (rewrite length_app; simpl; lia). apply app_nil_r.
Qed.

End SequenceFacts.

(** ** Writes through the tree *)

Section WriteFacts.

Context {V F : Type}.
Variable callF : F -> JsVal -> Heap V F -> option (ref * Heap V F).
Variable range : Z -> Z -> list Z.
Implicit Types (h : Heap V F) (c : Control V F) (r p x : ref).

Lemma forEachM_ext {S A : Type} (f g : S -> A -> option S) (l : list A) :
  (forall s a, f s a = g s a) -> forall s, forEachM f s l = forEachM g s l.
Proof.
  intros Hfg. induction l as [|a l IH]; intros s; simpl; [done|].
  rewrite Hfg. destruct (g s a); [apply IH | done].
Qed.

Lemma instanceof_FieldControl_always c : instanceof_FieldControl c = true.
Proof. unfold instanceof_FieldControl. by destruct (kind c). Qed.

(** X14. [patchValue] is [setValue] on every control: on a plain field it
    calls [setValue]; on a group both walk the keys of the value and hand
    each one that names a child to that child; on an array both resize to
    the length of the value first, and the [instanceof FieldControl] test
    that only [setValue] makes holds for every item. A patch of an array is
    therefore no patch: it rebuilds the items like [setValue] does. *)
Theorem patchValue_is_setValue fuel : forall h r (v : JsVal),
  patchValue callF range fuel h r v = setValue callF range fuel h r v.
Proof.
  induction fuel as [|fuel IH]; intros h r v; [done|].
  simpl. destruct (h !! r) as [c|]; [|done].
  destruct (kind c) as [|controls|f controls]; [done| |].
  - destruct (Object_entries v) as [entries|]; [|done].
    apply forEachM_ext. intros s e. destruct (obj_get controls e.1); [apply IH|done].
  - destruct v; try done.
    destruct (resize _ _ _ _ _ _) as [h1|]; [|done].
    apply forEachM_ext. intros s e. destruct (at_ s r e.1) as [control|]; [|done].
    rewrite instanceof_FieldControl_always. apply IH.
Qed.

Lemma on_chain_trans h r b x : on_chain h r b -> on_chain h b x -> on_chain h r x.
Proof.
  induction 1 as [r|r c p b Hr Hp _ IH]; [done|].
  intros Hx. eapply chain_up; [exact Hr | exact Hp | by apply IH].
Qed.

Lemma strict_ancestor_ne h r d b x :
  rooted h r d -> on_chain h r b -> b <> r -> on_chain h b x -> x <> r.
Proof.
  intros Hroot Hb Hne Hx ->.
  inversion Hb as [|r' c p b' Hr Hp Hpb]; subst; [done|].
  apply (parent_not_on_chain h r c p d Hroot Hr Hp).
  by eapply on_chain_trans.
Qed.

(** A control that is not initialized stops [update] on its way up: the
    control and everything above it are left as they were. *)
Lemma update_barrier fuel : forall h r d h' b cb,
  update fuel h r = Some h' -> rooted h r d -> on_chain h r b ->
  h !! b = Some cb -> initialized cb = false ->
  forall x, on_chain h b x -> h' !! x = h !! x.
Proof.
  induction fuel as [|fuel IH]; intros h r d h' b cb Hup Hroot Hb Hcb Hi x Hx; [done|].
  rewrite update_unfold in Hup.
  destruct (h !! r) as [c|] eqn:Hr; [|done].
  destruct (initialized c) eqn:Hic; cbn [negb] in Hup; [|by inversion Hup].
  cbv zeta in Hup.
  set (c2 := with_status (aggregate h (recompute_value h c)) (recompute_value h c)) in *.
  assert (Hne : b <> r) by (intros ->; congruence).
  assert (Hxr : x <> r) by (by eapply strict_ancestor_ne).
  assert (Hp2 : parent c2 = parent c) by (apply differ_vs_parent, recomputed_differ_vs).
  assert (Hsp : same_parents h (<[r := c2]> h)) by (by eapply same_parents_insert).
  rewrite Hp2 in Hup.
  destruct (parent c) as [p|] eqn:Hp.
  - inversion Hb as [|r' c' p' b' Hr' Hp' Hpb]; subst; [done|].
    assert (p' = p) by congruence. subst p'.
    inversion Hroot as [r' c'' Hr'' Hp''|r' c'' p'' d' Hr'' Hp'' Hrp]; subst; [congruence|].
    assert (p'' = p) by congruence. subst p''.
    rewrite (IH (<[r := c2]> h) p d' h' b cb Hup).
    + by apply list_lookup_insert_ne.
    + by eapply rooted_same_parents.
    + by eapply on_chain_same_parents.
    + by rewrite list_lookup_insert_ne.
    + done.
    + by eapply on_chain_same_parents.
  - inversion Hup; subst. by apply list_lookup_insert_ne.
Qed.

(** X15. [setStatus] writes nothing but [value] and [status], and only on
    the receiver and its ancestors: every control off the parent chain is
    untouched, and on the chain the parent, the class and the children, the
    errors, the initial value, the validators and their subscriptions stay
    as they were. A receiver that is not initialized only takes the new
    status, and an ancestor that is not initialized stops the run: it and
    everything above it are left as they were. *)
Theorem setStatus_touches_only_the_chain fuel h r d c (ps : PartialStatus) :
  h !! r = Some c -> rooted h r d -> d < fuel ->
  exists h',
    setStatus fuel h r ps = Some h' /\
    length h' = length h /\
    (forall x, ~ on_chain h r x -> h' !! x = h !! x) /\
    (forall x cx, h !! x = Some cx ->
       exists cx', h' !! x = Some cx' /\
         parent cx' = parent cx /\ kind cx' = kind cx /\ errors cx' = errors cx /\
         initialValue cx' = initialValue cx /\ validators cx' = validators cx /\
         validationSubs cx' = validationSubs cx /\ initialized cx' = initialized cx) /\
    (initialized c = false ->
       h' = <[r := with_status (spread_status (status c) ps) c]> h) /\
    (forall b cb x, on_chain h r b -> b <> r -> h !! b = Some cb ->
       initialized cb = false -> on_chain h b x -> h' !! x = h !! x).
Proof.
  intros Hr Hroot Hfuel.
  destruct (setStatus_spec fuel h r d c ps Hroot Hfuel Hr) as (h' & Hset & Hvs & Hoff & Hat).
  exists h'. split; [exact Hset|]. split; [apply Hvs|]. split; [exact Hoff|]. split.
  { intros x cx Hx. destruct Hvs as [_ Hvs]. destruct (Hvs x cx Hx) as (cx' & Hx' & Hd).
    exists cx'. split; [exact Hx'|].
    destruct (differ_vs_fields _ _ Hd) as (? & ? & ? & ? & ? & ? & ?). by repeat split. }
  set (c0 := with_status (spread_status (status c) ps) c) in *.
  assert (Hsp : same_parents h (<[r := c0]> h)) by (by eapply same_parents_insert).
  unfold setStatus in Hset. rewrite Hr in Hset. fold c0 in Hset.
  split.
  - intros Hi. destruct fuel as [|fuel]; [lia|].
    rewrite update_unfold, list_lookup_insert_eq in Hset by (by eapply lookup_lt_Some).
    assert (Hi0 : initialized c0 = false) by done.
    rewrite Hi0 in Hset. simpl in Hset. by inversion Hset.
  - intros b cb x Hb Hne Hcb Hi Hx.
    assert (Hxr : x <> r) by (by eapply strict_ancestor_ne).
    rewrite (update_barrier fuel (<[r := c0]> h) r d h' b cb Hset).
    + by apply list_lookup_insert_ne.
    + by eapply rooted_same_parents.
    + by eapply on_chain_same_parents.
    + by rewrite list_lookup_insert_ne.
    + done.
    + by eapply on_chain_same_parents.
Qed.

(** [update] turns no flag off, on any control. *)
Lemma update_monotone fuel : forall h r h',
  update fuel h r = Some h' ->
  forall x f, flag f (status (h !!! x)) = true -> flag f (status (h' !!! x)) = true.
Proof.
  induction fuel as [|fuel IH]; intros h r h' Hup x f Hx; [done|].
  rewrite update_unfold in Hup.
  destruct (h !! r) as [c|] eqn:Hr; [|done].
  destruct (initialized c) eqn:Hic; cbn [negb] in Hup; [|by inversion Hup; subst].
  cbv zeta in Hup.
  set (c2 := with_status (aggregate h (recompute_value h c)) (recompute_value h c)) in *.
  assert (H0 : flag f (status (<[r := c2]> h !!! x)) = true).
  { destruct (decide (r = x)) as [Heq|Hne].
    - subst x. rewrite list_lookup_total_insert_eq by (by eapply lookup_lt_Some).
      unfold c2. simpl. rewrite flag_aggregate, status_recompute.
      rewrite (list_lookup_total_correct _ _ _ Hr) in Hx. by rewrite Hx.
    - by rewrite list_lookup_total_insert_ne. }
  destruct (parent c2) as [p|].
  - by eapply IH.
  - by inversion Hup; subst.
Qed.

(** X16. Flags only move up as true: whatever [setStatus] is given, every
    control other than the receiver keeps each flag that was true. So
    [reset()] on a plain field clears [dirty] and [touched] on the field
    and on nothing else: its ancestors stay dirty and touched. *)
Theorem reset_clears_the_field_only fuel h r d c :
  h !! r = Some c -> rooted h r d -> d < fuel ->
  (forall ps, exists h',
      setStatus fuel h r ps = Some h' /\
      forall x f, x <> r -> flag f (status (h !!! x)) = true ->
                  flag f (status (h' !!! x)) = true) /\
  (kind c = KField ->
   exists h',
     FieldControl_reset fuel h r = Some h' /\
     dirty (status (h' !!! r)) = false /\ touched (status (h' !!! r)) = false /\
     forall x f, x <> r -> flag f (status (h !!! x)) = true ->
                 flag f (status (h' !!! x)) = true).
Proof.
  intros Hr Hroot Hfuel.
  assert (Hgen : forall c1 ps, parent c1 = parent c ->
            exists h', setStatus fuel (<[r := c1]> h) r ps = Some h' /\
              h' !! r = Some (let c0 := with_status (spread_status (status c1) ps) c1 in
                              let h0 := <[r := c0]> (<[r := c1]> h) in
                              if initialized c1
                              then with_status (aggregate h0 (recompute_value h0 c0))
                                               (recompute_value h0 c0)
                              else c0) /\
              forall x f, x <> r -> flag f (status (h !!! x)) = true ->
                          flag f (status (h' !!! x)) = true).
  { intros c1 ps Hp1.
    assert (Hlt : r < length h) by (by eapply lookup_lt_Some).
    assert (Hsp : same_parents h (<[r := c1]> h)) by (by eapply same_parents_insert).
    assert (Hr1 : <[r := c1]> h !! r = Some c1) by (by apply list_lookup_insert_eq).
    destruct (setStatus_spec fuel (<[r := c1]> h) r d c1 ps
                (rooted_same_parents _ _ _ _ Hsp Hroot) Hfuel Hr1)
      as (h' & Hset & _ & _ & Hat).
    exists h'. split; [exact Hset|]. split; [exact Hat|].
    intros x f Hne Hx. unfold setStatus in Hset. rewrite Hr1 in Hset.
    eapply update_monotone; [exact Hset|].
    by rewrite !list_lookup_total_insert_ne. }
  split.
  - intros ps. destruct (Hgen c ps eq_refl) as (h' & Hset & _ & Hmono).
    exists h'. rewrite list_insert_id in Hset by done. by split.
  - intros Hk.
    destruct (Hgen (with_value (initialValue c) c)
                (mkPartial None None (Some false) (Some false) None) eq_refl)
      as (h' & Hset & Hat & Hmono).
    exists h'. unfold FieldControl_reset. rewrite Hr. split; [exact Hset|].
    rewrite (list_lookup_total_correct _ _ _ Hat). cbv zeta.
    rewrite recompute_value_field, aggregate_field by done.
    split; [|split; [|exact Hmono]]; by destruct (initialized _).
Qed.

Lemma root_same_parents fuel : forall h h' x,
  same_parents h h' -> root fuel h' x = root fuel h x.
Proof.
  induction fuel as [|fuel IH]; intros h h' x Hsp; [done|].
  simpl. destruct (h !! x) as [c|] eqn:Hx.
  - destruct Hsp as [Hlen Hsp']. destruct (Hsp' x c Hx) as (c' & -> & ->).
    destruct (parent c); [by apply IH|done].
  - destruct Hsp as [Hlen _]. apply lookup_ge_None in Hx.
    by rewrite (lookup_ge_None_2 h' x) by lia.
Qed.

(** X17. Taking an item out does not detach it: [removeAt] and [clear()]
    leave every parent reference as it was, so an item that is no longer
    among the children still names the array as its parent, and [root]
    answers for it as before. *)
Theorem removed_items_stay_attached h r (index : Z) :
  (forall x, parent (removeAt h r index !!! x) = parent (h !!! x)) /\
  (forall fuel x, root fuel (removeAt h r index) x = root fuel h x) /\
  (forall fuel d c f controls,
      h !! r = Some c -> kind c = KArray f controls -> rooted h r d -> d < fuel ->
      exists h1,
        clear fuel h r = Some h1 /\
        array_controls (h1 !!! r) = [] /\
        (forall x, parent (h1 !!! x) = parent (h !!! x)) /\
        (forall fuel' x, root fuel' h1 x = root fuel' h x)).
Proof.
  assert (Hsp : same_parents h (removeAt h r index)).
  { apply same_parents_alter. intros c. apply set_controls_parent. }
  assert (Htot : forall h', same_parents h h' ->
                   forall x, parent (h' !!! x) = parent (h !!! x)).
  { intros h' Hs x. destruct (h !! x) as [cx|] eqn:Hx.
    - rewrite (list_lookup_total_correct _ _ _ Hx).
      by eapply same_parents_lookup_total.
    - destruct Hs as [Hlen _]. apply lookup_ge_None in Hx.
      assert (Hx' : h' !! x = None) by (apply lookup_ge_None_2; lia).
      apply lookup_ge_None_2 in Hx. by rewrite !list_lookup_total_alt, Hx, Hx'. }
  split; [by apply Htot|]. split; [intros; by apply root_same_parents|].
  intros fuel d c f controls Hr Hk Hroot Hfuel.
  destruct (clear_spec fuel h r d c f controls Hroot Hfuel Hr Hk)
    as (h1 & c1 & Hclear & Hr1 & Hk1 & _ & _ & _ & Hsp1).
  exists h1. split; [exact Hclear|]. split.
  { rewrite (list_lookup_total_correct _ _ _ Hr1). unfold array_controls. by rewrite Hk1. }
  split; [by apply Htot | intros; by apply root_same_parents].
Qed.

End WriteFacts.

(** ** The constructors of a field and of a group *)

Section ConstructorFacts.

Context {V F : Type}.
Variable callV : V -> Heap V F -> ref -> VResult.
Implicit Types (h : Heap V F) (c : Control V F) (r p x : ref).

Lemma lookup_snoc h c : (h ++ [c]) !! length h = Some c.
Proof. by apply list_lookup_middle. Qed.

Lemma insert_snoc h c c' : <[length h := c']> (h ++ [c]) = h ++ [c'].
Proof.
  replace (length h) with (length h + 0) by lia. by rewrite insert_app_r.
Qed.

(** X18. [new FieldControl(value, opts)] adds one control to the store and
    leaves the others alone. The new control has no parent, holds [value]
    as value and as initial value, and is initialized. Every validator has
    been called once, on the control as it is before the gate opens. When
    all of them answer at once the one subscription has delivered: [errors]
    is the merge of the answers and [status.valid] is [!!errors]; while one
    of them is outstanding nothing has been delivered, and [errors] is
    [null] with [status.valid] true. The other four flags are false. *)
Theorem new_FieldControl_postcondition fuel h (v : JsVal) (opts : FieldControlOptions V) :
  0 < fuel ->
  let vs := default [] (opt_validators opts) in
  let c0 := mkControl None v v initial_status None false vs [] KField in
  let srcs := map (fun w => match callV w (h ++ [c0]) (length h) with
                            | Now m => Some m
                            | Later => None
                            end) vs in
  exists c',
    new_FieldControl callV fuel h v opts = Some (length h, h ++ [c']) /\
    value c' = v /\ initialValue c' = v /\ parent c' = None /\
    initialized c' = true /\ kind c' = KField /\ validators c' = vs /\
    match combined srcs with
    | Some errs =>
        errors c' = errs /\
        status c' = mkStatus (double_bang errs) false false false false /\
        validationSubs c' = [mkSub srcs true 1]
    | None =>
        errors c' = None /\
        status c' = mkStatus true false false false false /\
        validationSubs c' = [mkSub srcs false 0]
    end.
Proof.
  intros Hfuel vs c0 srcs.
  set (c1 := with_validationSubs [mkSub srcs false 0] c0).
  assert (Hval : validate callV fuel (h ++ [c0]) (length h) = Some (h ++ [c1])).
  { unfold validate. rewrite lookup_snoc. cbv zeta.
    change (validationSubs c0) with (@nil Subscription).
    change (validators c0) with vs. fold srcs.
    change (alter unsubscribe (pred (length [])) [] ++ [mkSub srcs false 0])
      with [mkSub srcs false 0].
    fold c1. rewrite insert_snoc. unfold deliver. by rewrite lookup_snoc. }
  unfold new_FieldControl, FieldControl_construct. fold vs. fold c0. cbv zeta.
  rewrite Hval. unfold fieldReady. rewrite lookup_snoc.
  change (kind c1) with (@KField F).  cbv iota.
  unfold initialized_next. rewrite lookup_snoc, insert_snoc.
  unfold deliver. rewrite lookup_snoc.
  change (validationSubs (with_initialized true c1) !! pred (length (validationSubs c1)))
    with (Some (mkSub srcs false 0)).
  cbv iota.
  change (first_combined (with_initialized true c1) (mkSub srcs false 0))
    with (combined srcs).
  destruct (combined srcs) as [errs|].
  - rewrite insert_snoc. unfold setStatus. rewrite lookup_snoc, insert_snoc.
    destruct fuel as [|fuel]; [lia|].
    rewrite update_unfold, lookup_snoc. cbv zeta. simpl. rewrite insert_snoc.
    eexists. split; [reflexivity|]. by repeat split.
  - eexists. split; [reflexivity|]. by repeat split.
Qed.

Lemma validate_fresh fuel h c0 :
  validationSubs c0 = [] -> initialized c0 = false ->
  validate callV fuel (h ++ [c0]) (length h) =
  Some (h ++ [with_validationSubs
                [mkSub (map (fun w => match callV w (h ++ [c0]) (length h) with
                                      | Now m => Some m
                                      | Later => None
                                      end) (validators c0)) false 0] c0]).
Proof.
  intros Hs Hi. unfold validate. rewrite lookup_snoc. cbv zeta. rewrite Hs.
  simpl. rewrite insert_snoc. unfold deliver. rewrite lookup_snoc. simpl.
  unfold first_combined. simpl. by rewrite Hi.
Qed.

(** The gate opens on a control without parent whose one subscription has
    not delivered. *)
Lemma gate_opens_fresh fuel h r c1 srcs :
  0 < fuel -> h !! r = Some c1 ->
  validationSubs c1 = [mkSub srcs false 0] -> parent c1 = None ->
  initialized_next fuel h r =
  Some (<[r := match combined srcs with
               | Some errs =>
                   let c3 := with_status
                               (spread_status (status c1)
                                  (mkPartial (Some (double_bang errs)) None None None None))
                               (with_errors errs
                                  (with_validationSubs [mkSub srcs true 1]
                                     (with_initialized true c1))) in
                   let h3 := <[r := c3]> h in
                   with_status (aggregate h3 (recompute_value h3 c3)) (recompute_value h3 c3)
               | None => with_initialized true c1
               end]> h).
Proof.
  intros Hfuel Hr Hs Hp.
  assert (Hlt : r < length h) by (by eapply lookup_lt_Some).
  unfold initialized_next. rewrite Hr. unfold deliver.
  rewrite list_lookup_insert_eq by done.
  change (validationSubs (with_initialized true c1)) with (validationSubs c1).
  rewrite Hs. change (pred (length [mkSub srcs false 0])) with 0.
  change ([mkSub srcs false 0] !! 0) with (Some (mkSub srcs false 0)). cbv iota.
  change (first_combined (with_initialized true c1) (mkSub srcs false 0))
    with (combined srcs).
  destruct (combined srcs) as [errs|]; [|done].
  unfold setStatus. rewrite list_insert_insert_eq, list_lookup_insert_eq by done.
  rewrite list_insert_insert_eq.
  destruct fuel as [|fuel]; [lia|].
  rewrite update_unfold, list_lookup_insert_eq by done. cbv zeta.
  rewrite (differ_vs_parent _ _ (recomputed_differ_vs _ _)).
  change (parent (with_status _ _)) with (parent c1). rewrite Hp.
  by rewrite list_insert_insert_eq.
Qed.

Lemma register_all_length (items : list ref) : forall h this,
  length (foldl (fun h control => registerControl h this control) h items) = length h.
Proof.
  induction items as [|i items IH]; intros h this; simpl; [done|].
  rewrite IH. unfold registerControl, setParent. apply length_alter.
Qed.

Lemma reduceControls_ext_vs h h' (controls : list (string * ref)) (b : bool) :
  (forall x, x ∈ map snd controls ->
             value (h' !!! x) = value (h !!! x) /\ status (h' !!! x) = status (h !!! x)) ->
  reduceControls h' controls b = reduceControls h controls b.
Proof.
  unfold reduceControls, reduceChildren, forEachChild. intros Hext. f_equal.
  generalize (@nil (string * JsVal)).
  induction controls as [|[k x] l IH]; intros acc; simpl; [done|].
  destruct (Hext x) as [-> ->]; [by left|]. apply IH. intros y Hy. apply Hext. by right.
Qed.

(** X19. [new GroupControl(controls, opts)] over controls that exist adds
    the group to the store and makes it the parent of every control it is
    given, whatever parent they had; nothing else in the store changes.
    The initial value is the reduction of the children taken at
    [opts.status?.disabled ?? false]. That option goes no further: the
    status starts with [disabled] false, so when the validators answer at
    once (or there are none) the gate's delivery runs [update()], and the
    value is the reduction taken with the group enabled, whatever the
    option said; each flag is then the group's own ([valid] is [!!errors],
    the others false) or-ed over the children's. While a validator is
    outstanding the value is the initial one and the status the initial
    status. *)
Theorem new_GroupControl_postcondition fuel h (controls : list (string * ref))
    (opts : FieldControlOptions V) :
  0 < fuel -> Forall (fun control => control < length h) (map snd controls) ->
  let r := length h in
  let v0 := reduceControls h controls (opts_disabled opts) in
  let vs := default [] (opt_validators opts) in
  let c0 := mkControl None v0 v0 initial_status None false vs [] (KGroup controls) in
  let srcs := map (fun w => match callV w (h ++ [c0]) r with
                            | Now m => Some m
                            | Later => None
                            end) vs in
  exists h' g,
    new_GroupControl callV fuel h controls opts = Some (r, h') /\
    length h' = S (length h) /\
    h' !! r = Some g /\
    (forall x cx, h !! x = Some cx ->
       h' !! x = Some (if decide (x ∈ map snd controls)
                       then with_parent (Some r) cx else cx)) /\
    kind g = KGroup controls /\ parent g = None /\ initialized g = true /\
    initialValue g = v0 /\
    match combined srcs with
    | Some errs =>
        errors g = errs /\
        value g = reduceControls h controls false /\
        forall f, flag f (status g) =
                  flag f (mkStatus (double_bang errs) false false false false) ||
                  existsb (fun ch => flag f (status (h !!! ch))) (map snd controls)
    | None =>
        errors g = None /\ value g = v0 /\ status g = initial_status
    end.
Proof.
  intros Hfuel Hexist r v0 vs c0 srcs.
  set (c1 := with_validationSubs [mkSub srcs false 0] c0).
  assert (Hcons : FieldControl_construct callV fuel h (KGroup controls) v0 opts
                  = Some (r, h ++ [c1])).
  { unfold FieldControl_construct. fold vs. fold c0. fold r. cbv zeta.
    unfold r. rewrite validate_fresh by done. fold r.
    change (validators c0) with vs. fold srcs. fold c1.
    unfold fieldReady. unfold r. by rewrite lookup_snoc. }
  assert (Hnotin : r ∉ map snd controls).
  { intros Hin. eapply Forall_forall in Hexist; [|exact Hin]. unfold r in Hexist. lia. }
  assert (Hv2 : reduceControls (h ++ [c1]) controls (opts_disabled opts) = v0).
  { apply reduceControls_ext_vs. intros x Hx.
    eapply Forall_forall in Hexist; [|exact Hx].
    by rewrite lookup_total_app_l. }
  assert (Hh2 : alter (with_value v0) r (h ++ [c1]) = h ++ [c1]).
  { unfold r. replace (length h) with (length h + 0) by lia. by rewrite alter_app_r. }
  set (h3 := foldl (fun h0 control => registerControl h0 r control) (h ++ [c1])
                   (map snd controls)).
  assert (Hx3 : h3 !! r = Some c1).
  { unfold h3, r. rewrite register_all_lookup, lookup_snoc. by rewrite decide_False. }
  assert (Hold3 : forall x cx, h !! x = Some cx ->
            h3 !! x = Some (if decide (x ∈ map snd controls)
                            then with_parent (Some r) cx else cx)).
  { intros x cx Hx. unfold h3.
    rewrite register_all_lookup, lookup_app_l, Hx by (by eapply lookup_lt_Some).
    by destruct (decide _). }
  assert (Hlen3 : length h3 = S (length h)).
  { unfold h3. rewrite register_all_length, length_app. simpl. lia. }
  assert (Hlt3 : r < length h3) by (rewrite Hlen3; unfold r; lia).
  assert (Hne : forall x cx, h !! x = Some cx -> r <> x).
  { intros x cx Hx. apply lookup_lt_Some in Hx. unfold r. lia. }
  pose proof (gate_opens_fresh fuel h3 r c1 srcs Hfuel Hx3 eq_refl eq_refl) as Hgate.
  assert (Hnew : forall g, groupReady fuel h3 r = Some (<[r := g]> h3) ->
            new_GroupControl callV fuel h controls opts = Some (r, <[r := g]> h3)).
  { intros g Hg. unfold new_GroupControl. fold v0. rewrite Hcons. cbv zeta.
    rewrite Hv2, Hh2. fold h3. by rewrite Hg. }
  revert Hgate. destruct (combined srcs) as [errs|]; intros Hgate.
  - cbv zeta in Hgate.
    set (c3 := with_status
                 (spread_status (status c1)
                    (mkPartial (Some (double_bang errs)) None None None None))
                 (with_errors errs
                    (with_validationSubs [mkSub srcs true 1] (with_initialized true c1))))
      in *.
    set (h4 := <[r := c3]> h3) in *.
    assert (Hch : forall ch, ch ∈ map snd controls ->
              value (h4 !!! ch) = value (h !!! ch) /\ status (h4 !!! ch) = status (h !!! ch)).
    { intros ch Hin. pose proof Hin as Hlt.
      eapply Forall_forall in Hlt; [|exact Hexist]. simpl in Hlt.
      destruct (lookup_lt_is_Some_2 _ _ Hlt) as [cc Hcc].
      assert (H4 : h4 !! ch = Some (with_parent (Some r) cc)).
      { unfold h4. rewrite list_lookup_insert_ne by (by eapply Hne).
        by rewrite (Hold3 _ _ Hcc), decide_True. }
      by rewrite (list_lookup_total_correct _ _ _ H4), (list_lookup_total_correct _ _ _ Hcc). }
    eexists _, _. split; [apply Hnew, Hgate|].
    split; [by rewrite length_insert|].
    split; [by apply list_lookup_insert_eq|].
    split.
    { intros x cx Hx. rewrite list_lookup_insert_ne by (by eapply Hne). by apply Hold3. }
    do 4 (split; [reflexivity|]).
    split; [reflexivity|]. split.
    + change (value (with_status (aggregate h4 (recompute_value h4 c3))
                                 (recompute_value h4 c3)))
        with (reduceControls h4 controls false).
      by apply reduceControls_ext_vs.
    + intros f.
      change (status (with_status (aggregate h4 (recompute_value h4 c3))
                                  (recompute_value h4 c3)))
        with (aggregate h4 (recompute_value h4 c3)).
      rewrite flag_aggregate, status_recompute, children_recompute.
      f_equal. apply existsb_ext_in. intros ch Hin.
      by destruct (Hch ch Hin) as [_ ->].
  - eexists _, _. split; [apply Hnew, Hgate|].
    split; [by rewrite length_insert|].
    split; [by apply list_lookup_insert_eq|].
    split.
    { intros x cx Hx. rewrite list_lookup_insert_ne by (by eapply Hne). by apply Hold3. }
    by repeat split.
Qed.

End ConstructorFacts.

(** ** Reset of a group *)

Section GroupReset.

Context {V F : Type}.
Variable callF : F -> JsVal -> Heap V F -> option (ref * Heap V F).
Variable range : Z -> Z -> list Z.
Implicit Types (h : Heap V F) (c : Control V F) (r p x : ref).

Lemma field_reset_spec fuel h r d c :
  h !! r = Some c -> kind c = KField -> rooted h r d -> d < fuel ->
  exists h',
    FieldControl_reset fuel h r = Some h' /\
    only_vs h h' /\
    (forall x, ~ on_chain h r x -> h' !! x = h !! x) /\
    h' !! r = Some (with_status
                      (spread_status (status c)
                         (mkPartial None None (Some false) (Some false) None))
                      (with_value (initialValue c) c)) /\
    (forall x f, x <> r -> flag f (status (h !!! x)) = true ->
                 flag f (status (h' !!! x)) = true).
Proof.
  intros Hr Hk Hroot Hfuel.
  set (c1 := with_value (initialValue c) c).
  assert (Hlt : r < length h) by (by eapply lookup_lt_Some).
  assert (Hsp : same_parents h (<[r := c1]> h)) by (by eapply same_parents_insert).
  assert (Hr1 : <[r := c1]> h !! r = Some c1) by (by apply list_lookup_insert_eq).
  destruct (setStatus_spec fuel (<[r := c1]> h) r d c1
              (mkPartial None None (Some false) (Some false) None)
              (rooted_same_parents _ _ _ _ Hsp Hroot) Hfuel Hr1)
    as (h' & Hset & Hvs & Hoff & Hat).
  exists h'. split; [unfold FieldControl_reset; by rewrite Hr|].
  split.
  { eapply only_vs_trans; [|exact Hvs]. apply only_vs_insert with c; [done|].
    unfold differ_vs, c1. by destruct c. }
  split.
  { intros x Hx. rewrite Hoff.
    - apply list_lookup_insert_ne. intros ->. apply Hx, chain_here.
    - intros Hc. apply Hx.
      eapply on_chain_same_parents; [apply same_parents_sym, Hsp | exact Hc]. }
  split.
  { rewrite Hat. cbv zeta. rewrite recompute_value_field, aggregate_field by done.
    by destruct (initialized c1). }
  intros x f Hne Hx. unfold setStatus in Hset. rewrite Hr1 in Hset.
  eapply update_monotone; [exact Hset|].
  by rewrite !list_lookup_total_insert_ne.
Qed.

Lemma reset_twice c :
  let once := with_status
                (spread_status (status c) (mkPartial None None (Some false) (Some false) None))
                (with_value (initialValue c) c) in
  with_status (spread_status (status once)
                 (mkPartial None None (Some false) (Some false) None))
              (with_value (initialValue once) once) = once.
Proof. by destruct c. Qed.

Lemma child_chain h ch cc g x :
  h !! ch = Some cc -> parent cc = Some g -> on_chain h ch x -> x = ch \/ on_chain h g x.
Proof.
  intros Hch Hp Hx. inversion Hx as [|r' c' p' x' Hr' Hp' Hrest]; subst; [by left|].
  right. assert (p' = g) by congruence. by subst.
Qed.

Lemma reset_fields_spec fuel (l : list ref) : forall h g c d,
  h !! g = Some c -> rooted h g d -> S d < fuel ->
  (forall ch, ch ∈ l -> exists cc, h !! ch = Some cc /\ kind cc = KField /\ parent cc = Some g) ->
  exists h',
    forEachM (fun h control => reset callF range (S fuel) h control) h l = Some h' /\
    only_vs h h' /\
    (forall x, x ∉ l -> ~ on_chain h g x -> h' !! x = h !! x) /\
    (forall ch cc, ch ∈ l -> h !! ch = Some cc ->
       h' !! ch = Some (with_status
                          (spread_status (status cc)
                             (mkPartial None None (Some false) (Some false) None))
                          (with_value (initialValue cc) cc))) /\
    (forall x f, x ∉ l -> flag f (status (h !!! x)) = true ->
                 flag f (status (h' !!! x)) = true).
Proof.
  induction l as [|ch l IH]; intros h g c d Hg Hroot Hfuel Hkids.
  { exists h. split; [done|]. split; [apply only_vs_refl|]. split; [done|].
    split; [|done]. intros ch cc Hin. by apply elem_of_nil in Hin. }
  destruct (Hkids ch) as (cc & Hch & Hk & Hp); [by left|].
  assert (Hrootch : rooted h ch (S d)) by (by eapply rooted_up).
  destruct (field_reset_spec fuel h ch (S d) cc Hch Hk Hrootch Hfuel)
    as (h1 & Hreset & Hvs1 & Hoff1 & Hat1 & Hmono1).
  pose proof (only_vs_same_parents _ _ Hvs1) as Hsp1.
  assert (Hoffg : forall x cx, h !! x = Some cx -> parent cx = Some g -> ~ on_chain h g x).
  { intros x cx Hx Hpx. eapply parent_not_on_chain; [|exact Hx|exact Hpx].
    by eapply rooted_up. }
  destruct Hvs1 as [Hlen1 Hvs1'].
  destruct (Hvs1' g c Hg) as (c1 & Hg1 & _).
  assert (Hkids1 : forall ch', ch' ∈ l ->
            exists cc', h1 !! ch' = Some cc' /\ kind cc' = KField /\ parent cc' = Some g).
  { intros ch' Hin. destruct (Hkids ch') as (cc' & Hch' & Hk' & Hp'); [by right|].
    destruct (Hvs1' ch' cc' Hch') as (cc1 & Hch1 & Hd).
    destruct (differ_vs_fields _ _ Hd) as (Hpp & _ & _ & _ & _ & Hkk & _).
    exists cc1. split; [done|]. split; congruence. }
  destruct (IH h1 g c1 d Hg1 (rooted_same_parents _ _ _ _ Hsp1 Hroot) Hfuel Hkids1)
    as (h' & Hrest & Hvs & Hoff & Hat & Hmono).
  exists h'. split.
  { cbn [forEachM]. cbn [reset]. rewrite Hch, Hk, Hreset. exact Hrest. }
  split; [eapply only_vs_trans; [split; [exact Hlen1|exact Hvs1']|exact Hvs]|].
  assert (Hback : forall x, on_chain h1 g x -> on_chain h g x).
  { intros x. apply on_chain_same_parents, same_parents_sym, Hsp1. }
  split.
  { intros x Hx Hc. apply not_elem_of_cons in Hx as [Hne Hx].
    rewrite Hoff by (done || (intros Hc1; by apply Hc, Hback)).
    apply Hoff1. intros Hc1.
    destruct (child_chain h ch cc g x Hch Hp Hc1); [done|by apply Hc]. }
  split.
  { intros ch' cc' Hin Hch'.
    destruct (decide (ch' ∈ l)) as [Hl|Hl].
    - destruct (decide (ch' = ch)) as [Heq|Hne].
      + subst ch'. assert (cc' = cc) by congruence. subst cc'.
        rewrite (Hat ch _ Hl Hat1). apply f_equal, reset_twice.
      + destruct (Hkids ch') as (cc'' & Hch'' & _ & Hp'); [exact Hin|].
        assert (cc'' = cc') by congruence. subst cc''.
        apply (Hat ch' cc' Hl). rewrite Hoff1; [done|]. intros Hc1.
        destruct (child_chain h ch cc g ch' Hch Hp Hc1); [done|].
        by eapply Hoffg.
    - apply elem_of_cons in Hin as [->|Hin]; [|done].
      assert (cc' = cc) by congruence. subst cc'.
      rewrite Hoff; [exact Hat1|exact Hl|].
      intros Hc1. eapply Hoffg; [exact Hch|exact Hp|by apply Hback]. }
  intros x f Hx Hf. apply not_elem_of_cons in Hx as [Hne Hx].
  apply Hmono; [done|]. by apply Hmono1.
Qed.

(** X20. [reset()] on a group whose children are plain fields resets each
    child: every child ends with its initial value and with [dirty] and
    [touched] false. The group itself is not reset: each child's reset runs
    [update()] on the group, which only ors flags in, so every flag the
    group had stays true; a group that was dirty is dirty after [reset()].
    Controls that are neither children nor on the group's parent chain are
    left as they were. *)
Theorem group_reset_resets_children_only fuel h g c (controls : list (string * ref)) d :
  h !! g = Some c -> kind c = KGroup controls -> rooted h g d -> S d < fuel ->
  (forall ch, ch ∈ map snd controls ->
     exists cc, h !! ch = Some cc /\ kind cc = KField /\ parent cc = Some g) ->
  exists h',
    reset callF range (S (S fuel)) h g = Some h' /\
    (forall ch cc, ch ∈ map snd controls -> h !! ch = Some cc ->
       exists cc', h' !! ch = Some cc' /\ value cc' = initialValue cc /\
                   dirty (status cc') = false /\ touched (status cc') = false) /\
    (forall f, flag f (status c) = true -> flag f (status (h' !!! g)) = true) /\
    (forall x, x ∉ map snd controls -> ~ on_chain h g x -> h' !! x = h !! x).
Proof.
  intros Hg Hk Hroot Hfuel Hkids.
  destruct (reset_fields_spec fuel (map snd controls) h g c d Hg Hroot Hfuel Hkids)
    as (h' & Hrun & _ & Hoff & Hat & Hmono).
  exists h'. split.
  { cbn [reset]. rewrite Hg, Hk. unfold children. rewrite Hk. exact Hrun. }
  split.
  { intros ch cc Hin Hch. eexists. split; [by apply Hat|]. by repeat split. }
  split; [|exact Hoff].
  intros f Hf. apply Hmono.
  - intros Hin. destruct (Hkids g Hin) as (cc & Hcc & Hkc & _). congruence.
  - by rewrite (list_lookup_total_correct _ _ _ Hg).
Qed.

End GroupReset.

(** ** The raw value *)

Section RawFacts.

Context {V F : Type}.
Implicit Types (h : Heap V F) (c : Control V F) (r p x : ref).

Lemma getRawValue_unfold fuel h r :
  getRawValue (S fuel) h r =
  match h !! r with
  | None => None
  | Some c =>
      match kind c with
      | KField => None
      | KGroup controls =>
          VObj <$> reduceChildren controls (Some [])
                     (fun acc control name =>
                        match acc, (if instanceof_FieldControl (h !!! control)
                                    then Some (value (h !!! control))
                                    else getRawValue fuel h control) with
                        | Some fields, Some w => Some (obj_set fields name w)
                        | _, _ => None
                        end)
      | KArray _ controls =>
          VArr <$> mapM (fun control => if instanceof_FieldControl (h !!! control)
                                        then Some (value (h !!! control))
                                        else getRawValue fuel h control) controls
      end
  end.
Proof. reflexivity. Qed.

(** X21. [getRawValue()] never recurses: the [instanceof FieldControl]
    test holds for every child, so each child contributes its [value]. The
    raw value of a group is the reduction of its children taken as if the
    group were disabled, every key there whatever the child's [disabled]
    flag says; the raw value of an array is the sequence of its items'
    values. A plain field has no such method. *)
Theorem getRawValue_never_recurses fuel h r c :
  h !! r = Some c ->
  (forall controls, kind c = KGroup controls ->
     getRawValue (S fuel) h r = Some (reduceControls h controls true)) /\
  (forall f controls, kind c = KArray f controls ->
     getRawValue (S fuel) h r = Some (VArr (map (fun x => value (h !!! x)) controls))) /\
  (kind c = KField -> getRawValue (S fuel) h r = None).
Proof.
  intros Hr. rewrite getRawValue_unfold, Hr. split; [|split].
  - intros controls ->. unfold reduceControls, reduceChildren, forEachChild.
    change (Some (VObj ?x)) with (VObj <$> Some x). f_equal.
    generalize (@nil (string * JsVal)).
    induction controls as [|[k x] l IH]; intros acc; simpl; [done|].
    rewrite instanceof_FieldControl_always, orb_true_r. apply IH.
  - intros f controls ->.
    change (Some (VArr ?x)) with (VArr <$> Some x). f_equal.
    induction controls as [|x l IH]; [done|].
    cbn [mapM map]. rewrite instanceof_FieldControl_always, IH. done.
  - by intros ->.
Qed.

End RawFacts.

(** ** setValue of a group *)

Section GroupWrite.

Context {V F : Type}.
Variable callF : F -> JsVal -> Heap V F -> option (ref * Heap V F).
Variable range : Z -> Z -> list Z.
Implicit Types (h : Heap V F) (c : Control V F) (r p x : ref).

Lemma field_setValue_spec fuel h r d c (v : JsVal) :
  h !! r = Some c -> kind c = KField -> rooted h r d -> d < fuel ->
  exists h',
    FieldControl_setValue fuel h r v = Some h' /\
    only_vs h h' /\
    (forall x, ~ on_chain h r x -> h' !! x = h !! x) /\
    h' !! r = Some (with_status
                      (spread_status (status c)
                         (mkPartial None None (Some true) (Some true) None))
                      (with_value v c)).
Proof.
  intros Hr Hk Hroot Hfuel.
  set (c1 := with_value v c).
  assert (Hlt : r < length h) by (by eapply lookup_lt_Some).
  assert (Hsp : same_parents h (<[r := c1]> h)) by (by eapply same_parents_insert).
  assert (Hr1 : <[r := c1]> h !! r = Some c1) by (by apply list_lookup_insert_eq).
  destruct (setStatus_spec fuel (<[r := c1]> h) r d c1
              (mkPartial None None (Some true) (Some true) None)
              (rooted_same_parents _ _ _ _ Hsp Hroot) Hfuel Hr1)
    as (h' & Hset & Hvs & Hoff & Hat).
  exists h'. split; [unfold FieldControl_setValue; by rewrite Hr|].
  split.
  { eapply only_vs_trans; [|exact Hvs]. apply only_vs_insert with c; [done|].
    unfold differ_vs, c1. by destruct c. }
  split.
  { intros x Hx. rewrite Hoff.
    - apply list_lookup_insert_ne. intros ->. apply Hx, chain_here.
    - intros Hc. apply Hx.
      eapply on_chain_same_parents; [apply same_parents_sym, Hsp | exact Hc]. }
  rewrite Hat. cbv zeta. rewrite recompute_value_field, aggregate_field by done.
  by destruct (initialized c1).
Qed.

Lemma obj_get_elem {A} (l : list (string * A)) name a :
  obj_get l name = Some a -> (name, a) ∈ l.
Proof.
  induction l as [|[k w] rest IH]; simpl; [done|].
  destruct (String.eqb k name) eqn:Hk.
  - apply String.eqb_eq in Hk. intros [= ->]. subst. by left.
  - intros Hr. right. by apply IH.
Qed.

Lemma obj_get_fst {A} (l : list (string * A)) name a :
  obj_get l name = Some a -> name ∈ map fst l.
Proof.
  intros Hg. apply obj_get_elem in Hg.
  apply list_elem_of_fmap. by exists (name, a).
Qed.

Lemma snd_determines_fst {A B} (l : list (A * B)) a a' b :
  NoDup (map snd l) -> (a, b) ∈ l -> (a', b) ∈ l -> a = a'.
Proof.
  induction l as [|[k w] rest IH]; intros Hnd H1 H2; [by apply elem_of_nil in H1|].
  simpl in Hnd. apply NoDup_cons in Hnd as [Hnotin Hnd].
  assert (Hin : forall a0, (a0, b) ∈ rest -> b ∈ map snd rest).
  { intros a0 H0. apply list_elem_of_fmap. by exists (a0, b). }
  apply elem_of_cons in H1 as [H1|H1]; apply elem_of_cons in H2 as [H2|H2].
  - congruence.
  - inversion H1; subst. by destruct Hnotin; eapply Hin.
  - inversion H2; subst. by destruct Hnotin; eapply Hin.
  - by apply IH.
Qed.

Lemma obj_get_inj (controls : list (string * ref)) name name' ch :
  NoDup (map snd controls) ->
  obj_get controls name = Some ch -> obj_get controls name' = Some ch -> name = name'.
Proof.
  intros Hnd H1 H2. eapply snd_determines_fst; [exact Hnd | |]; by apply obj_get_elem.
Qed.

Lemma setValue_entries_spec fuel (controls : list (string * ref))
    (l : list (string * JsVal)) : forall h g c d,
  h !! g = Some c -> rooted h g d -> S d < fuel ->
  NoDup (map snd controls) -> NoDup (map fst l) ->
  Forall (fun name => obj_get controls name = None -> Object_prototype name = None)
         (map fst l) ->
  (forall ch, ch ∈ map snd controls ->
     exists cc, h !! ch = Some cc /\ kind cc = KField /\ parent cc = Some g) ->
  exists h',
    forEachM (fun h e =>
                match obj_get controls (fst e) with
                | Some control => setValue callF range (S fuel) h control (snd e)
                | None =>
                    match Object_prototype (fst e) with
                    | Some _ => None
                    | None => Some h
                    end
                end) h l = Some h' /\
    only_vs h h' /\
    (forall x, ~ on_chain h g x ->
       (forall name, name ∈ map fst l -> obj_get controls name <> Some x) ->
       h' !! x = h !! x) /\
    (forall name v ch cc,
       (name, v) ∈ l -> obj_get controls name = Some ch -> h !! ch = Some cc ->
       h' !! ch = Some (with_status
                          (spread_status (status cc)
                             (mkPartial None None (Some true) (Some true) None))
                          (with_value v cc))).
Proof.
  induction l as [|[n0 v0] l IH]; intros h g c d Hg Hroot Hfuel Hinj Hnd Hgood Hkids.
  { exists h. split; [done|]. split; [apply only_vs_refl|]. split; [done|].
    intros name v ch cc Hin. by apply elem_of_nil in Hin. }
  simpl in Hnd. apply NoDup_cons in Hnd as [Hn0 Hnd].
  simpl in Hgood. apply Forall_cons in Hgood as [Hgood0 Hgood].
  assert (Hoffg : forall x cx, h !! x = Some cx -> parent cx = Some g -> ~ on_chain h g x).
  { intros x cx Hx Hpx. eapply parent_not_on_chain; [|exact Hx|exact Hpx].
    by eapply rooted_up. }
  assert (Hname : forall name v, (name, v) ∈ l -> name ∈ map fst l).
  { intros name v Hin. apply list_elem_of_fmap. by exists (name, v). }
  destruct (obj_get controls n0) as [ch0|] eqn:Hget0.
  - destruct (Hkids ch0) as (cc0 & Hch0 & Hk0 & Hp0); [by eapply obj_get_Some_elem|].
    assert (Hrootch : rooted h ch0 (S d)) by (by eapply rooted_up).
    destruct (field_setValue_spec fuel h ch0 (S d) cc0 v0 Hch0 Hk0 Hrootch Hfuel)
      as (h1 & Hset & Hvs1 & Hoff1 & Hat1).
    pose proof (only_vs_same_parents _ _ Hvs1) as Hsp1.
    destruct Hvs1 as [Hlen1 Hvs1'].
    destruct (Hvs1' g c Hg) as (c1 & Hg1 & _).
    assert (Hkids1 : forall ch', ch' ∈ map snd controls ->
              exists cc', h1 !! ch' = Some cc' /\ kind cc' = KField /\ parent cc' = Some g).
    { intros ch' Hin. destruct (Hkids ch' Hin) as (cc' & Hch' & Hk' & Hp').
      destruct (Hvs1' ch' cc' Hch') as (cc1 & Hch1 & Hd).
      destruct (differ_vs_fields _ _ Hd) as (Hpp & _ & _ & _ & _ & Hkk & _).
      exists cc1. split; [done|]. split; congruence. }
    destruct (IH h1 g c1 d Hg1 (rooted_same_parents _ _ _ _ Hsp1 Hroot) Hfuel Hinj Hnd
                Hgood Hkids1)
      as (h' & Hrest & Hvs & Hoff & Hat).
    assert (Hback : forall x, on_chain h1 g x -> on_chain h g x).
    { intros x. apply on_chain_same_parents, same_parents_sym, Hsp1. }
    assert (Hlater : forall name, name ∈ map fst l -> obj_get controls name <> Some ch0).
    { intros name Hin Hget. apply Hn0.
      by rewrite (obj_get_inj controls n0 name ch0 Hinj Hget0 Hget). }
    exists h'. split.
    { cbn [forEachM fst snd]. rewrite Hget0. cbn [setValue].
      rewrite Hch0, Hk0, Hset. exact Hrest. }
    split; [eapply only_vs_trans; [split; [exact Hlen1|exact Hvs1']|exact Hvs]|].
    split.
    { intros x Hc Hnames.
      rewrite Hoff.
      - apply Hoff1. intros Hc1.
        destruct (child_chain h ch0 cc0 g x Hch0 Hp0 Hc1) as [->|]; [|by apply Hc].
        apply (Hnames n0); [by left | done].
      - intros Hc1. by apply Hc, Hback.
      - intros name Hin. apply Hnames. by right. }
    intros name v ch cc Hin Hget Hch.
    apply elem_of_cons in Hin as [Heq|Hin].
    + inversion Heq; subst name v.
      assert (ch = ch0) by congruence. subst ch.
      assert (cc = cc0) by congruence. subst cc.
      rewrite Hoff; [exact Hat1| |exact Hlater].
      intros Hc1. eapply Hoffg; [exact Hch0|exact Hp0|by apply Hback].
    + assert (Hne : ch <> ch0).
      { intros ->. by eapply Hlater; [eapply Hname|]. }
      destruct (Hkids ch) as (cc' & Hch' & _ & Hp'); [by eapply obj_get_Some_elem|].
      apply (Hat name v ch cc Hin Hget). rewrite Hoff1; [done|]. intros Hc1.
      destruct (child_chain h ch0 cc0 g ch Hch0 Hp0 Hc1); [done|].
      by eapply Hoffg.
  - destruct (IH h g c d Hg Hroot Hfuel Hinj Hnd Hgood Hkids)
      as (h' & Hrest & Hvs & Hoff & Hat).
    exists h'. split.
    { cbn [forEachM fst snd]. rewrite Hget0, (Hgood0 eq_refl). exact Hrest. }
    split; [exact Hvs|]. split.
    { intros x Hc Hnames. apply Hoff; [done|]. intros name Hin. apply Hnames. by right. }
    intros name v ch cc Hin Hget Hch.
    apply elem_of_cons in Hin as [Heq|Hin]; [inversion Heq; subst; congruence|].
    by eapply Hat.
Qed.

Lemma forEachM_app {S A : Type} (f : S -> A -> option S) (l1 l2 : list A) : forall s,
  forEachM f s (l1 ++ l2) =
  match forEachM f s l1 with
  | Some s' => forEachM f s' l2
  | None => None
  end.
Proof.
  induction l1 as [|a l1 IH]; intros s; simpl; [done|].
  destruct (f s a); [apply IH | done].
Qed.

(** X22. [setValue(value)] on a group whose children are distinct plain
    fields, for a value whose keys name a child or nothing that
    [Object.prototype] holds: the child of every key that names one ends
    with [value[name]], dirty and touched, its other flags as they were;
    the other keys are ignored; a child that no key names, and every
    control that is neither a child nor on the group's parent chain, is
    left as it was. A further key that names no child but a member of
    [Object.prototype] ([toString], [constructor], [__proto__], ...) makes
    the call throw: the group takes the inherited member for a child. *)
Theorem group_setValue_writes_named_children fuel h g c (controls : list (string * ref)) d
    (entries : list (string * JsVal)) :
  h !! g = Some c -> kind c = KGroup controls -> rooted h g d -> S d < fuel ->
  NoDup (map snd controls) -> NoDup (map fst entries) ->
  Forall (fun name => obj_get controls name = None -> Object_prototype name = None)
         (map fst entries) ->
  (forall ch, ch ∈ map snd controls ->
     exists cc, h !! ch = Some cc /\ kind cc = KField /\ parent cc = Some g) ->
  (exists h',
    setValue callF range (S (S fuel)) h g (VObj entries) = Some h' /\
    (forall name v ch cc,
       (name, v) ∈ entries -> obj_get controls name = Some ch -> h !! ch = Some cc ->
       exists cc', h' !! ch = Some cc' /\ value cc' = v /\
                   dirty (status cc') = true /\ touched (status cc') = true /\
                   valid (status cc') = valid (status cc) /\
                   pending (status cc') = pending (status cc) /\
                   disabled (status cc') = disabled (status cc)) /\
    (forall ch, ch ∈ map snd controls ->
       (forall name, name ∈ map fst entries -> obj_get controls name <> Some ch) ->
       h' !! ch = h !! ch) /\
    (forall x, ~ on_chain h g x -> x ∉ map snd controls -> h' !! x = h !! x)) /\
  (forall name v after,
     obj_get controls name = None -> is_Some (Object_prototype name) ->
     setValue callF range (S (S fuel)) h g (VObj (entries ++ (name, v) :: after)) = None).
Proof.
  intros Hg Hk Hroot Hfuel Hinj Hnd Hgood Hkids.
  destruct (setValue_entries_spec fuel controls entries h g c d Hg Hroot Hfuel Hinj Hnd
              Hgood Hkids)
    as (h' & Hrun & _ & Hoff & Hat).
  split.
  - exists h'. split.
    { cbn [setValue]. rewrite Hg, Hk. cbn [Object_entries]. exact Hrun. }
    split.
    { intros name v ch cc Hin Hget Hch. eexists. split; [by eapply Hat|]. by repeat split. }
    split.
    + intros ch Hin Hnames. apply Hoff; [|done].
      destruct (Hkids ch Hin) as (cc & Hch & _ & Hp).
      eapply parent_not_on_chain; [|exact Hch|exact Hp]. by eapply rooted_up.
    + intros x Hc Hx. apply Hoff; [done|].
      intros name _ Hget. by apply Hx, (obj_get_Some_elem controls name).
  - intros name v after Hget [i Hi].
    assert (Hunfold : forall l,
              setValue callF range (S (S fuel)) h g (VObj l) =
              forEachM (fun h e =>
                          match obj_get controls (fst e) with
                          | Some control => setValue callF range (S fuel) h control (snd e)
                          | None =>
                              match Object_prototype (fst e) with
                              | Some _ => None
                              | None => Some h
                              end
                          end) h l).
    { intros l. cbn [setValue]. by rewrite Hg, Hk. }
    rewrite Hunfold, forEachM_app, Hrun. cbn [forEachM fst snd]. by rewrite Hget, Hi.
Qed.

End GroupWrite.

(** ** The constructor of an array *)

Section ArrayConstructor.

Context {V F : Type}.
Variable callV : V -> Heap V F -> ref -> VResult.
Variable callF : F -> JsVal -> Heap V F -> option (ref * Heap V F).
Implicit Types (h : Heap V F) (c : Control V F) (r p x : ref).

Lemma registered_total h h' (items : list ref) this x :
  h' !! x = (if decide (x ∈ items) then with_parent (Some this) else id) <$> h !! x ->
  value (h' !!! x) = value (h !!! x) /\ status (h' !!! x) = status (h !!! x).
Proof.
  intros Hx. rewrite !list_lookup_total_alt, Hx.
  destruct (h !! x) as [cx|]; [|done]. simpl. by destruct (decide _).
Qed.

(** X23. [new ArrayControl(itemFactory, value, opts)], when the factory
    returns for every element of [value] and leaves the record of the array
    under construction alone: the array is added to the store with the
    items the factory returned as its children, in order, and each item
    gets the array as its parent; no other control changes. The initial
    value is [value]. When the validators answer at once (or there are
    none) the gate's delivery runs [update()]: the value is then the
    sequence of the items' values, not [value] itself, and each flag is the
    array's own ([valid] is [!!errors], the others false) or-ed over the
    items'. While a validator is outstanding the value is [value] and the
    status the initial status. *)
Theorem new_ArrayControl_postcondition fuel h (f : F) (v : list JsVal)
    (opts : FieldControlOptions V) (controls : list ref) (h2 : Heap V F) :
  0 < fuel ->
  let r := length h in
  let vs := default [] (opt_validators opts) in
  let c0 := mkControl None (VArr v) (VArr v) initial_status None false vs [] (KArray f []) in
  let srcs := map (fun w => match callV w (h ++ [c0]) r with
                            | Now m => Some m
                            | Later => None
                            end) vs in
  let c1 := with_validationSubs [mkSub srcs false 0] c0 in
  fabricate_from callF (h ++ [c1]) r v = Some (controls, h2) ->
  h2 !! r = Some c1 ->
  r ∉ controls ->
  exists h' g,
    new_ArrayControl callV callF fuel h f v opts = Some (r, h') /\
    h' !! r = Some g /\
    kind g = KArray f controls /\ parent g = None /\ initialized g = true /\
    initialValue g = VArr v /\
    (forall x cx, h2 !! x = Some cx -> x <> r ->
       h' !! x = Some (if decide (x ∈ controls) then with_parent (Some r) cx else cx)) /\
    match combined srcs with
    | Some errs =>
        errors g = errs /\
        value g = VArr (map (fun x => value (h2 !!! x)) controls) /\
        forall fl, flag fl (status g) =
                   flag fl (mkStatus (double_bang errs) false false false false) ||
                   existsb (fun ch => flag fl (status (h2 !!! ch))) controls
    | None =>
        errors g = None /\ value g = VArr v /\ status g = initial_status
    end.
Proof.
  intros Hfuel r vs c0 srcs c1 Hfab Hr2 Hnotin.
  assert (Hcons : FieldControl_construct callV fuel h (KArray f []) (VArr v) opts
                  = Some (r, h ++ [c1])).
  { unfold FieldControl_construct. fold vs. fold c0. fold r. cbv zeta.
    unfold r. rewrite validate_fresh by done. fold r.
    change (validators c0) with vs. fold srcs. fold c1.
    unfold fieldReady. unfold r. by rewrite lookup_snoc. }
  set (c2 := set_controls controls c1).
  set (h3 := alter (set_controls controls) r h2).
  assert (Hlt2 : r < length h2) by (by eapply lookup_lt_Some).
  assert (Hr3 : h3 !! r = Some c2).
  { unfold h3. by rewrite list_lookup_alter_eq, Hr2. }
  assert (Hch3 : children (h3 !!! r) = controls).
  { by rewrite (list_lookup_total_correct _ _ _ Hr3). }
  set (h4 := foldl (fun h0 control => registerControl h0 r control) h3 controls).
  assert (Hr4 : h4 !! r = Some c2).
  { unfold h4. by rewrite register_all_lookup, Hr3, decide_False. }
  assert (Hold4 : forall x, x <> r ->
            h4 !! x = (if decide (x ∈ controls) then with_parent (Some r) else id) <$> h2 !! x).
  { intros x Hne. unfold h4, h3.
    by rewrite register_all_lookup, list_lookup_alter_ne. }
  pose proof (gate_opens_fresh fuel h4 r c2 srcs Hfuel Hr4 eq_refl eq_refl) as Hgate.
  assert (Hnew : forall g, arrayReady fuel h4 r = Some (<[r := g]> h4) ->
            new_ArrayControl callV callF fuel h f v opts = Some (r, <[r := g]> h4)).
  { intros g Hg. unfold new_ArrayControl. rewrite Hcons. fold r. rewrite Hfab. cbv zeta.
    fold h3. rewrite Hch3. fold h4. by rewrite Hg. }
  assert (Hlt4 : r < length h4) by (by eapply lookup_lt_Some).
  assert (Hold : forall g x cx, h2 !! x = Some cx -> x <> r ->
            <[r := g]> h4 !! x =
            Some (if decide (x ∈ controls) then with_parent (Some r) cx else cx)).
  { intros g x cx Hx Hne. rewrite list_lookup_insert_ne by done.
    rewrite (Hold4 x Hne), Hx. by destruct (decide _). }
  revert Hgate. destruct (combined srcs) as [errs|]; intros Hgate.
  - cbv zeta in Hgate.
    set (c3 := with_status
                 (spread_status (status c2)
                    (mkPartial (Some (double_bang errs)) None None None None))
                 (with_errors errs
                    (with_validationSubs [mkSub srcs true 1] (with_initialized true c2))))
      in *.
    set (h5 := <[r := c3]> h4) in *.
    assert (Hch : forall ch, ch ∈ controls ->
              value (h5 !!! ch) = value (h2 !!! ch) /\
              status (h5 !!! ch) = status (h2 !!! ch)).
    { intros ch Hin. assert (Hne : ch <> r) by (intros ->; done).
      apply (registered_total h2 h5 controls r ch).
      unfold h5. rewrite list_lookup_insert_ne by done. by apply Hold4. }
    eexists _, _. split; [apply Hnew, Hgate|].
    split; [by apply list_lookup_insert_eq|].
    do 4 (split; [reflexivity|]).
    split; [by apply Hold|].
    split; [reflexivity|]. split.
    + change (value (with_status (aggregate h5 (recompute_value h5 c3))
                                 (recompute_value h5 c3)))
        with (VArr (map (fun x => value (h5 !!! x)) controls)).
      f_equal. apply map_ext_in. intros ch Hin. apply list_elem_of_In in Hin.
      by destruct (Hch ch Hin) as [-> _].
    + intros fl.
      change (status (with_status (aggregate h5 (recompute_value h5 c3))
                                  (recompute_value h5 c3)))
        with (aggregate h5 (recompute_value h5 c3)).
      rewrite flag_aggregate, status_recompute, children_recompute.
      f_equal. apply existsb_ext_in. intros ch Hin.
      by destruct (Hch ch Hin) as [_ ->].
  - eexists _, _. split; [apply Hnew, Hgate|].
    split; [by apply list_lookup_insert_eq|].
    do 4 (split; [reflexivity|]).
    split; [by apply Hold|]. by repeat split.
Qed.

End ArrayConstructor.

(** ** Errors read along a path *)

Section ErrorFacts.

Context {V F : Type}.
Variable callV : V -> Heap V F -> ref -> VResult.
Variable array_property : string -> bool.
Variable number_key : Z -> string.
Implicit Types (h : Heap V F) (c : Control V F) (r : ref).

Lemma only_vs_kind h h' : only_vs h h' -> forall x, kind (h' !!! x) = kind (h !!! x).
Proof.
  intros [L P] x. destruct (h !! x) as [cx|] eqn:Hx.
  - destruct (P x cx Hx) as (c' & Hx' & D).
    rewrite (list_lookup_total_correct _ _ _ Hx), (list_lookup_total_correct _ _ _ Hx').
    by destruct (differ_vs_fields _ _ D) as (_ & _ & _ & _ & _ & Hk & _).
  - assert (Hx' : h' !! x = None).
    { apply lookup_ge_None. rewrite L. by apply lookup_ge_None. }
    by rewrite !list_lookup_total_alt, Hx, Hx'.
Qed.

Lemma insert_kind h r c c' :
  h !! r = Some c -> kind c' = kind c ->
  forall x, kind (<[r := c']> h !!! x) = kind (h !!! x).
Proof.
  intros Hr Hk x. destruct (decide (r = x)) as [<-|Hne].
  - rewrite list_lookup_total_insert_eq by (by eapply lookup_lt_Some).
    by rewrite (list_lookup_total_correct _ _ _ Hr).
  - by rewrite list_lookup_total_insert_ne.
Qed.

(** A delivery changes no control's class and no control's children. *)
Lemma deliver_kind fuel h r k d c h' :
  rooted h r d -> d < fuel -> h !! r = Some c -> deliver fuel h r k = Some h' ->
  forall x, kind (h' !!! x) = kind (h !!! x).
Proof.
  intros Hr Hd Hx. unfold deliver. rewrite Hx.
  destruct (validationSubs c !! k) as [sub|]; [|by intros [= <-]].
  destruct (first_combined c sub) as [errs|]; [|by intros [= <-]].
  set (c0 := with_errors errs
               (with_validationSubs (<[k := completed sub]> (validationSubs c)) c)).
  intros Hs x.
  assert (SP : same_parents h (<[r := c0]> h)) by by apply (same_parents_insert h r c c0).
  assert (Hx0 : <[r := c0]> h !! r = Some c0).
  { apply list_lookup_insert_eq. by eapply lookup_lt_Some. }
  destruct (setStatus_spec fuel _ r d c0
              (mkPartial (Some (double_bang errs)) None None None None)
              (rooted_same_parents _ _ _ _ SP Hr) Hd Hx0) as (h2 & Hs2 & O & _).
  assert (h2 = h') by congruence. subst h2.
  rewrite (only_vs_kind _ _ O x). by apply (insert_kind h r c c0).
Qed.

Lemma validate_kind fuel h r d c h' :
  rooted h r d -> d < fuel -> h !! r = Some c -> validate callV fuel h r = Some h' ->
  forall x, kind (h' !!! x) = kind (h !!! x).
Proof.
  intros Hr Hd Hx. unfold validate. rewrite Hx. cbv zeta.
  match goal with
  | |- deliver _ (<[r := ?c1]> h) _ ?k = _ -> _ => set (c_pre := c1); set (k0 := k)
  end.
  intros Hdel x.
  assert (SP : same_parents h (<[r := c_pre]> h)) by by apply (same_parents_insert h r c c_pre).
  assert (Hx0 : <[r := c_pre]> h !! r = Some c_pre).
  { apply list_lookup_insert_eq. by eapply lookup_lt_Some. }
  rewrite (deliver_kind fuel _ r k0 d c_pre h' (rooted_same_parents _ _ _ _ SP Hr) Hd Hx0 Hdel x).
  by apply (insert_kind h r c c_pre).
Qed.

(** Path resolution looks at nothing but the classes and the children. *)
Lemma findControl_kinds h h' (g : ref) (p : option Path) (d : Ascii.ascii) :
  (forall x, kind (h' !!! x) = kind (h !!! x)) ->
  findControl array_property number_key h' g p d =
  findControl array_property number_key h g p d.
Proof.
  intros Hk.
  assert (Hstep : forall (l : list Segment) f,
            foldl (findControl_step array_property number_key h') f l =
            foldl (findControl_step array_property number_key h) f l).
  { induction l as [|s l IH]; intros f; [done|]. simpl. rewrite IH. f_equal.
    unfold findControl_step. destruct f; try done. by rewrite Hk. }
  unfold findControl. destruct p as [p|]; [|done]. cbv zeta.
  destruct (match p with
            | PathList l => l
            | PathString s => map SegName (split_on d s)
            end) as [|s l] eqn:E; [done|]. apply Hstep.
Qed.

Lemma answers_as_sources h r (vs : list V) (answers : list (option Messages)) :
  map (fun v => callV v h r) vs = map Now answers ->
  map (fun v => match callV v h r with
                | Now m => Some m
                | Later => None
                end) vs = map Some answers.
Proof.
  revert answers. induction vs as [|v vs IH]; intros [|a answers]; simpl; try done.
  intros [= Hv Hrest]. rewrite Hv. f_equal. by apply IH.
Qed.

(** X6. From [setValidators] to [getError]. On a field whose gate is open,
    [setValidators] with validators that all answer at once returns, and
    afterwards [getError] through a non-empty path that reaches the field
    reads the merged answers: it is [null] when no validator objects; for a
    code that some answer holds it is the descriptor of the last answer
    holding it; for a code that no answer holds it is what
    [Object.prototype] has under that name, and [undefined] when that has
    nothing. The path still reaches the field after the call. *)
Theorem getError_reads_the_merged_answers fuel h r d c (g : ref) (p : Path)
    (vs : list V) (answers : list (option Messages)) :
  h !! r = Some c -> initialized c = true -> rooted h r d -> d < fuel ->
  path_truthy (Some p) = true ->
  FieldControl_get array_property number_key h g p = FoundControl r ->
  map (fun v => callV v (<[r := with_validators vs c]> h) r) vs = map Now answers ->
  exists h',
    setValidators callV fuel h r vs = Some h' /\
    FieldControl_get array_property number_key h' g p = FoundControl r /\
    forall code,
      getError array_property number_key h' g code (Some p) =
        match merge_results (filter_notNullish answers) with
        | None => ErrNull
        | Some m =>
            match m !! code with
            | Some e => ErrDescriptor e
            | None =>
                match Object_prototype code with
                | Some i => ErrInherited i
                | None => ErrUndefined
                end
            end
        end /\
      (forall e,
         getError array_property number_key h' g code (Some p) = ErrDescriptor e <->
         exists i m,
           filter_notNullish answers !! i = Some m /\ m !! code = Some e /\
           forall j m', i < j -> filter_notNullish answers !! j = Some m' ->
                        m' !! code = None).
Proof.
  intros Hx Hi Hr Hd Hp Hget Hans.
  set (c1 := with_validators vs c). fold c1 in Hans.
  assert (SP : same_parents h (<[r := c1]> h)) by by apply (same_parents_insert h r c c1).
  assert (Hx1 : <[r := c1]> h !! r = Some c1).
  { apply list_lookup_insert_eq. by eapply lookup_lt_Some. }
  pose proof (rooted_same_parents _ _ _ _ SP Hr) as Hr1.
  destruct (validate_effect callV fuel _ r d c1 Hr1 Hd Hx1) as (h' & c' & Hval & Hx' & Heff).
  cbv zeta in Heff.
  change (validators c1) with vs in Heff. change (initialized c1) with (initialized c) in Heff.
  rewrite Hi, (answers_as_sources _ r vs answers Hans) in Heff.
  unfold combined in Heff.
  destruct (all_emitted_map_Some answers) as [Hall Hfil]. rewrite Hall, Hfil in Heff.
  destruct Heff as [Herr _].
  assert (Hk : forall x, kind (h' !!! x) = kind (h !!! x)).
  { intros x. rewrite (validate_kind fuel _ r d c1 h' Hr1 Hd Hx1 Hval x).
    by apply (insert_kind h r c c1). }
  assert (Hget' : FieldControl_get array_property number_key h' g p = FoundControl r).
  { unfold FieldControl_get. rewrite (findControl_kinds h h' g (Some p) _ Hk). exact Hget. }
  exists h'. split; [unfold setValidators; by rewrite Hx|]. split; [exact Hget'|].
  assert (Hfmt : forall code,
            getError array_property number_key h' g code (Some p) =
            match merge_results (filter_notNullish answers) with
            | None => ErrNull
            | Some m =>
                match m !! code with
                | Some e => ErrDescriptor e
                | None =>
                    match Object_prototype code with
                    | Some i => ErrInherited i
                    | None => ErrUndefined
                    end
                end
            end).
  { intros code. unfold getError. rewrite Hp, Hget'.
    by rewrite (list_lookup_total_correct _ _ _ Hx'), Herr. }
  intros code. split; [apply Hfmt|]. intros e. rewrite Hfmt.
  unfold merge_results. destruct (filter_notNullish answers) as [|a l] eqn:El.
  - split; [done|]. by intros (i & m & Hl & _).
  - rewrite <- El. clear El. split.
    + destruct (foldl _ _ _ !! code) as [e'|] eqn:Hm.
      * intros [= ->]. by apply merge_fold_lookup.
      * by destruct (Object_prototype code).
    + intros Hex. apply merge_fold_lookup in Hex. by rewrite Hex.
Qed.

End ErrorFacts.

(** ** The further properties at stores the host program builds *)

Lemma getError_witness :
  exists h0 h',
    FieldControl_setValue 3 two_items_heap 1 (VStr "") = Some h0 /\
    setValidators demo_callV 3 h0 1 [required] = Some h' /\
    getError (String.eqb "length") pretty h' 0 "required" (Some (PathString "0.name")) =
      ErrDescriptor (mkDescriptor "required" []) /\
    getError (String.eqb "length") pretty h' 0 "toString" (Some (PathString "0.name")) =
      ErrInherited (InheritedMethod "toString").
Proof.
  set (h0 := default [] (FieldControl_setValue 3 two_items_heap 1 (VStr ""))).
  destruct (getError_reads_the_merged_answers demo_callV (String.eqb "length") pretty
              3 h0 1 2 (h0 !!! 1) 0 (PathString "0.name") [required] [Some required_error])
    as (h' & Hset & _ & Hread).
  - by vm_compute.
  - by vm_compute.
  - apply (rooted_up _ 1 (h0 !!! 1) 2 1); [by vm_compute | by vm_compute |].
    apply (rooted_up _ 2 (h0 !!! 2) 0 0); [by vm_compute | by vm_compute |].
    apply (rooted_top _ 0 (h0 !!! 0)); by vm_compute.
  - lia.
  - reflexivity.
  - by vm_compute.
  - by vm_compute.
  - exists h0, h'. split; [by vm_compute|]. split; [exact Hset|]. split.
    + rewrite (proj1 (Hread "required"%string)). by vm_compute.
    + rewrite (proj1 (Hread "toString"%string)). by vm_compute.
Defined.

Lemma get_string_path_witness :
  FieldControl_get (String.eqb "length") pretty two_items_heap 0 (PathString "0.name") =
  FoundControl 1.
Proof.
  destruct (get_string_path_is_split_at_dots (String.eqb "length") pretty two_items_heap 0
              ["0"; "name"]%string) as [Hsplit _].
  - discriminate.
  - repeat constructor.
  - etransitivity; [exact Hsplit | by vm_compute].
Defined.

Lemma root_witness :
  exists t,
    root 3 two_items_heap 1 = Some t /\ rooted two_items_heap t 0 /\
    on_chain two_items_heap 1 t /\
    forall x, on_chain two_items_heap 1 x -> root 3 two_items_heap x = Some t.
Proof.
  apply (root_is_top_of_chain 3 two_items_heap 1 2).
  - apply (rooted_up _ 1 (two_items_heap !!! 1) 2 1); [by vm_compute | by vm_compute |].
    apply (rooted_up _ 2 (two_items_heap !!! 2) 0 0); [by vm_compute | by vm_compute |].
    apply (rooted_top _ 0 (two_items_heap !!! 0)); by vm_compute.
  - lia.
Defined.


Lemma setValue_witness :
  exists h' c',
    FieldControl_setValue 3 two_items_heap 1 (VStr "z") = Some h' /\
    h' !! 1 = Some c' /\ value c' = VStr "z" /\ dirty (status c') = true.
Proof.
  destruct (setValue_writes_and_marks_without_validating 3 two_items_heap 1 2
              (two_items_heap !!! 1) (VStr "z"))
    as (h' & c' & Hset & Hx & Hv & Hd & _).
  - by vm_compute.
  - reflexivity.
  - apply (rooted_up _ 1 (two_items_heap !!! 1) 2 1); [by vm_compute | by vm_compute |].
    apply (rooted_up _ 2 (two_items_heap !!! 2) 0 0); [by vm_compute | by vm_compute |].
    apply (rooted_top _ 0 (two_items_heap !!! 0)); by vm_compute.
  - lia.
  - by exists h', c'.
Defined.


Lemma parent_value_witness :
  exists h' c',
    setStatus 2 two_items_heap 2 (mkPartial None None (Some true) None None) = Some h' /\
    h' !! 0 = Some c' /\
    value c' = VArr (map (fun x => value (h' !!! x)) [2; 4]).
Proof.
  destruct (parent_value_follows_children 2 two_items_heap 2 (two_items_heap !!! 2)
              0 (two_items_heap !!! 0) 0 (mkPartial None None (Some true) None None))
    as (h' & c' & Hset & Hx & Harr & _).
  - by vm_compute.
  - reflexivity.
  - reflexivity.
  - by vm_compute.
  - reflexivity.
  - apply (rooted_top _ 0 (two_items_heap !!! 0)); by vm_compute.
  - lia.
  - intros ch Hin. vm_compute in Hin.
    apply elem_of_cons in Hin as [->|Hin]; [eexists; split; by vm_compute|].
    apply elem_of_cons in Hin as [->|Hin]; [eexists; split; by vm_compute|].
    by apply elem_of_nil in Hin.
  - exists h', c'. split; [exact Hset|]. split; [exact Hx|].
    by apply (Harr namedItem [2; 4]).
Defined.

Lemma push_witness :
  array_controls (push two_items_heap 0 [2] !!! 0) = [2; 4; 2] /\
  ArrayControl_length (push two_items_heap 0 [2]) 0 = 3.
Proof.
  destruct (push_appends_in_order two_items_heap 0 (two_items_heap !!! 0) namedItem
              [2; 4] [2]) as (Hseq & Hlen & _).
  - by vm_compute.
  - reflexivity.
  - by split.
Defined.

Lemma insert_removeAt_witness :
  array_controls (insert_ two_items_heap 0 1 2 !!! 0) = [2; 2; 4] /\
  array_controls (removeAt (insert_ two_items_heap 0 1 2) 0 1 !!! 0) = [2; 4].
Proof.
  destruct (insert_then_removeAt_round_trip two_items_heap 0 (two_items_heap !!! 0)
              namedItem [2; 4] 1 2) as (Hins & _ & Hback & _).
  - by vm_compute.
  - reflexivity.
  - simpl. lia.
  - by split.
Defined.

Lemma setStatus_frame_witness :
  exists h',
    setStatus 3 two_items_heap 1 (mkPartial None None (Some true) None None) = Some h' /\
    length h' = 5.
Proof.
  destruct (setStatus_touches_only_the_chain 3 two_items_heap 1 2 (two_items_heap !!! 1)
              (mkPartial None None (Some true) None None)) as (h' & Hset & Hlen & _).
  - by vm_compute.
  - apply (rooted_up _ 1 (two_items_heap !!! 1) 2 1); [by vm_compute | by vm_compute |].
    apply (rooted_up _ 2 (two_items_heap !!! 2) 0 0); [by vm_compute | by vm_compute |].
    apply (rooted_top _ 0 (two_items_heap !!! 0)); by vm_compute.
  - lia.
  - by exists h'.
Defined.

Lemma reset_child_witness :
  exists h',
    FieldControl_reset 3 dirty_item_pushed 0 = Some h' /\
    dirty (status (h' !!! 0)) = false /\
    dirty (status (h' !!! 1)) = true.
Proof.
  destruct (reset_clears_the_field_only 3 dirty_item_pushed 0 2 (dirty_item_pushed !!! 0))
    as [_ Hreset].
  - by vm_compute.
  - apply (rooted_up _ 0 (dirty_item_pushed !!! 0) 1 1); [by vm_compute | by vm_compute |].
    apply (rooted_up _ 1 (dirty_item_pushed !!! 1) 2 0); [by vm_compute | by vm_compute |].
    apply (rooted_top _ 2 (dirty_item_pushed !!! 2)); by vm_compute.
  - lia.
  - destruct (Hreset eq_refl) as (h' & Hr & Hd & _ & Hkeep).
    exists h'. split; [exact Hr|]. split; [exact Hd|].
    apply (Hkeep 1 FDirty); [lia | reflexivity].
Defined.

Lemma new_FieldControl_witness :
  exists c',
    new_FieldControl demo_callV 3 [] (VStr "") (mkOptions (Some [required]) None)
      = Some (0, [c']) /\
    errors c' = Some required_error /\ valid (status c') = true.
Proof.
  destruct (new_FieldControl_postcondition demo_callV 3 [] (VStr "")
              (mkOptions (Some [required]) None)) as (c' & Hnew & _ & _ & _ & _ & _ & _ & Hm).
  - lia.
  - destruct Hm as (He & Hs & _).
    exists c'. split; [exact Hnew|]. split; [exact He | by rewrite Hs].
Defined.

Lemma new_GroupControl_witness :
  exists h' g,
    new_GroupControl demo_callV 1 one_group [("a"%string, 0)] no_options = Some (2, h') /\
    h' !! 2 = Some g /\
    parent (one_group !!! 0) = Some 1 /\
    h' !! 0 = Some (with_parent (Some 2) (one_group !!! 0)) /\
    value g = VObj [("a"%string, VStr "x")].
Proof.
  destruct (new_GroupControl_postcondition demo_callV 1 one_group [("a"%string, 0)]
              no_options) as (h' & g & Hnew & _ & Hg & Hold & _ & _ & _ & _ & Hm).
  - lia.
  - apply Forall_cons. split; [simpl; lia | apply Forall_nil_2].
  - destruct Hm as (_ & Hv & _).
    exists h', g. split; [exact Hnew|]. split; [exact Hg|]. split; [reflexivity|].
    split; [|exact Hv].
    rewrite (Hold 0 (one_group !!! 0) eq_refl). by rewrite decide_True by (by left).
Defined.

Lemma group_reset_witness :
  exists h',
    reset demo_callF RAR_range 5 dirty_item_pushed 1 = Some h' /\
    dirty (status (h' !!! 0)) = false /\
    dirty (status (h' !!! 1)) = true.
Proof.
  destruct (group_reset_resets_children_only demo_callF RAR_range 3 dirty_item_pushed 1
              (dirty_item_pushed !!! 1) [("name"%string, 0)] 1)
    as (h' & Hreset & Hkids & Hkeep & _).
  - by vm_compute.
  - reflexivity.
  - apply (rooted_up _ 1 (dirty_item_pushed !!! 1) 2 0); [by vm_compute | by vm_compute |].
    apply (rooted_top _ 2 (dirty_item_pushed !!! 2)); by vm_compute.
  - lia.
  - intros ch Hin. vm_compute in Hin.
    apply elem_of_cons in Hin as [->|Hin];
      [eexists; split; [by vm_compute | split; by vm_compute]|].
    by apply elem_of_nil in Hin.
  - exists h'. split; [exact Hreset|]. split.
    + destruct (Hkids 0 (dirty_item_pushed !!! 0)) as (cc' & Hx & _ & Hd & _);
        [by left | by vm_compute |].
      by rewrite (list_lookup_total_correct _ _ _ Hx).
    + by apply (Hkeep FDirty).
Defined.

Lemma getRawValue_witness :
  getRawValue 1 one_group 1 = Some (reduceControls one_group [("a"%string, 0)] true).
Proof.
  destruct (getRawValue_never_recurses 0 one_group 1 (one_group !!! 1)) as (Hgroup & _).
  - by vm_compute.
  - by apply Hgroup.
Defined.

Lemma group_setValue_witness :
  (exists h' cc',
      setValue demo_callF RAR_range 5 two_items_heap 2
        (VObj [("name"%string, VStr "z"); ("other"%string, VNum 1)]) = Some h' /\
      h' !! 1 = Some cc' /\ value cc' = VStr "z" /\ dirty (status cc') = true) /\
  setValue demo_callF RAR_range 5 two_items_heap 2
    (VObj [("name"%string, VStr "z"); ("other"%string, VNum 1);
           ("toString"%string, VStr "t")]) = None.
Proof.
  destruct (group_setValue_writes_named_children demo_callF RAR_range 3 two_items_heap 2
              (two_items_heap !!! 2) [("name"%string, 1)] 1
              [("name"%string, VStr "z"); ("other"%string, VNum 1)])
    as ((h' & Hset & Hnamed & _) & Hthrow).
  - by vm_compute.
  - reflexivity.
  - apply (rooted_up _ 2 (two_items_heap !!! 2) 0 0); [by vm_compute | by vm_compute |].
    apply (rooted_top _ 0 (two_items_heap !!! 0)); by vm_compute.
  - lia.
  - apply NoDup_cons. split; [apply not_elem_of_nil | apply NoDup_nil_2].
  - apply NoDup_cons. split.
    + intros Hin. apply elem_of_cons in Hin as [Hin|Hin]; [discriminate Hin|].
      by apply elem_of_nil in Hin.
    + apply NoDup_cons. split; [apply not_elem_of_nil | apply NoDup_nil_2].
  - apply Forall_cons. split; [intros Hget; discriminate Hget|].
    apply Forall_cons. split; [intros _; by vm_compute | apply Forall_nil_2].
  - intros ch Hin. vm_compute in Hin.
    apply elem_of_cons in Hin as [->|Hin];
      [eexists; split; [by vm_compute | split; by vm_compute]|].
    by apply elem_of_nil in Hin.
  - split.
    + destruct (Hnamed "name"%string (VStr "z") 1 (two_items_heap !!! 1))
        as (cc' & Hx & Hv & Hd & _); [by left | reflexivity | by vm_compute |].
      by exists h', cc'.
    + apply (Hthrow "toString"%string (VStr "t") []); [reflexivity | by eexists].
Defined.

Lemma new_ArrayControl_witness :
  exists h' g,
    new_ArrayControl demo_callV demo_callF 1 [] namedItem
      [VObj [("name"%string, VStr "a"); ("extra"%string, VNum 1)]] no_options
      = Some (0, h') /\
    h' !! 0 = Some g /\
    kind g = KArray namedItem [2] /\
    value g = VArr [VObj [("name"%string, VStr "a")]].
Proof.
  destruct (new_ArrayControl_postcondition demo_callV demo_callF 1 [] namedItem
              [VObj [("name"%string, VStr "a"); ("extra"%string, VNum 1)]] no_options [2]
              (default []
                 (snd <$> fabricate_from demo_callF
                            [mkControl None
                               (VArr [VObj [("name"%string, VStr "a");
                                            ("extra"%string, VNum 1)]])
                               (VArr [VObj [("name"%string, VStr "a");
                                            ("extra"%string, VNum 1)]])
                               initial_status None false [] [mkSub [] false 0]
                               (KArray namedItem [])]
                            0
                            [VObj [("name"%string, VStr "a"); ("extra"%string, VNum 1)]])))
    as (h' & g & Hnew & Hg & Hk & _ & _ & _ & _ & Hm).
  - lia.
  - by vm_compute.
  - by vm_compute.
  - intros Hin. apply elem_of_cons in Hin as [Hin|Hin]; [discriminate Hin|].
    by apply elem_of_nil in Hin.
  - destruct Hm as (_ & Hv & _).
    exists h', g. split; [exact Hnew|]. split; [exact Hg|]. split; [exact Hk|].
    rewrite Hv. by vm_compute.
Defined.
